(** * Resume parsing helpers ([SCV/utils/parse_resume.py]): a shallow embedding

    The Python module turns raw resume text into a structured record.  Python
    strings are sequences of Unicode code points; they are modelled as lists
    of code points ([list N]).  The tables of the Unicode character database
    that [str] methods and the [re] module consult (white space, alphanumeric,
    case mappings) are not part of the repository: they are the fields of the
    class [Unicode], and every function below is parametric in them.  An
    instance that agrees with CPython on the ASCII range is given at the end
    of the definitions and is used to run the parser on ASCII text.

    Operations that can raise in Python (indexing a list or a string, looking
    a key up in a dict) and the [while] loops of the section parsers return
    [option]: [None] stands for an exception or for a loop that does not
    come to an end. *)

From Stdlib Require Import List NArith ZArith QArith Bool String Ascii Lia Permutation Sorted Lqa.
From stdpp Require Import base option list countable gmap.

#[local] Set Warnings "-clear-no-such-hyp".

Local Open Scope N_scope.

Abbreviation char := N (only parsing).
Abbreviation str := (list N) (only parsing).

(** ** Code points and literals *)

(** A string literal of the source, read as its code points (ASCII). *)
Definition py (s : string) : str :=
  List.map N_of_ascii (list_ascii_of_string s).

Definition c_nl : char := 10.
Definition c_cr : char := 13.
Definition c_hyphen : char := 45.
(* "•", "·", "●", "▪", "►", "–", "—" *)
Definition c_bullet : char := 8226.
Definition c_middot : char := 183.
Definition c_black_circle : char := 9679.
Definition c_black_square : char := 9642.
Definition c_black_pointer : char := 9658.
Definition c_en_dash : char := 8211.
Definition c_em_dash : char := 8212.

Definition char_in (cs : str) (c : char) : bool := existsb (N.eqb c) cs.
Definition in_range (lo hi c : char) : bool := (lo <=? c) && (c <=? hi).

(** ** The Unicode tables used by [str] and [re] *)

Class Unicode := {
  (* str.isspace() of one character; also \s and the set str.strip() and
     str.split() remove *)
  u_isspace : char -> bool;
  (* str.isalnum() of one character; \w is this or "_" *)
  u_isalnum : char -> bool;
  (* \d *)
  u_isdecimal : char -> bool;
  (* str.isupper() of one character *)
  u_isupper : char -> bool;
  (* re.IGNORECASE: does the subject character match the pattern character *)
  u_ieq : char -> char -> bool;
  (* str.upper(), str.lower(), str.title() *)
  u_upper : str -> str;
  u_lower : str -> str;
  u_title : str -> str;
  (* facts of the database the proofs rely on: a decimal digit is not white
     space, it has no case (under re.IGNORECASE it matches itself only), and
     the hyphen, the en dash, the em dash, "t" and "o" are not digits *)
  u_decimal_not_space : forall c, u_isdecimal c = true -> u_isspace c = false;
  u_decimal_caseless : forall c x, u_isdecimal c = true -> u_ieq c x = true -> x = c;
  u_not_decimal : forall c, char_in [45; 8211; 8212; 116; 111] c = true -> u_isdecimal c = false;
}.

Section Engine.
Context {U : Unicode}.

(** ** [str] methods *)

Fixpoint dropwhile (p : char -> bool) (s : str) : str :=
  match s with
  | c :: t => if p c then dropwhile p t else s
  | [] => []
  end.

Definition lstrip_by (p : char -> bool) (s : str) : str := dropwhile p s.
Definition rstrip_by (p : char -> bool) (s : str) : str := rev (dropwhile p (rev s)).
Definition strip_by (p : char -> bool) (s : str) : str := rstrip_by p (lstrip_by p s).

(* s.strip() *)
Definition strip (s : str) : str := strip_by u_isspace s.
(* s.strip(chars), s.lstrip(chars), s.rstrip(chars) *)
Definition strip_chars (cs s : str) : str := strip_by (char_in cs) s.
Definition lstrip_chars (cs s : str) : str := lstrip_by (char_in cs) s.
Definition rstrip_chars (cs s : str) : str := rstrip_by (char_in cs) s.

(* s.split(): the maximal runs of characters that are not white space *)
Fixpoint split_ws_aux (cur : str) (s : str) : list str :=
  match s with
  | [] => match cur with [] => [] | _ => [rev cur] end
  | c :: t =>
      if u_isspace c
      then match cur with [] => split_ws_aux [] t | _ => rev cur :: split_ws_aux [] t end
      else split_ws_aux (c :: cur) t
  end.
Definition split_ws (s : str) : list str := split_ws_aux [] s.

Fixpoint startswith (s x : str) : bool :=
  match x, s with
  | [], _ => true
  | a :: x', b :: s' => (a =? b) && startswith s' x'
  | _ :: _, [] => false
  end.

Definition endswith (s x : str) : bool := startswith (rev s) (rev x).

(* s.startswith((x1, ..., xn)) *)
Definition startswith_any (s : str) (xs : list str) : bool := existsb (startswith s) xs.

(* x in s *)
Fixpoint contains (s x : str) : bool :=
  startswith s x || match s with _ :: t => contains t x | [] => false end.

(* sep.join(parts) *)
Fixpoint join (sep : str) (parts : list str) : str :=
  match parts with
  | [] => []
  | [p] => p
  | p :: ps => p ++ sep ++ join sep ps
  end.

(* s.split(sep), sep not empty: [skip] counts the characters of a separator
   found at an earlier position that are still to be passed over *)
Fixpoint split_sep_aux (sep : str) (skip : nat) (cur : str) (s : str) : list str :=
  match skip with
  | S k => match s with
           | _ :: t => split_sep_aux sep k cur t
           | [] => [rev cur]
           end
  | O => match s with
         | [] => [rev cur]
         | c :: t =>
             if startswith s sep
             then rev cur :: split_sep_aux sep (Nat.pred (length sep)) [] t
             else split_sep_aux sep O (c :: cur) t
         end
  end.
Definition split_sep (sep s : str) : list str := split_sep_aux sep O [] s.

(* s.split(sep, 1) *)
Fixpoint split_once_aux (sep : str) (cur : str) (s : str) : list str :=
  match s with
  | [] => [rev cur]
  | c :: t =>
      if startswith s sep
      then [rev cur; skipn (length sep) s]
      else split_once_aux sep (c :: cur) t
  end.
Definition split_once (sep s : str) : list str := split_once_aux sep [] s.

(* s.replace(a, b) for single characters a and b *)
Definition replace_char (a b : char) (s : str) : str :=
  List.map (fun c => if c =? a then b else c) s.

(* the line boundaries of str.splitlines(), "\r\n" apart *)
Definition is_linebreak (c : char) : bool :=
  char_in [10; 11; 12; 13; 28; 29; 30; 133; 8232; 8233] c.

(* s.splitlines() *)
Fixpoint splitlines_aux (cur : str) (s : str) : list str :=
  match s with
  | [] => match cur with [] => [] | _ => [rev cur] end
  | c :: t =>
      if is_linebreak c
      then rev cur :: match t with
                      | c' :: t' =>
                          if (c =? c_cr) && (c' =? c_nl)
                          then splitlines_aux [] t'
                          else splitlines_aux [] t
                      | [] => []
                      end
      else splitlines_aux (c :: cur) t
  end.
Definition splitlines (s : str) : list str := splitlines_aux [] s.

(** ** The [re] module

    Patterns are written as syntax trees; every repetition of the module's
    patterns is over a single character class, so [Rep] takes a class.  The
    matcher lists the ways a pattern matches at a position in the priority
    order of a backtracking matcher (greedy repetitions first, alternatives
    left to right): Python's match is the head of the list. *)

Inductive re : Type :=
| Eps
| Cls (p : char -> bool)                         (* one character of a class *)
| Cat (a b : re)
| Alt (a b : re)                                 (* a|b *)
| Opt (a : re)                                   (* a? *)
| Rep (p : char -> bool) (lo : nat) (hi : option nat)   (* [..]{lo,hi}, greedy *)
| Grp (n : nat) (a : re)                         (* capturing group number n *)
| WordB                                          (* \b *)
| Bol                                            (* ^ *)
| Eol.                                           (* $ *)

(* position of the matcher: the text before the cursor (reversed), the text
   after it, and the groups captured so far *)
Record mstate := MState {
  m_before : str;
  m_after : str;
  m_groups : list (nat * str);
}.

Definition is_word (c : char) : bool := u_isalnum c || (c =? 95).

Definition at_word_boundary (st : mstate) : bool :=
  xorb (match m_before st with c :: _ => is_word c | [] => false end)
       (match m_after st with c :: _ => is_word c | [] => false end).

(* text consumed between two positions of one subject *)
Definition consumed (st st' : mstate) : str :=
  rev (firstn (length (m_before st') - length (m_before st)) (m_before st')).

Fixpoint rep_run (p : char -> bool) (lo : nat) (hi : option nat) (n : nat)
    (bef aft : str) : list (str * str) :=
  let here := if (lo <=? n)%nat then [(bef, aft)] else [] in
  match aft with
  | c :: t =>
      if p c && match hi with Some h => (n <? h)%nat | None => true end
      then rep_run p lo hi (S n) (c :: bef) t ++ here
      else here
  | [] => here
  end.

Fixpoint rmatch (r : re) (st : mstate) : list mstate :=
  match r with
  | Eps => [st]
  | Cls p =>
      match m_after st with
      | c :: t => if p c then [MState (c :: m_before st) t (m_groups st)] else []
      | [] => []
      end
  | Cat a b => flat_map (rmatch b) (rmatch a st)
  | Alt a b => rmatch a st ++ rmatch b st
  | Opt a => rmatch a st ++ [st]
  | Rep p lo hi =>
      List.map (fun ba => MState (fst ba) (snd ba) (m_groups st))
               (rep_run p lo hi O (m_before st) (m_after st))
  | Grp n a =>
      List.map (fun st' => MState (m_before st') (m_after st')
                                  ((n, consumed st st') :: m_groups st'))
               (rmatch a st)
  | WordB => if at_word_boundary st then [st] else []
  | Bol => match m_before st with [] => [st] | _ => [] end
  | Eol => match m_after st with
           | [] => [st]
           | [c] => if c =? c_nl then [st] else []
           | _ => []
           end
  end.

(* a match object: where it starts and where it ends *)
Record match_obj := MatchObj { mo_start : mstate; mo_end : mstate }.

(* m.group(0) *)
Definition group0 (mo : match_obj) : str := consumed (mo_start mo) (mo_end mo).

(* m.group(n); None when the group took no part in the match *)
Fixpoint assoc_nat (n : nat) (l : list (nat * str)) : option str :=
  match l with
  | [] => None
  | (k, v) :: l' => if (k =? n)%nat then Some v else assoc_nat n l'
  end.
Definition group (n : nat) (mo : match_obj) : option str :=
  assoc_nat n (m_groups (mo_end mo)).

Definition match_at (r : re) (bef aft : str) : option match_obj :=
  let st := MState bef aft [] in
  match rmatch r st with
  | st' :: _ => Some (MatchObj st st')
  | [] => None
  end.

(* pattern.search(s) *)
Fixpoint search_from (r : re) (bef aft : str) : option match_obj :=
  match match_at r bef aft with
  | Some mo => Some mo
  | None => match aft with
            | c :: t => search_from r (c :: bef) t
            | [] => None
            end
  end.
Definition re_search (r : re) (s : str) : option match_obj := search_from r [] s.

(* re.match(pattern, s) *)
Definition re_match (r : re) (s : str) : option match_obj := match_at r [] s.

(* The successive non-overlapping matches of a pattern, left to right, each
   with the text between it and the match before, and the text after the
   last one.  [skip] counts the characters of the current match still to be
   passed over; [gap] is the text since the last match, reversed.  No
   pattern of the module matches the empty string; an empty match would be
   recorded and the scan resumed one character further. *)
Fixpoint scan (r : re) (skip : nat) (bef gap aft : str)
    : list (str * match_obj) * str :=
  match skip with
  | S k =>
      match aft with
      | c :: t => scan r k (c :: bef) gap t
      | [] => ([], rev gap)
      end
  | O =>
      match match_at r bef aft with
      | Some mo =>
          match aft with
          | c :: t =>
              let rest :=
                match length (group0 mo) with
                | O => scan r O (c :: bef) [c] t
                | S k => scan r k (c :: bef) [] t
                end in
              ((rev gap, mo) :: fst rest, snd rest)
          | [] => ([(rev gap, mo)], [])
          end
      | None =>
          match aft with
          | c :: t => scan r O (c :: bef) (c :: gap) t
          | [] => ([], rev gap)
          end
      end
  end.

Definition finditer (r : re) (s : str) : list (str * match_obj) * str :=
  scan r O [] [] s.

(* pattern.findall(s) for a pattern without groups: the matched texts *)
Definition re_findall (r : re) (s : str) : list str :=
  List.map (fun gm => group0 (snd gm)) (fst (finditer r s)).

(* pattern.findall(s) for a pattern with exactly one group: the text of
   that group in each match, the empty string where it took no part *)
Definition re_findall_group (r : re) (s : str) : list str :=
  List.map (fun gm => default [] (group 1 (snd gm))) (fst (finditer r s)).

(* re.sub(pattern, repl, s), the replacement computed from the match *)
Definition re_sub (r : re) (repl : match_obj -> str) (s : str) : str :=
  let '(ms, tail) := finditer r s in
  concat (List.map (fun gm => fst gm ++ repl (snd gm)) ms) ++ tail.

(* re.split(pattern, s) for a pattern without groups *)
Definition re_split (r : re) (s : str) : list str :=
  let '(ms, tail) := finditer r s in
  List.map fst ms ++ [tail].

(** Pattern syntax *)

Definition chr (c : char) : re := Cls (N.eqb c).
(* a literal character under re.IGNORECASE *)
Definition chr_i (c : char) : re := Cls (fun x => u_ieq x c).
Fixpoint lit (s : str) : re :=
  match s with
  | [] => Eps
  | [c] => chr c
  | c :: t => Cat (chr c) (lit t)
  end.
Fixpoint lit_i (s : str) : re :=
  match s with
  | [] => Eps
  | [c] => chr_i c
  | c :: t => Cat (chr_i c) (lit_i t)
  end.
Fixpoint alts (rs : list re) : re :=
  match rs with
  | [] => Cls (fun _ => false)
  | [r] => r
  | r :: rs' => Alt r (alts rs')
  end.
Fixpoint cats (rs : list re) : re :=
  match rs with
  | [] => Eps
  | [r] => r
  | r :: rs' => Cat r (cats rs')
  end.
Definition star (p : char -> bool) : re := Rep p 0 None.
Definition plus (p : char -> bool) : re := Rep p 1 None.
Definition opt_cls (p : char -> bool) : re := Rep p 0 (Some 1%nat).

Definition cls_w : char -> bool := is_word.                  (* \w *)
Definition cls_s : char -> bool := u_isspace.                (* \s *)
Definition cls_d : char -> bool := u_isdecimal.              (* \d *)
Definition cls_D (c : char) : bool := negb (u_isdecimal c).  (* \D *)

(** ** Text normalisation *)

(* re.sub(r"(\w+)-\s*\n\s*(\w+)", r"\1\2", text) *)
Definition hyphen_break_re : re :=
  cats [Grp 1 (plus cls_w); chr c_hyphen; star cls_s; chr c_nl; star cls_s;
       Grp 2 (plus cls_w)].

Definition _merge_hyphenated_words (text : str) : str :=
  re_sub hyphen_break_re
         (fun mo => default [] (group 1 mo) ++ default [] (group 2 mo)) text.

(* re.sub(r"\n{3,}", "\n\n", text) after text.replace("\r", "\n") *)
Definition blank_run_re : re := Rep (N.eqb c_nl) 3 None.

Definition _normalize_newlines (text : str) : str :=
  let text := replace_char c_cr c_nl text in
  re_sub blank_run_re (fun _ => [c_nl; c_nl]) text.

(* the Text Normalizer: both steps, as every caller applies them *)
Definition normalize (text : str) : str :=
  _normalize_newlines (_merge_hyphenated_words text).

End Engine.

(** ** Blocks *)

Section Blocks.
Context {U : Unicode}.

(* truth value of a string: it is not empty *)
Definition truthy {A} (l : list A) : bool :=
  match l with [] => false | _ => true end.

Definition preprocess_text_into_blocks (raw_text : str) : list (list str) * list str :=
  let t := _merge_hyphenated_words raw_text in
  let t := _normalize_newlines t in
  let blocks_raw := List.filter (fun b => truthy (strip b)) (split_sep [c_nl; c_nl] t) in
  let blocks :=
    List.filter truthy
      (List.map (fun b => List.map strip (List.filter (fun ln => truthy (strip ln)) (splitlines b)))
                blocks_raw) in
  (blocks, concat blocks).

(** ** The repetition filter *)

Definition word_count (s : str) : nat := length (split_ws s).

(* the short lines of one block, as the set [seen] of the first loop *)
Definition block_seen (block : list str) : gset str :=
  foldl (fun seen ln =>
           let key := strip ln in
           if (word_count key <=? 6)%nat then {[key]} ∪ seen else seen)
        ∅ block.

(* counter[k] += 1 *)
Definition counter_incr (k : str) (counter : gmap str nat) : gmap str nat :=
  <[k := S (default O (counter !! k))]> counter.

Definition count_blocks (blocks : list (list str)) : gmap str nat :=
  foldl (fun counter block => set_fold counter_incr counter (block_seen block))
        ∅ blocks.

(* one block of the second loop: the lines kept and the set [removed] *)
Definition clean_block (repeated : gset str) (removed : gset str) (block : list str)
    : list str * gset str :=
  foldl (fun '(new_block, removed) ln =>
           let key := strip ln in
           if bool_decide (key ∈ repeated)
           then if bool_decide (key ∈ removed)
                then (new_block, removed)
                else (new_block ++ [ln], {[key]} ∪ removed)
           else (new_block ++ [ln], removed))
        ([], removed) block.

Definition clean_blocks (repeated : gset str) (blocks : list (list str)) : list (list str) :=
  fst (foldl (fun '(cleaned, removed) block =>
                let '(new_block, removed) := clean_block repeated removed block in
                (if truthy new_block then cleaned ++ [new_block] else cleaned, removed))
             ([], ∅) blocks).

Definition remove_repeated_header_footer (blocks : list (list str)) : list (list str) :=
  let counter := count_blocks blocks in
  let repeated : gset str := dom (filter (fun kv => (1 < snd kv)%nat) counter) in
  if bool_decide (repeated = ∅) then blocks
  else clean_blocks repeated blocks.

End Blocks.

(** ** The header extractor *)

Section Header.
Context {U : Unicode}.

(* w[0].isupper() *)
Definition first_isupper (w : str) : option bool :=
  match w with
  | c :: _ => Some (u_isupper c)
  | [] => None
  end.

(* [A-Za-z'-] *)
Definition cls_name_char (c : char) : bool :=
  in_range 65 90 c || in_range 97 122 c || (c =? 39) || (c =? 45).

(* ^[A-Za-z'-]+$ *)
Definition alpha_word_re : re := cats [Bol; plus cls_name_char; Eol].

Definition name_stop_words : list str :=
  [py "resume"; py "cv"; py "curriculum"; py "address"; py "phone"; py "email"].

Definition count_true (bs : list bool) : nat := length (List.filter id bs).

Definition _likely_name (line : str) : option bool :=
  if negb (truthy line) || (4 <? length (split_ws line))%nat then Some false
  else
    let low := u_lower line in
    if existsb (contains low) name_stop_words then Some false
    else
      let words := split_ws line in
      let alpha_words :=
        length (List.filter (fun w => bool_decide (is_Some (re_match alpha_word_re w))) words) in
      if (alpha_words <? Nat.max 1 (length words / 2))%nat then Some false
      else
        uppers ← mapM first_isupper words;
        Some (1 <=? count_true uppers)%nat.

(* [\w\.-] *)
Definition cls_email (c : char) : bool := is_word c || (c =? 46) || (c =? 45).
(* [\s-] *)
Definition cls_space_hyphen (c : char) : bool := u_isspace c || (c =? 45).
(* [\w\.-/]: word characters and the range from "." to "/" *)
Definition cls_url (c : char) : bool := is_word c || in_range 46 47 c.
(* [^\s,] *)
Definition cls_not_space_comma (c : char) : bool := negb (u_isspace c || (c =? 44)).

(* [\w\.-]+@[\w\.-]+\.\w+ *)
Definition email_re : re :=
  cats [plus cls_email; chr 64; plus cls_email; chr 46; plus cls_w].

(* (\+\d{1,3}[\s-]?)?(?:\(?\d{2,4}\)?[\s-]?)?\d{3,4}[\s-]?\d{3,4} *)
Definition phone_re : re :=
  cats [Opt (Grp 1 (cats [chr 43; Rep cls_d 1 (Some 3%nat); opt_cls cls_space_hyphen]));
       Opt (cats [opt_cls (N.eqb 40); Rep cls_d 2 (Some 4%nat); opt_cls (N.eqb 41);
                 opt_cls cls_space_hyphen]);
       Rep cls_d 3 (Some 4%nat); opt_cls cls_space_hyphen; Rep cls_d 3 (Some 4%nat)].

(* https?://[\w\.-/]+|www\.[\w\.-/]+|linkedin\.com/[^\s,]+|github\.com/[^\s,]+
   with re.I *)
Definition url_re : re :=
  alts [cats [lit_i (py "http"); Opt (chr_i 115); lit (py "://"); plus cls_url];
        cats [lit_i (py "www"); chr 46; plus cls_url];
        cats [lit_i (py "linkedin"); chr 46; lit_i (py "com"); chr 47; plus cls_not_space_comma];
        cats [lit_i (py "github"); chr 46; lit_i (py "com"); chr 47; plus cls_not_space_comma]].

Record contact_info := Contact {
  emails : list str;
  phones : list str;
  links : list str;
}.

(* if m not in l: l.append(m) *)
Definition append_new (l : list str) (m : str) : list str :=
  if bool_decide (m ∈ l) then l else l ++ [m].

(* len(re.sub(r"\D", "", candidate)) *)
Definition digit_count (candidate : str) : nat :=
  length (re_sub (Cls cls_D) (fun _ => []) candidate).

Definition add_phone (phones : list str) (m : str) : list str :=
  let candidate := strip m in
  if truthy candidate && negb (bool_decide (candidate ∈ phones))
     && (7 <=? digit_count candidate)%nat
  then phones ++ [candidate] else phones.

(* the state of the scan over the window: the three lists, the name and the
   index of its line *)
Record scan_state := ScanState {
  sc_contact : contact_info;
  sc_name : option str;
  sc_name_index : option nat;
}.

Definition scan_line (st : scan_state) (i : nat) (ln : str) : option scan_state :=
  let c := sc_contact st in
  let emails := foldl append_new (emails c) (re_findall email_re ln) in
  let phones := foldl add_phone (phones c) (re_findall_group phone_re ln) in
  let links := foldl append_new (links c) (re_findall url_re ln) in
  let c' := Contact emails phones links in
  match sc_name st with
  | Some _ => Some (ScanState c' (sc_name st) (sc_name_index st))
  | None =>
      is_name ← _likely_name ln;
      if is_name : bool then Some (ScanState c' (Some (strip ln)) (Some i))
      else Some (ScanState c' None None)
  end.

Fixpoint scan_window (st : scan_state) (i : nat) (block : list str) : option scan_state :=
  match block with
  | [] => Some st
  | ln :: rest => st' ← scan_line st i ln; scan_window st' (S i) rest
  end.

Definition has_contact (ln : str) : bool :=
  bool_decide (is_Some (re_search email_re ln))
  || bool_decide (is_Some (re_search phone_re ln))
  || bool_decide (is_Some (re_search url_re ln)).

(* for j in range(0, name_index + 1): header_lines_set.add(header_block[j]) *)
Fixpoint add_upto (header_block : list str) (js : list nat) (set : gset str)
    : option (gset str) :=
  match js with
  | [] => Some set
  | j :: js' => ln ← header_block !! j; add_upto header_block js' ({[ln]} ∪ set)
  end.

Definition extract_header_info_n (lines : list str) (scan_lines : nat)
    : option (option str * contact_info * list str) :=
  let header_block := firstn scan_lines lines in
  st ← scan_window (ScanState (Contact [] [] []) None None) O header_block;
  set ← match sc_name_index st with
        | Some name_index => add_upto header_block (List.seq O (name_index + 1)) ∅
        | None => Some ∅
        end;
  let header_lines_set : gset str :=
    foldl (fun set ln => if has_contact ln then {[ln]} ∪ set else set) set header_block in
  let remaining := List.filter (fun ln => negb (bool_decide (ln ∈ header_lines_set))) lines in
  Some (sc_name st, sc_contact st, remaining).

(* the default window *)
Definition extract_header_info (lines : list str) := extract_header_info_n lines 15.

End Header.

(** ** [difflib.SequenceMatcher(None, a, b).ratio()]

    The ratio is 2*M/T, T the total length and M the number of characters in
    the matching blocks: the longest common block (the one that starts
    earliest in [a], then earliest in [b], among the longest), and
    recursively the blocks to its left and to its right.  The second
    sequence is always a label of [SECTION_PATTERNS], far below the length
    at which difflib discards popular characters.  The ratio is kept as an
    exact fraction, where Python has its rounding to a float.  The
    comparisons decide alike: rounding is monotone; a label has at most 23
    characters, so a score above 0.5 needs T below 92; and two scores with T
    below 110 that differ are much further apart than a rounding error,
    while with a longer line no score reaches 0.5 and the result is None
    whichever score is the best. *)

Section Difflib.

Fixpoint common_prefix_len (a b : str) : nat :=
  match a, b with
  | x :: a', y :: b' => if x =? y then S (common_prefix_len a' b') else O
  | _, _ => O
  end.

(* best block against the suffixes of [b] from position [j] on, for a fixed
   suffix of [a] at position [i] *)
Fixpoint longest_in_b (sa : str) (i : nat) (b : str) (j : nat) (best : nat * nat * nat)
    : nat * nat * nat :=
  match b with
  | [] => best
  | _ :: b' =>
      let k := common_prefix_len sa b in
      longest_in_b sa i b' (S j) (if (snd best <? k)%nat then (i, j, k) else best)
  end.

Fixpoint longest_in_a (a : str) (i : nat) (b : str) (best : nat * nat * nat)
    : nat * nat * nat :=
  match a with
  | [] => best
  | _ :: a' => longest_in_a a' (S i) b (longest_in_b a i b O best)
  end.

(* find_longest_match over the whole of [a] and [b]: (i, j, k) *)
Definition find_longest_match (a b : str) : nat * nat * nat :=
  longest_in_a a O b (O, O, O).

(* the parts of [a] to the left and to the right of a block are shorter
   than [a]: fuel above the length of [a] is enough
   ([matching_chars_fuel]) *)
Fixpoint matching_chars (fuel : nat) (a b : str) : nat :=
  match fuel with
  | O => O
  | S fuel' =>
      let '(i, j, k) := find_longest_match a b in
      match k with
      | O => O
      | _ => (matching_chars fuel' (firstn i a) (firstn j b) + k
              + matching_chars fuel' (skipn (i + k) a) (skipn (j + k) b))%nat
      end
  end.

Definition ratio (a b : str) : Q :=
  let total := (length a + length b)%nat in
  match total with
  | O => 1%Q
  | _ => (Z.of_nat (2 * matching_chars (S (length a)) a b) # Pos.of_nat total)%Q
  end.

Definition Qgt_bool (x y : Q) : bool := negb (Qle_bool x y).

End Difflib.

(** ** The section segmenter *)

Section Segmenter.
Context {U : Unicode}.

Definition SECTION_PATTERNS : list (str * list str) :=
  [(py "experience", [py "experience"; py "work experience"; py "professional experience";
                      py "employment history"]);
   (py "education", [py "education"; py "academic details"; py "academic background"]);
   (py "projects", [py "projects"; py "academic projects"; py "personal projects"]);
   (py "skills", [py "skills"; py "technical skills"; py "skills & tools"; py "technologies"]);
   (py "certifications", [py "certifications"; py "certificates"]);
   (py "awards", [py "awards"; py "achievements"; py "honors"]);
   (py "summary", [py "summary"; py "profile"; py "about me"])].

(* the pairs (sect, p) in the order the two nested loops visit them *)
Definition section_labels : list (str * str) :=
  flat_map (fun sp => List.map (fun p => (fst sp, p)) (snd sp)) SECTION_PATTERNS.

(* [^a-z0-9\s] *)
Definition cls_not_alnum_space (c : char) : bool :=
  negb (in_range 97 122 c || in_range 48 57 c || u_isspace c).

Definition _normalize_for_matching (s : str) : str :=
  let s := u_lower s in
  let s := re_sub (Cls cls_not_alnum_space) (fun _ => py " ") s in
  strip (re_sub (plus cls_s) (fun _ => py " ") s).

Definition str_eq (a b : str) : bool := bool_decide (a = b).

(* every key of SECTION_PATTERNS is a non-empty string, so that the callers'
   tests [if matched] and [if best[0]] distinguish None from a key *)
Definition _is_section_header (line : str) : option str :=
  let ln := _normalize_for_matching line in
  match List.find (fun sp => contains ln (snd sp)) section_labels with
  | Some (sect, _) => Some sect
  | None =>
      let words := split_ws ln in
      if (8 <? length words)%nat then None
      else
        match List.find (fun sp => Qgt_bool (ratio ln (snd sp)) (78 # 100)) section_labels with
        | Some (sect, _) => Some sect
        | None =>
            if str_eq (strip line) (u_upper (strip line))
               && (1 <=? length (split_ws line))%nat && (length (split_ws line) <=? 6)%nat
            then
              let best :=
                foldl (fun (best : option str * Q) sp =>
                         let score := ratio ln (snd sp) in
                         if Qgt_bool score (snd best) then (Some (fst sp), score) else best)
                      (None, 0%Q) section_labels in
              match fst best with
              | Some sect => if Qgt_bool (snd best) (1 # 2) then Some sect else None
              | None => None
              end
            else None
        end
  end.

(* a dict from section keys to line lists, in insertion order *)
Abbreviation section_map := (list (str * list str)) (only parsing).

Fixpoint dict_get (k : str) (d : section_map) : option (list str) :=
  match d with
  | [] => None
  | (k', v) :: d' => if str_eq k' k then Some v else dict_get k d'
  end.

Definition dict_mem (k : str) (d : section_map) : bool :=
  bool_decide (is_Some (dict_get k d)).

(* sections.setdefault(k, []).append(ln) *)
Fixpoint dict_append (k : str) (ln : str) (d : section_map) : section_map :=
  match d with
  | [] => [(k, [ln])]
  | (k', v) :: d' =>
      if str_eq k' k then (k', v ++ [ln]) :: d' else (k', v) :: dict_append k ln d'
  end.

Definition segment_step (st : str * section_map) (ln : str) : str * section_map :=
  let '(current_section, sections) := st in
  match _is_section_header ln with
  | Some matched =>
      (matched, if dict_mem matched sections then sections else sections ++ [(matched, [])])
  | None => (current_section, dict_append current_section ln sections)
  end.

Definition segment_sections (lines : list str) : section_map :=
  let sections := snd (foldl segment_step (py "other", [(py "other", [])]) lines) in
  List.filter (fun kv => truthy (snd kv)) sections.

End Segmenter.

(** ** Section entry parsers *)

Section Parsers.
Context {U : Unicode}.

Definition month_names : list str :=
  List.map py ["Jan"; "Feb"; "Mar"; "Apr"; "May"; "Jun"; "Jul"; "Aug"; "Sep"; "Sept"; "Oct";
               "Nov"; "Dec"; "January"; "February"; "March"; "April"; "May"; "June"; "July";
               "August"; "September"; "October"; "November"; "December"]%string.

Definition month_re : re := alts (List.map lit_i month_names).
Definition year_re : re := Rep cls_d 4 (Some 4%nat).

(* [-–—to] under re.I *)
Definition cls_range_sep (c : char) : bool :=
  char_in [c_hyphen; c_en_dash; c_em_dash] c || u_ieq c 116 || u_ieq c 111.

(* (?:(?:Jan|...|December)\.?\s+\d{4}|\b\d{4}\b)\s*[-–—to]{1,3}\s*
   (?:Present|Now|Present\.|\b(?:Jan|...|December)\.?\s+\d{4}|\d{4})   with re.I *)
Definition DATE_RE : re :=
  cats [Alt (cats [month_re; opt_cls (N.eqb 46); plus cls_s; year_re])
            (cats [WordB; year_re; WordB]);
        star cls_s; Rep cls_range_sep 1 (Some 3%nat); star cls_s;
        alts [lit_i (py "Present"); lit_i (py "Now");
              Cat (lit_i (py "Present")) (chr 46);
              cats [WordB; month_re; opt_cls (N.eqb 46); plus cls_s; year_re];
              year_re]].

(* any(w[0].isupper() for w in words) *)
Fixpoint any_first_isupper (words : list str) : option bool :=
  match words with
  | [] => Some false
  | w :: ws => b ← first_isupper w; if b : bool then Some true else any_first_isupper ws
  end.

Definition _is_header_like (line : str) : option bool :=
  if negb (truthy line) then Some false
  else if bool_decide (is_Some (re_search DATE_RE line)) then Some true
  else if contains line (py "@") || contains (u_lower line) (py " at ") then Some true
  else
    let words := split_ws line in
    if (1 <=? length words)%nat && (length words <=? 8)%nat
    then if str_eq (strip line) (u_upper (strip line)) then Some true
         else any_first_isupper words
    else Some false.

(* [-–—]|\bto\b with re.I *)
Definition date_split_re : re :=
  Alt (Cls (char_in [c_hyphen; c_en_dash; c_em_dash])) (cats [WordB; lit_i (py "to"); WordB]).

Definition _extract_dates_from_line (line : str) : option (option str * option str) :=
  match re_search DATE_RE line with
  | None => Some (None, None)
  | Some m =>
      let span := group0 m in
      let parts := re_split date_split_re span in
      let parts := List.map (fun p => strip_chars (py ".") (strip p))
                            (List.filter (fun p => truthy (strip p)) parts) in
      if (length parts =? 1)%nat
      then p0 ← parts !! O; Some (Some p0, None)
      else p0 ← parts !! O; p1 ← parts !! 1%nat; Some (Some p0, Some p1)
  end.

Definition bullet_marks : list char :=
  [c_hyphen; c_bullet; 42; c_middot; c_black_circle; c_black_square; c_black_pointer].

(* s.startswith(bullet_marks) *)
Definition starts_with_bullet (s : str) : bool :=
  startswith_any s (List.map (fun c => [c]) bullet_marks).

Record experience_entry := ExperienceEntry {
  e_title : option str;
  e_company : option str;
  e_location : option str;
  e_start_date : option str;
  e_end_date : option str;
  e_bullets : list str;
  e_raw_header : option str;
}.

(* The loops below walk an index i over [lines]; the index is represented
   by the lines from position i on. *)

(* collect additional header lines *)
Fixpoint collect_header (header : str) (lines : list str) : option (str * list str) :=
  match lines with
  | [] => Some (header, [])
  | l :: rest =>
      if starts_with_bullet (strip l) then Some (header, lines)
      else
        hl ← _is_header_like l;
        if hl : bool then Some (header, lines)
        else if (length (split_ws l) <=? 8)%nat
             then collect_header (header ++ py " | " ++ strip l) rest
             else Some (header, lines)
  end.

(* gather bullets *)
Fixpoint collect_bullets (bullets : list str) (lines : list str)
    : option (list str * list str) :=
  match lines with
  | [] => Some (bullets, [])
  | l0 :: rest =>
      hl ← _is_header_like l0;
      if hl : bool then Some (bullets, lines)
      else
        let l := strip l0 in
        match l with
        | [] => collect_bullets bullets rest
        | c :: _ =>
            if char_in bullet_marks c
            then collect_bullets (bullets ++ [strip (lstrip_chars bullet_marks l)]) rest
            else if (length (split_ws l) <=? 30)%nat
                 then collect_bullets (bullets ++ [l]) rest
                 else collect_bullets (bullets ++ [l]) rest
        end
  end.

(* gather until next header *)
Fixpoint collect_buffer (buffer : list str) (lines : list str)
    : option (list str * list str) :=
  match lines with
  | [] => Some (buffer, [])
  | l :: rest =>
      hl ← _is_header_like l;
      if hl : bool then Some (buffer, lines)
      else collect_buffer (buffer ++ [strip l]) rest
  end.

(* \s+at\s+ with re.I *)
Definition at_re : re := cats [plus cls_s; lit_i (py "at"); plus cls_s].

Definition split_title_company (header : str) : option (option str * option str) :=
  if contains header (py "@") then
    let parts := split_once (py "@") header in
    p0 ← parts !! O; p1 ← parts !! 1%nat;
    Some (Some (strip p0), Some (strip p1))
  else if contains (u_lower header) (py " at ") then
    let parts := re_split at_re header in
    if (2 <=? length parts)%nat
    then p0 ← parts !! O; p1 ← parts !! 1%nat; Some (Some (strip p0), Some (strip p1))
    else Some (None, None)
  else
    let parts := List.map strip (List.filter (fun p => truthy (strip p))
                                             (split_sep (py ",") header)) in
    if (2 <=? length parts)%nat
    then p0 ← parts !! O; p1 ← parts !! 1%nat; Some (Some p0, Some p1)
    else Some (Some header, None).

Fixpoint experience_loop (fuel : nat) (lines : list str) (entries : list experience_entry)
    : option (list experience_entry) :=
  match fuel with
  | O => None
  | S fuel' =>
      match lines with
      | [] => Some entries
      | l0 :: rest =>
          let ln := strip l0 in
          hl ← _is_header_like ln;
          if hl : bool then
            '(header, lines1) ← collect_header ln rest;
            '(bullets, lines2) ← collect_bullets [] lines1;
            '(start_date, end_date) ← _extract_dates_from_line header;
            '(title, company) ← split_title_company header;
            experience_loop fuel' lines2
              (entries ++ [ExperienceEntry title company None start_date end_date
                                           bullets (Some header)])
          else
            '(buffer_lines, lines1) ← collect_buffer [] lines;
            experience_loop fuel' lines1
              (if truthy buffer_lines
               then entries ++ [ExperienceEntry None None None None None buffer_lines None]
               else entries)
      end
  end.

(* A round of the outer loop that passes over no line leaves i and the
   entries as they were, and the loop never ends; otherwise one round per
   line, and one more to see the end, is fuel enough.  So [None] is an
   exception or a loop without end. *)
Definition parse_experience_section (lines : list str) : option (list experience_entry) :=
  experience_loop (S (length lines)) lines [].

Record project_entry := ProjectEntry {
  p_name : option str;
  p_role : option str;
  p_tech : list str;
  p_bullets : list str;
  p_raw_header : option str;
}.

(* lines[i].strip() and len(lines[i].split()) <= 10
   and lines[i].strip() == lines[i].strip().upper() *)
Definition is_caps_header (l : str) : bool :=
  truthy (strip l) && (length (split_ws l) <=? 10)%nat
  && str_eq (strip l) (u_upper (strip l)).

(* ln and (len(ln.split()) <= 10 or ln.endswith(":")), ln the stripped line *)
Definition is_project_name (ln : str) : bool :=
  truthy ln && ((length (split_ws ln) <=? 10)%nat || endswith ln (py ":")).

(* [,|] *)
Definition cls_comma_pipe (c : char) : bool := char_in [44; 124] c.

Fixpoint collect_project (bullets tech : list str) (lines : list str)
    : list str * list str * list str :=
  match lines with
  | [] => (bullets, tech, [])
  | l0 :: rest =>
      if is_caps_header l0 then (bullets, tech, lines)
      else
        let l := strip l0 in
        match l with
        | [] => collect_project bullets tech rest
        | c :: _ =>
            if char_in bullet_marks c
            then collect_project (bullets ++ [strip (lstrip_chars bullet_marks l)]) tech rest
            else if contains l (py ",") || contains l (py "|")
                 then collect_project bullets
                        (tech ++ List.map strip
                                   (List.filter (fun t => truthy (strip t))
                                                (re_split (Cls cls_comma_pipe) l)))
                        rest
                 else collect_project (bullets ++ [l]) tech rest
        end
  end.

Fixpoint collect_project_buffer (buffer : list str) (lines : list str)
    : list str * list str :=
  match lines with
  | [] => (buffer, [])
  | l :: rest =>
      if is_caps_header l then (buffer, lines)
      else collect_project_buffer (buffer ++ [strip l]) rest
  end.

Fixpoint projects_loop (fuel : nat) (lines : list str) (entries : list project_entry)
    : option (list project_entry) :=
  match fuel with
  | O => None
  | S fuel' =>
      match lines with
      | [] => Some entries
      | l0 :: rest =>
          let ln := strip l0 in
          if is_project_name ln then
            let name := rstrip_chars (py ":") ln in
            let '(bullets, tech, lines1) := collect_project [] [] rest in
            projects_loop fuel' lines1
              (entries ++ [ProjectEntry (Some name) None tech bullets (Some ln)])
          else
            let '(buffer, lines1) := collect_project_buffer [] lines in
            projects_loop fuel' lines1
              (if truthy buffer
               then entries ++ [ProjectEntry None None [] buffer None]
               else entries)
      end
  end.

Definition parse_projects_section (lines : list str) : option (list project_entry) :=
  projects_loop (S (length lines)) lines [].

Record education_entry := EducationEntry {
  d_degree : option str;
  d_institute : option str;
  d_bullets : list str;
  d_raw_header : option str;
}.

(* capture following short lines as bullets *)
Fixpoint collect_education (bullets : list str) (lines : list str)
    : option (list str * list str) :=
  match lines with
  | [] => Some (bullets, [])
  | l0 :: rest =>
      if (length (split_ws l0) <=? 12)%nat then
        hl ← _is_header_like l0;
        if hl : bool then Some (bullets, lines)
        else
          let l := strip l0 in
          collect_education (if truthy l then bullets ++ [l] else bullets) rest
      else Some (bullets, lines)
  end.

Definition split_degree_institute (header : str) : option (option str * option str) :=
  let parts := List.map strip (List.filter (fun p => truthy (strip p))
                                           (split_sep (py ",") header)) in
  if (2 <=? length parts)%nat
  then p0 ← parts !! O; Some (Some p0, Some (join (py ", ") (skipn 1 parts)))
  else if contains header (py " - ")
       then let p := split_once (py " - ") header in
            p0 ← p !! O; p1 ← p !! 1%nat; Some (Some (strip p0), Some (strip p1))
       else Some (Some header, None).

Fixpoint education_loop (fuel : nat) (lines : list str) (entries : list education_entry)
    : option (list education_entry) :=
  match fuel with
  | O => None
  | S fuel' =>
      match lines with
      | [] => Some entries
      | l0 :: rest =>
          let ln := strip l0 in
          if negb (truthy ln) then education_loop fuel' rest entries
          else
            let header := ln in
            '(bullets, lines1) ← collect_education [] rest;
            '(degree, institute) ← split_degree_institute header;
            education_loop fuel' lines1
              (entries ++ [EducationEntry degree institute bullets (Some header)])
      end
  end.

Definition parse_education_section (lines : list str) : option (list education_entry) :=
  education_loop (S (length lines)) lines [].

(* [,|;\n] *)
Definition cls_skill_sep (c : char) : bool := char_in [44; 124; 59; c_nl] c.

(* the phrases: split, stripped, empty ones dropped, inner white space
   collapsed *)
Definition skill_phrases (lines : list str) : list str :=
  let combined := join (py " | ") lines in
  let parts := List.map strip (List.filter (fun p => truthy (strip p))
                                           (re_split (Cls cls_skill_sep) combined)) in
  List.map (re_sub (plus cls_s) (fun _ => py " ")) parts.

(* keep acronyms uppercase, title-case the rest *)
Definition skill_case (s : str) : str :=
  if str_eq (u_upper s) s then s else u_title s.

(* dedupe preserving order *)
Definition dedupe_step (st : gset str * list str) (s : str) : gset str * list str :=
  let '(seen, out) := st in
  if bool_decide (u_lower s ∈ seen) then (seen, out)
  else ({[u_lower s]} ∪ seen, out ++ [s]).

Definition parse_skills_section (lines : list str) : list str :=
  let skills := List.map skill_case (skill_phrases lines) in
  snd (foldl dedupe_step (∅, []) skills).

(** ** The orchestrator *)

Record parsed_resume := ParsedResume {
  r_raw_text : str;
  r_raw_clean : str;
  r_name : option str;
  r_contact : contact_info;
  r_blocks : list (list str);
  r_lines : list str;
  r_sections : list (str * list str);
  r_experience : list experience_entry;
  r_projects : list project_entry;
  r_education : list education_entry;
  r_skills : list str;
  r_other : list (str * list str);
}.

(* if k in sections: f(sections[k]), else the default *)
Definition parse_if_present {A} (k : str) (sections : list (str * list str))
    (f : list str -> option A) (dflt : A) : option A :=
  if dict_mem k sections then v ← dict_get k sections; f v else Some dflt.

(* for k in (...): if k in sections: other[k] = sections[k] *)
Fixpoint collect_other (ks : list str) (sections other : list (str * list str))
    : option (list (str * list str)) :=
  match ks with
  | [] => Some other
  | k :: ks' =>
      if dict_mem k sections
      then v ← dict_get k sections; collect_other ks' sections (other ++ [(k, v)])
      else collect_other ks' sections other
  end.

Definition parse_resume_text (raw_text : str) : option parsed_resume :=
  let cleaned := _merge_hyphenated_words raw_text in
  let cleaned := _normalize_newlines cleaned in
  let '(blocks, flat_lines) := preprocess_text_into_blocks cleaned in
  let blocks := remove_repeated_header_footer blocks in
  let flat_lines := concat blocks in
  '(name, contact, remaining) ← extract_header_info flat_lines;
  let sections := segment_sections remaining in
  experience ← parse_if_present (py "experience") sections parse_experience_section [];
  projects ← parse_if_present (py "projects") sections parse_projects_section [];
  education ← parse_if_present (py "education") sections parse_education_section [];
  skills ← parse_if_present (py "skills") sections (fun v => Some (parse_skills_section v)) [];
  other ← collect_other [py "certifications"; py "awards"; py "summary"] sections [];
  Some (ParsedResume raw_text cleaned name contact blocks flat_lines sections
                     experience projects education skills other).

End Parsers.

(** ** Text cleaning ([SCV/utils/nlp_utils.py], [SCV/utils/nlp_utils_simple.py]) *)

Section Cleaning.
Context {U : Unicode}.

(* the same function in both modules *)
Definition clean_text (text : str) : str :=
  let text := replace_char c_cr c_nl text in
  let text := re_sub blank_run_re (fun _ => [c_nl; c_nl]) text in
  strip text.

End Cleaning.

(** ** Role detection and the code detector ([SCV/matcher.py]) *)

Section Matcher.
Context {U : Unicode}.

Definition ROLE_SKILL_MAP : list (str * list str) :=
  [(py "software engineer",
    List.map py ["python"; "java"; "javascript"; "typescript"; "c++"; "c#"; "ruby"; "go"; "rust";
                 "react"; "angular"; "vue"; "node"; "nodejs"; "express"; "django"; "flask";
                 "spring"; "git"; "api"; "rest"; "graphql"; "sql"; "mongodb"; "postgresql";
                 "mysql"]%string);
   (py "frontend developer",
    List.map py ["javascript"; "typescript"; "react"; "angular"; "vue"; "html"; "css"; "sass";
                 "webpack"; "babel"; "redux"; "nextjs"; "nuxt"; "tailwind"; "bootstrap"]%string);
   (py "backend developer",
    List.map py ["python"; "java"; "node"; "nodejs"; "go"; "rust"; "c#"; "php";
                 "django"; "flask"; "spring"; "express"; "fastapi"; "api"; "rest"; "graphql";
                 "sql"; "postgresql"; "mysql"; "mongodb"; "redis"; "microservices"]%string);
   (py "full stack developer",
    List.map py ["javascript"; "typescript"; "python"; "java"; "react"; "angular"; "vue";
                 "node"; "nodejs"; "django"; "flask"; "spring"; "express"; "sql"; "mongodb";
                 "api"; "rest"; "docker"; "git"]%string);
   (py "data scientist",
    List.map py ["python"; "r"; "sql"; "statistics"; "machine learning"; "ml"; "ai";
                 "deep learning"; "tensorflow"; "pytorch"; "keras"; "pandas"; "numpy"; "scikit";
                 "matplotlib"; "seaborn"; "jupyter"; "analysis"; "modeling";
                 "algorithms"]%string);
   (py "machine learning engineer",
    List.map py ["python"; "tensorflow"; "pytorch"; "keras"; "scikit"; "ml"; "ai";
                 "deep learning"; "nlp"; "computer vision"; "models"; "algorithms";
                 "pandas"; "numpy"; "cloud"; "aws"; "gcp"; "azure"]%string);
   (py "data engineer",
    List.map py ["python"; "java"; "scala"; "sql"; "spark"; "hadoop"; "kafka"; "airflow";
                 "etl"; "data pipeline"; "big data"; "aws"; "gcp"; "azure"; "snowflake";
                 "redshift"; "databricks"]%string);
   (py "devops engineer",
    List.map py ["docker"; "kubernetes"; "aws"; "gcp"; "azure"; "ci/cd"; "jenkins"; "gitlab";
                 "terraform"; "ansible"; "linux"; "bash"; "python"; "monitoring"; "prometheus";
                 "grafana"; "deployment"; "automation"]%string);
   (py "cloud engineer",
    List.map py ["aws"; "gcp"; "azure"; "cloud"; "docker"; "kubernetes"; "terraform";
                 "serverless"; "lambda"; "s3"; "ec2"; "networking"; "security";
                 "devops"]%string);
   (py "mobile developer",
    List.map py ["ios"; "android"; "swift"; "kotlin"; "java"; "react native"; "flutter"; "dart";
                 "mobile"; "app"; "xcode"; "android studio"]%string);
   (py "qa engineer",
    List.map py ["testing"; "automation"; "selenium"; "pytest"; "junit"; "test"; "qa";
                 "quality"; "cypress"; "jenkins"; "ci/cd"; "bug"; "debug"]%string)].

(* sum(1 for skill in skills if skill in text_lower) *)
Definition match_count (text_lower : str) (skills : list str) : nat :=
  length (List.filter (contains text_lower) skills).

(* the dict role_matches, in insertion order: the roles with a positive count *)
Definition role_matches (text_lower : str) : list (str * nat) :=
  List.filter (fun rc => (0 <? snd rc)%nat)
              (List.map (fun rs => (fst rs, match_count text_lower (snd rs))) ROLE_SKILL_MAP).

(* sorted(items, key=lambda x: x[1], reverse=True): the sort is stable, items
   with the same count keep their order; an item is put before the first
   item of the sorted rest whose count is not greater than its own *)
Fixpoint insert_desc (x : str * nat) (l : list (str * nat)) : list (str * nat) :=
  match l with
  | [] => [x]
  | y :: l' => if (snd x <? snd y)%nat then y :: insert_desc x l' else x :: l
  end.

Definition sorted_desc (l : list (str * nat)) : list (str * nat) :=
  List.fold_right insert_desc [] l.

Definition detect_roles_from_skills (text : str) : list str :=
  let text_lower := u_lower text in
  let sorted_roles := sorted_desc (role_matches text_lower) in
  List.map fst (List.filter (fun rc => (2 <=? snd rc)%nat) sorted_roles).

(* f"{text} {role_text}" *)
Definition enhance_text_with_roles (text : str) (detected_roles : list str) : str :=
  let role_text := join (py " ") detected_roles in
  text ++ py " " ++ role_text.

(* the ten signatures; they have no "^" and no "$", so that re.MULTILINE
   changes nothing *)
Definition code_patterns : list re :=
  [ (* \bdef\s+\w+\( *)
    cats [WordB; lit (py "def"); plus cls_s; plus cls_w; chr 40];
    (* \bclass\s+\w+: *)
    cats [WordB; lit (py "class"); plus cls_s; plus cls_w; chr 58];
    (* \bimport\s+\w+ *)
    cats [WordB; lit (py "import"); plus cls_s; plus cls_w];
    (* \bfrom\s+\w+\s+import *)
    cats [WordB; lit (py "from"); plus cls_s; plus cls_w; plus cls_s; lit (py "import")];
    (* \breturn\b *)
    cats [WordB; lit (py "return"); WordB];
    (* \bprint\s*\( *)
    cats [WordB; lit (py "print"); star cls_s; chr 40];
    (* \bfor\s+\w+\s+in\b *)
    cats [WordB; lit (py "for"); plus cls_s; plus cls_w; plus cls_s; lit (py "in"); WordB];
    (* \bwhile\s+\w+ *)
    cats [WordB; lit (py "while"); plus cls_s; plus cls_w];
    (* \btry:\b *)
    cats [WordB; lit (py "try:"); WordB];
    (* \bexcept\b *)
    cats [WordB; lit (py "except"); WordB] ].

Definition looks_like_code (text : str) : bool :=
  let count :=
    length (List.filter (fun p => bool_decide (is_Some (re_search p text))) code_patterns) in
  (3 <=? count)%nat.

End Matcher.

(** ** The rule-based score ([SCV/ats_scorer.py])

    The scores are numbers: whole numbers, and for the section headings the
    float (found / 5) * 15, which for each of the six possible counts is the
    whole number 3 * found, so that every sum below is exact and
    round(section_score, 1) is the score itself.  They are kept as
    fractions. *)

Section Scorer.
Context {U : Unicode}.

(* the keys of parsed_data the scorer reads; a key may be missing *)
Record parsed_data := ParsedData {
  pd_contact : option (list (str * list str));
  pd_sections : option (list (str * list str));
  pd_extracted_skills : option (list str);
}.

(* if contact.get(k): the key is there and its list is not empty *)
Definition get_truthy (k : str) (contact : list (str * list str)) : bool :=
  match dict_get k contact with
  | Some v => truthy v
  | None => false
  end.

(* [•\-\*●○▪] *)
Definition cls_bullet (c : char) : bool :=
  char_in [c_bullet; c_hyphen; 42; c_black_circle; 9675; c_black_square] c.

Definition action_verbs : list str :=
  List.map py ["developed"; "built"; "designed"; "achieved"; "created"; "led"; "managed";
               "optimized"; "implemented"; "analyzed"; "engineered"; "enhanced"; "improved";
               "coordinated"; "executed"; "deployed"; "established"; "delivered"]%string.

Definition standard_sections : list str :=
  List.map py ["experience"; "education"; "skills"; "summary"; "projects"]%string.

Definition num (n : nat) : Q := inject_Z (Z.of_nat n).

Definition calculate_rule_based_score (resume_text : str) (parsed_data : parsed_data)
    : Q * list (str * list (str * Q)) :=
  let score := 0%Q in
  (* 1. contact information *)
  let contact := default [] (pd_contact parsed_data) in
  let contact_score :=
    ((if get_truthy (py "emails") contact then 5 else 0)
     + (if get_truthy (py "phones") contact then 3 else 0)
     + (if get_truthy (py "links") contact then 2 else 0))%Q in
  let score := (score + contact_score)%Q in
  (* 2. standard section headings *)
  let sections := default [] (pd_sections parsed_data) in
  let found_sections := length (List.filter (fun s => dict_mem s sections) standard_sections) in
  let section_score := ((num found_sections / num (length standard_sections)) * 15)%Q in
  let score := (score + section_score)%Q in
  (* 3. skills detection *)
  let skills := default [] (pd_extracted_skills parsed_data) in
  let skill_count := length skills in
  let skills_score :=
    (if (10 <=? skill_count)%nat then 15
     else if (5 <=? skill_count)%nat then 10
     else if (3 <=? skill_count)%nat then 5 else 0)%Q in
  let score := (score + skills_score)%Q in
  (* 4. resume length *)
  let word_count := length (split_ws resume_text) in
  let length_score :=
    (if (400 <=? word_count)%nat && (word_count <=? 800)%nat then 10
     else if (300 <=? word_count)%nat && (word_count <=? 1000)%nat then 7 else 3)%Q in
  let score := (score + length_score)%Q in
  (* 5. bullet points *)
  let bullet_count := length (re_findall (Cls cls_bullet) resume_text) in
  let bullet_score :=
    (if (10 <=? bullet_count)%nat then 10
     else if (5 <=? bullet_count)%nat then 7
     else if (3 <=? bullet_count)%nat then 4 else 0)%Q in
  let score := (score + bullet_score)%Q in
  (* 6. action verbs *)
  let text_lower := u_lower resume_text in
  let verb_count := length (List.filter (contains text_lower) action_verbs) in
  let verb_score :=
    (if (8 <=? verb_count)%nat then 10
     else if (5 <=? verb_count)%nat then 7
     else if (3 <=? verb_count)%nat then 4 else 0)%Q in
  let score := (score + verb_score)%Q in
  (score,
   [(py "contact_info", [(py "score", contact_score); (py "max", 10%Q)]);
    (py "standard_sections", [(py "score", section_score); (py "max", 15%Q)]);
    (py "skills_detection", [(py "score", skills_score); (py "max", 15%Q);
                             (py "count", num skill_count)]);
    (py "resume_length", [(py "score", length_score); (py "max", 10%Q);
                          (py "word_count", num word_count)]);
    (py "bullet_points", [(py "score", bullet_score); (py "max", 10%Q);
                          (py "count", num bullet_count)]);
    (py "action_verbs", [(py "score", verb_score); (py "max", 10%Q);
                         (py "count", num verb_count)])]).

End Scorer.

(** ** The tables on the ASCII range *)

Local Open Scope N_scope.

Definition ascii_isspace (c : char) : bool :=
  in_range 9 13 c || in_range 28 32 c.
Definition ascii_isdecimal (c : char) : bool := in_range 48 57 c.
Definition ascii_isupper (c : char) : bool := in_range 65 90 c.
Definition ascii_islower (c : char) : bool := in_range 97 122 c.
Definition ascii_isalnum (c : char) : bool :=
  ascii_isdecimal c || ascii_isupper c || ascii_islower c.
Definition ascii_lower_char (c : char) : char := if ascii_isupper c then c + 32 else c.
Definition ascii_upper_char (c : char) : char := if ascii_islower c then c - 32 else c.
Definition ascii_ieq (x c : char) : bool := ascii_lower_char x =? ascii_lower_char c.
Fixpoint ascii_title_aux (prev_cased : bool) (s : str) : str :=
  match s with
  | [] => []
  | c :: t =>
      (if prev_cased then ascii_lower_char c else ascii_upper_char c)
        :: ascii_title_aux (ascii_isupper c || ascii_islower c) t
  end.

Definition ascii_tables : Unicode.
Proof.
  refine {|
    u_isspace := ascii_isspace;
    u_isalnum := ascii_isalnum;
    u_isdecimal := ascii_isdecimal;
    u_isupper := ascii_isupper;
    u_ieq := ascii_ieq;
    u_upper := List.map ascii_upper_char;
    u_lower := List.map ascii_lower_char;
    u_title := ascii_title_aux false;
  |}.
  - unfold ascii_isdecimal, ascii_isspace, in_range. intros c H.
    apply andb_prop in H. destruct H as [H _]. apply N.leb_le in H.
    apply orb_false_intro; apply andb_false_iff; right; apply N.leb_gt; lia.
  - unfold ascii_isdecimal, ascii_ieq, ascii_lower_char, ascii_isupper, in_range.
    intros c x H E. apply andb_prop in H. destruct H as [H1 H2].
    apply N.leb_le in H1, H2.
    destruct (N.leb_spec 65 c), (N.leb_spec c 90), (N.leb_spec 65 x), (N.leb_spec x 90);
      simpl in E; apply N.eqb_eq in E; lia.
  - unfold char_in. simpl. intros c H.
    repeat (apply orb_prop in H; destruct H as [H|H]; [apply N.eqb_eq in H; subst c; reflexivity|]).
    discriminate.
Defined.

(** * Notions used in the statements and in the proofs *)

Section Notions.
Context {U : Unicode}.

(* length of the longest prefix in a class *)
Fixpoint span_len (p : char -> bool) (s : str) : nat :=
  match s with
  | c :: t => if p c then S (span_len p t) else O
  | [] => O
  end.

(* what re.sub builds from the matches a scan has found *)
Definition render (repl : match_obj -> str) (sc : list (str * match_obj) * str) : str :=
  concat (List.map (fun gm => fst gm ++ repl (snd gm)) (fst sc)) ++ snd sc.

(* the pattern matches at no position of the text after the cursor *)
Definition no_match_in (r : re) (bef aft : str) : Prop :=
  forall pre post, aft = pre ++ post -> match_at r (rev pre ++ bef) post = None.

(* a block (i, j, k) that is empty or ends within the first n characters *)
Definition block_within (n : nat) (best : nat * nat * nat) : Prop :=
  snd best = O \/ (fst (fst best) + snd best <= n)%nat.

(* the class of the blank-run pattern *)
Definition is_nl : char -> bool := N.eqb c_nl.

(* what re.sub(r"\n{3,}", "\n\n", .) leaves of a text, [skip] characters of
   which belong to a run that has been replaced already *)
Fixpoint collapse (skip : nat) (s : str) : str :=
  match skip, s with
  | S k, _ :: t => collapse k t
  | S _, [] => []
  | O, [] => []
  | O, c :: t =>
      if (3 <=? span_len is_nl s)%nat
      then c_nl :: c_nl :: collapse (Nat.pred (span_len is_nl s)) t
      else c :: collapse O t
  end.

(* no three line breaks in a row *)
Fixpoint short_runs (s : str) : bool :=
  match s with
  | [] => true
  | _ :: t => (span_len is_nl s <? 3)%nat && short_runs t
  end.

(* the line is recognised as a section heading *)
Definition is_heading (ln : str) : bool := bool_decide (is_Some (_is_section_header ln)).

(* the values of a section map, concatenated in the order of the keys *)
Definition values (d : list (str * list str)) : list str := concat (List.map snd d).

(* deduplicated case-insensitively, first-seen order: the first phrase, then
   the rest deduplicated, without the phrases that are the first one up to
   case *)
Fixpoint dedupe_ci (l : list str) : list str :=
  match l with
  | [] => []
  | s :: t =>
      s :: List.filter (fun x => negb (str_eq (u_lower x) (u_lower s))) (dedupe_ci t)
  end.

(* looks like a name *)
Definition likely (ln : str) : bool := bool_decide (_likely_name ln = Some true).

(* position of the first line of the window that looks like a name *)
Fixpoint first_name_index (block : list str) : option nat :=
  match block with
  | [] => None
  | ln :: rest => if likely ln then Some O else S <$> first_name_index rest
  end.

(* the texts that are removed: those of the window lines up to the name
   line, and those of the window lines in which a contact pattern matches *)
Definition header_text (lines : list str) (ln : str) : bool :=
  let window := firstn 15 lines in
  match first_name_index window with
  | Some i => bool_decide (ln ∈ firstn (S i) window)
  | None => false
  end
  || (bool_decide (ln ∈ window) && has_contact ln).

(* the lines up to the next upper-case short line, and the lines from it on *)
Fixpoint split_at_caps (lines : list str) : list str * list str :=
  match lines with
  | [] => ([], [])
  | l :: rest =>
      if is_caps_header l then ([], lines)
      else let '(body, r) := split_at_caps rest in (l :: body, r)
  end.

(* the entry made of a header line and the lines collected under it *)
Definition project_of_chunk (chunk : list str) : project_entry :=
  match chunk with
  | [] => ProjectEntry None None [] [] None
  | l0 :: body =>
      let ln := strip l0 in
      if is_project_name ln
      then let '(bullets, tech, _) := collect_project [] [] body in
           ProjectEntry (Some (rstrip_chars (py ":") ln)) None tech bullets (Some ln)
      else ProjectEntry None None [] (List.map strip chunk) None
  end.

(* the entries are those of consecutive chunks of the lines, and no line
   collected under a chunk's first line is a [stop] line *)
Definition chunked_by (stop : str -> bool) (lines : list str) (entries : list project_entry)
    : Prop :=
  exists chunks,
    concat chunks = lines
    /\ entries = List.map project_of_chunk chunks
    /\ Forall (fun c : list str => c <> [] /\ Forall (fun l => stop l = false) (tl c)) chunks.

(* every chunk after the first begins with a [stop] line *)
Definition starts_at (stop : str -> bool) (chunks : list (list str)) : Prop :=
  Forall (fun c : list str => match c with l :: _ => stop l = true | [] => False end) chunks.

(* a Block of the data model: not empty, its lines trimmed *)
Definition trimmed (ln : str) : Prop := strip ln = ln.
Definition well_formed_blocks (blocks : list (list str)) : Prop :=
  Forall (fun b : list str => b <> [] /\ Forall trimmed b) blocks.

(* at most 6 words *)
Definition short_line (k : str) : bool := (word_count k <=? 6)%nat.
(* in how many blocks the line appears *)
Definition blocks_with (k : str) (blocks : list (list str)) : nat :=
  length (List.filter (fun b : list str => bool_decide (k ∈ b)) blocks).
(* a short line that appears in more than one block *)
Definition candidate (blocks : list (list str)) (k : str) : bool :=
  short_line k && (2 <=? blocks_with k blocks)%nat.
(* how often the line occurs in a list of lines *)
Definition occurrences (k : str) (l : list str) : nat :=
  length (List.filter (fun x => str_eq x k) l).

(* the lines of a block without the candidates that occurred earlier in
   the document, [earlier] being the lines before the block *)
Fixpoint keep_first (cand : str -> bool) (earlier : gset str) (block : list str) : list str :=
  match block with
  | [] => []
  | ln :: rest =>
      if cand ln && bool_decide (ln ∈ earlier)
      then keep_first cand ({[ln]} ∪ earlier) rest
      else ln :: keep_first cand ({[ln]} ∪ earlier) rest
  end.

(* block by block, a block left without lines dropped *)
Fixpoint filter_blocks (cand : str -> bool) (earlier : gset str) (blocks : list (list str))
    : list (list str) :=
  match blocks with
  | [] => []
  | b :: bs =>
      (if truthy (keep_first cand earlier b) then [keep_first cand earlier b] else [])
        ++ filter_blocks cand (list_to_set b ∪ earlier) bs
  end.

(* every character class of the pattern lies within P *)
Inductive classes_within (P : char -> Prop) : re -> Prop :=
| cw_eps : classes_within P Eps
| cw_cls p : (forall c, p c = true -> P c) -> classes_within P (Cls p)
| cw_cat a b : classes_within P a -> classes_within P b -> classes_within P (Cat a b)
| cw_alt a b : classes_within P a -> classes_within P b -> classes_within P (Alt a b)
| cw_opt a : classes_within P a -> classes_within P (Opt a)
| cw_rep p lo hi : (forall c, p c = true -> P c) -> classes_within P (Rep p lo hi)
| cw_grp n a : classes_within P a -> classes_within P (Grp n a)
| cw_wordb : classes_within P WordB
| cw_bol : classes_within P Bol
| cw_eol : classes_within P Eol.

(* every match of the pattern passes over a character in P *)
Inductive must_consume (P : char -> Prop) : re -> Prop :=
| mc_cls p : (forall c, p c = true -> P c) -> must_consume P (Cls p)
| mc_cat_l a b : must_consume P a -> must_consume P (Cat a b)
| mc_cat_r a b : must_consume P b -> must_consume P (Cat a b)
| mc_alt a b : must_consume P a -> must_consume P b -> must_consume P (Alt a b)
| mc_rep p lo hi : (1 <= lo)%nat -> (forall c, p c = true -> P c) -> must_consume P (Rep p lo hi)
| mc_grp n a : must_consume P a -> must_consume P (Grp n a).

(* a digit, and a character the split pattern of a date range can match *)
Definition is_decimal (c : char) : Prop := u_isdecimal c = true.
Definition is_date_separator (c : char) : Prop :=
  char_in [c_hyphen; c_en_dash; c_em_dash] c = true \/ u_ieq c 116 = true \/ u_ieq c 111 = true.

(* the lines the parser works on *)
Definition working_lines (raw_text : str) : list str :=
  concat (remove_repeated_header_footer
            (fst (preprocess_text_into_blocks (normalize raw_text)))).

(* a window line without a contact pattern that does not look like a name *)
Definition quiet (ln : str) : Prop := has_contact ln = false /\ likely ln = false.

(* an upper bound on the length of the text a pattern can pass over *)
Fixpoint max_len (r : re) : option nat :=
  match r with
  | Eps | WordB | Bol | Eol => Some O
  | Cls _ => Some 1%nat
  | Cat a b =>
      match max_len a, max_len b with
      | Some i, Some j => Some (i + j)%nat
      | _, _ => None
      end
  | Alt a b =>
      match max_len a, max_len b with
      | Some i, Some j => Some (Nat.max i j)
      | _, _ => None
      end
  | Opt a => max_len a
  | Rep _ _ hi => hi
  | Grp _ a => max_len a
  end.

(* every group numbered n captures at most k characters *)
Fixpoint groups_bounded (n k : nat) (r : re) : bool :=
  match r with
  | Eps | Cls _ | Rep _ _ _ | WordB | Bol | Eol => true
  | Cat a b | Alt a b => groups_bounded n k a && groups_bounded n k b
  | Opt a => groups_bounded n k a
  | Grp m a =>
      groups_bounded n k a
      && (if (m =? n)%nat
          then match max_len a with Some j => (j <=? k)%nat | None => false end
          else true)
  end.

(* group n, where captured, holds at most k characters *)
Definition group_short (n k : nat) (st : mstate) : Prop :=
  forall w, assoc_nat n (m_groups st) = Some w -> (length w <= k)%nat.


(* a line of a block: not empty, without white space around it, on one line *)
Definition proper_line (ln : str) : Prop :=
  ln <> [] /\ strip ln = ln /\ Forall (fun c => is_linebreak c = false) ln.

(* the section a line is filed under: the key of the last heading before it,
   "other" before the first heading; headings themselves are left out *)
Fixpoint labelled (current_section : str) (lines : list str) : list (str * str) :=
  match lines with
  | [] => []
  | ln :: rest =>
      match _is_section_header ln with
      | Some matched => labelled matched rest
      | None => (current_section, ln) :: labelled current_section rest
      end
  end.

(* the lines filed under one key, in their order *)
Definition lines_of (k : str) (ls : list (str * str)) : list str :=
  List.map snd (List.filter (fun sl => str_eq (fst sl) k) ls).

Definition section_keys : list str := List.map fst SECTION_PATTERNS.

(* the invariant of the loop of segment_sections *)
Definition keys_ok (st : str * list (str * list str)) : Prop :=
  In (fst st) (py "other" :: section_keys)
  /\ NoDup (List.map fst (snd st))
  /\ Forall (fun k => In k (py "other" :: section_keys)) (List.map fst (snd st)).

(* the texts a pattern finds in the lines of the window, one after the other *)
Definition findings (r : re) (block : list str) : list str :=
  concat (List.map (re_findall r) block).

(* the lines with their white space stripped, the empty ones left out *)
Definition stripped_lines (lines : list str) : list str :=
  List.filter truthy (List.map strip lines).

(* the lines an education entry is made of: its header, then its bullets *)
Definition entry_lines (e : education_entry) : list str :=
  match d_raw_header e with
  | Some h => h :: d_bullets e
  | None => d_bullets e
  end.

(* the number of skills of a role that the text mentions *)
Definition role_count (text_lower : str) (role : str) : nat :=
  match List.find (fun rs => str_eq (fst rs) role) ROLE_SKILL_MAP with
  | Some rs => match_count text_lower (snd rs)
  | None => O
  end.

Definition role_names : list str := List.map fst ROLE_SKILL_MAP.

(* the literal each signature begins with *)
Definition code_keywords : list str :=
  List.map py ["def"; "class"; "import"; "from"; "return"; "print"; "for"; "while"; "try:";
               "except"]%string.

(* the dict upload_resume hands to the scorer, as far as the scorer reads
   it: the record of the parser, to which the key extracted_skills has been
   added *)
Definition uploaded_data (r : parsed_resume) (extracted_skills : list str) : parsed_data :=
  ParsedData (Some [(py "emails", emails (r_contact r));
                    (py "phones", phones (r_contact r));
                    (py "links", links (r_contact r))])
             (Some (r_sections r))
             (Some extracted_skills).

(* the score of one check, read from the breakdown *)
Definition item_score (name : str) (breakdown : list (str * list (str * Q))) : Q :=
  match List.find (fun kv => str_eq (fst kv) name) breakdown with
  | Some (_, item) =>
      match List.find (fun kv => str_eq (fst kv) (py "score")) item with
      | Some (_, q) => q
      | None => 0%Q
      end
  | None => 0%Q
  end.

(* an item of a tech list: not empty, without white space around it, and
   without the separators "," and "|" *)
Definition tech_item (t : str) : Prop :=
  t <> [] /\ strip t = t /\ ~ In 44 t /\ ~ In 124 t.

End Notions.

(** Inputs and outcomes of the claims *)

(* "\n" *)
Definition nl_str : str := [c_nl].


(* "a-<carriage return>b": the break appears with the newline step *)
Definition carriage_return_break : str :=
  py "a-" ++ [c_cr] ++ py "b".


(* a heading and two lines under it *)
Definition education_block : list str :=
  [py "EDUCATION"; py "B.Sc. in Physics"; py "2015 - 2019"].

(* the labels of the key "education" in SECTION_PATTERNS *)
Definition education_labels : list str :=
  [py "education"; py "academic details"; py "academic background"].

(* sections["education"] is the two lines, and the heading is in no section *)
Definition heading_round_trip {U : Unicode} (h l1 l2 : str) : Prop :=
  dict_get (py "education") (segment_sections [h; l1; l2]) = Some [l1; l2]
  /\ Forall (fun kv : str * list str => ~ In h (snd kv)) (segment_sections [h; l1; l2]).

(* the scenario of the experience parser *)
Definition experience_scenario : list str :=
  [py "Senior Engineer at Acme Corp"; py "Jan 2020 - Present"; py "- Built a thing";
   py "- Shipped another thing"].

(* the one entry the scenario is said to yield *)
Definition one_entry_expected (res : option (list experience_entry)) : Prop :=
  exists e, res = Some [e]
    /\ e_title e = Some (py "Senior Engineer") /\ e_company e = Some (py "Acme Corp")
    /\ e_start_date e = Some (py "Jan 2020") /\ e_end_date e = Some (py "Present")
    /\ e_bullets e = [py "Built a thing"; py "Shipped another thing"].

(* the name, fourteen lines of body, and the name again as sixteenth line *)
Definition name_repeated : list str :=
  py "John Doe" :: repeat (py "worked on internal tools") 14 ++ [py "John Doe"].

(* the lines from position 15 on come back unchanged *)
Definition later_lines_kept {U : Unicode} (lines : list str) : Prop :=
  exists name contact kept,
    extract_header_info lines = Some (name, contact, kept ++ skipn 15 lines).

(* a name, an email address, thirteen lines of body, and another name as
   sixteenth line *)
Definition two_names : list str :=
  py "John Doe" :: py "john.doe@example.com" :: repeat (py "worked on internal tools") 13
    ++ [py "Jane Roe"].

(* a project name and a short line of description *)
Definition tool_project : list str :=
  [py "Resume Parser"; py "parses resumes into JSON"].

(* three blocks with a running header *)
Definition three_pages : list (list str) :=
  [[py "John Doe"; py "Page 1"; py "Built the billing service"];
   [py "John Doe"; py "Shipped it"; py "John Doe"];
   [py "John Doe"]].

(* the outcome the claim describes *)
Definition degrades_to_other {U : Unicode} (s : str) : Prop :=
  exists r, parse_resume_text s = Some r
    /\ r_name r = None /\ r_contact r = Contact [] [] []
    /\ r_sections r = [(py "other", r_lines r)]
    /\ r_experience r = [] /\ r_projects r = [] /\ r_education r = [] /\ r_skills r = [].

(* two lines without heading, contact pattern or name *)
Definition plain_text : str :=
  py "hello world" ++ nl_str ++ py "some more text to read".

(** Inputs of the further properties *)

(* a sentence of the body of a resume *)
Definition experience_sentence : str :=
  py "Over five years of experience in teaching and education management at several schools".

(* a job, its place and a bullet *)
Definition job_lines : list str :=
  [py "Data Analyst, Initech"; py "Austin"; py "- Cleaned the sales data"].

(* two pages with the same footer *)
Definition two_pages : list (list str) :=
  [[py "Summary of qualifications"; py "Page footer"];
   [py "Page footer"; py "References on request"]].

(* a header, its dates and two bullets that begin with a capital *)
Definition headers_only : list str :=
  [py "Lead Developer at Globex"; py "2018 - 2021"; py "- Led the migration";
   py "- Trained new hires"].

(* a sentence of nine words without a label *)
Definition plain_sentence : str :=
  py "I like to read books about birds and trees".

(** * Properties *)

(** ** Lists *)

Lemma filter_sublist {A} (f : A -> bool) (l : list A) : sublist (List.filter f l) l.
Proof.
  induction l as [|x l IH]; simpl; [constructor|].
  destruct (f x); [apply sublist_skip|apply sublist_cons]; exact IH.
Qed.

Lemma filter_all {A} (f : A -> bool) (l : list A) :
  Forall (fun x => f x = true) l -> List.filter f l = l.
Proof.
  induction 1 as [|x l Hx _ IH]; simpl; [reflexivity|]. rewrite Hx, IH. reflexivity.
Qed.

(** ** The matcher *)

Section MatcherFacts.
Context {U : Unicode}.

Lemma flat_map_nil {A B} (f : A -> list B) (l : list A) :
  (forall x, In x l -> f x = []) -> flat_map f l = [].
Proof.
  induction l as [|x l IH]; simpl; intros H; [reflexivity|].
  rewrite (H x) by (left; reflexivity). apply IH. intros y Hy. apply H. right. exact Hy.
Qed.

Lemma rmatch_cat a b st : rmatch (Cat a b) st = flat_map (rmatch b) (rmatch a st).
Proof. reflexivity. Qed.

(** Every result of [rep_run] is reached by consuming a prefix in the
    class. *)
Lemma rep_run_consumes p lo hi n bef aft b a :
  In (b, a) (rep_run p lo hi n bef aft) ->
  exists w, b = rev w ++ bef /\ aft = w ++ a /\ forallb p w = true /\ (lo <= n + length w)%nat.
Proof.
  revert n bef. induction aft as [|c t IH]; intros n bef; simpl.
  - destruct (lo <=? n)%nat eqn:E; simpl; [|tauto].
    intros [H|[]]. inversion H; subst. exists []. simpl.
    apply Nat.leb_le in E. repeat split; try reflexivity. lia.
  - assert (Hhere : In (b, a) (if (lo <=? n)%nat then [(bef, c :: t)] else []) ->
                    exists w, b = rev w ++ bef /\ c :: t = w ++ a /\ forallb p w = true
                              /\ (lo <= n + length w)%nat).
    { destruct (lo <=? n)%nat eqn:E; simpl; [|tauto].
      intros [H|[]]. inversion H; subst. exists []. simpl.
      apply Nat.leb_le in E. repeat split; try reflexivity. lia. }
    destruct (p c && _) eqn:Ec; [|exact Hhere].
    intros H. apply in_app_or in H. destruct H as [H|H]; [|exact (Hhere H)].
    apply IH in H. destruct H as (w & -> & -> & Hw & Hlo).
    apply andb_prop in Ec. destruct Ec as [Ec _].
    exists (c :: w). simpl. rewrite Ec, Hw. rewrite <- app_assoc. simpl.
    repeat split; try reflexivity. lia.
Qed.

(** A match consumes a prefix of the text after the cursor. *)
Lemma rmatch_consumes r : forall st st',
  In st' (rmatch r st) ->
  exists w, m_before st' = rev w ++ m_before st /\ m_after st = w ++ m_after st'.
Proof.
  induction r as [|p|a IHa b IHb|a IHa b IHb|a IHa|p lo hi|n a IHa| | |]; intros st st'; simpl.
  - intros [<-|[]]. exists []. split; reflexivity.
  - destruct (m_after st) as [|c t] eqn:E; simpl; [tauto|].
    destruct (p c); simpl; [|tauto]. intros [<-|[]]. exists [c]. split; reflexivity.
  - intros H. apply in_flat_map in H. destruct H as (st1 & H1 & H2).
    apply IHa in H1. apply IHb in H2.
    destruct H1 as (w1 & Hb1 & Ha1). destruct H2 as (w2 & Hb2 & Ha2).
    exists (w1 ++ w2). rewrite Hb2, Hb1, Ha1, Ha2, rev_app_distr, <- !app_assoc.
    split; reflexivity.
  - intros H. apply in_app_or in H. destruct H as [H|H]; [apply IHa|apply IHb]; exact H.
  - intros H. apply in_app_or in H. destruct H as [H|[<-|[]]]; [apply IHa; exact H|].
    exists []. split; reflexivity.
  - intros H. apply in_map_iff in H. destruct H as ([b a] & <- & H).
    apply rep_run_consumes in H. destruct H as (w & -> & -> & _). exists w. split; reflexivity.
  - intros H. apply in_map_iff in H. destruct H as (st1 & <- & H). simpl. apply IHa. exact H.
  - intros H. assert (st' = st) as ->; [|exists []; split; reflexivity].
    destruct (at_word_boundary st); simpl in H; [|tauto]. destruct H as [H|[]]. congruence.
  - intros H. assert (st' = st) as ->; [|exists []; split; reflexivity].
    destruct (m_before st); simpl in H; [|tauto]. destruct H as [H|[]]. congruence.
  - intros H. assert (st' = st) as ->; [|exists []; split; reflexivity].
    destruct (m_after st) as [|c [|c' t]]; simpl in H; try tauto.
    + destruct H as [H|[]]. congruence.
    + destruct (c =? c_nl); simpl in H; [|tauto]. destruct H as [H|[]]. congruence.
Qed.

Lemma consumed_spec st st' w :
  m_before st' = rev w ++ m_before st -> consumed st st' = w.
Proof.
  intros H. unfold consumed. rewrite H, length_app, length_rev.
  replace (length w + length (m_before st) - length (m_before st))%nat with (length w) by lia.
  rewrite <- (length_rev w), firstn_app, Nat.sub_diag, firstn_all. simpl.
  rewrite app_nil_r. apply rev_involutive.
Qed.

(** The matched text is a prefix of the text at the position of the match. *)
Lemma match_at_prefix r bef aft mo :
  match_at r bef aft = Some mo ->
  mo_start mo = MState bef aft [] /\ aft = group0 mo ++ m_after (mo_end mo).
Proof.
  unfold match_at. destruct (rmatch r _) as [|st' l] eqn:E; [discriminate|].
  intros H. inversion H; subst; clear H. split; [reflexivity|].
  assert (Hin : In st' (rmatch r (MState bef aft []))) by (rewrite E; left; reflexivity).
  apply rmatch_consumes in Hin. destruct Hin as (w & Hb & Ha). simpl in *.
  unfold group0. simpl. rewrite (consumed_spec (MState bef aft []) st' w Hb). exact Ha.
Qed.

Lemma re_sub_render r repl s : re_sub r repl s = render repl (finditer r s).
Proof. unfold re_sub, render. destruct (finditer r s). reflexivity. Qed.

Lemma no_match_in_tail r bef c t :
  no_match_in r bef (c :: t) -> no_match_in r (c :: bef) t.
Proof.
  intros H pre post E. specialize (H (c :: pre) post). simpl in H.
  rewrite <- app_assoc in H. apply H. rewrite E. reflexivity.
Qed.

Lemma scan_no_match r : forall aft bef gap,
  no_match_in r bef aft -> scan r O bef gap aft = ([], rev gap ++ aft).
Proof.
  induction aft as [|c t IH]; intros bef gap H; simpl.
  - pose proof (H [] [] eq_refl) as H0. simpl in H0. rewrite H0, app_nil_r. reflexivity.
  - pose proof (H [] (c :: t) eq_refl) as H0. simpl in H0. rewrite H0.
    rewrite IH by (apply no_match_in_tail; exact H). simpl. rewrite <- app_assoc. reflexivity.
Qed.

Lemma re_sub_no_match r repl s : no_match_in r [] s -> re_sub r repl s = s.
Proof.
  intros H. unfold re_sub, finditer. rewrite scan_no_match by exact H. reflexivity.
Qed.

(** The gaps, the matched texts and the tail make up the text again. *)
Lemma scan_reconstruct r : forall aft skip bef gap,
  render group0 (scan r skip bef gap aft) = rev gap ++ skipn skip aft.
Proof.
  induction aft as [|c t IH]; intros skip bef gap.
  - destruct skip; simpl.
    + destruct (match_at r bef []) as [mo|] eqn:E; unfold render; simpl;
        [|rewrite app_nil_r; reflexivity].
      apply match_at_prefix in E. destruct E as [_ E].
      symmetry in E. apply app_eq_nil in E. destruct E as [-> _]. rewrite !app_nil_r. reflexivity.
    + unfold render; simpl. rewrite app_nil_r. reflexivity.
  - destruct skip; simpl.
    + destruct (match_at r bef (c :: t)) as [mo|] eqn:E.
      * apply match_at_prefix in E. destruct E as [_ E].
        destruct (group0 mo) as [|g0 g] eqn:Eg; simpl.
        -- specialize (IH O (c :: bef) [c]). unfold render in *. simpl in *.
           rewrite Eg, app_nil_r, <- app_assoc. simpl. rewrite IH, skipn_O. reflexivity.
        -- specialize (IH (length g) (c :: bef) []). unfold render in *. simpl in *.
           rewrite Eg, <- !app_assoc. simpl. rewrite IH. simpl in E. inversion E; subst.
           rewrite skipn_app, skipn_all, Nat.sub_diag. simpl. reflexivity.
      * rewrite IH. simpl. rewrite <- app_assoc. reflexivity.
    + apply IH.
Qed.

Lemma finditer_reconstruct r s : render group0 (finditer r s) = s.
Proof. unfold finditer. rewrite scan_reconstruct. reflexivity. Qed.

End MatcherFacts.

(** ** The similarity ratio *)

Section DifflibFacts.

Lemma common_prefix_len_le : forall a b, (common_prefix_len a b <= length a)%nat.
Proof.
  induction a as [|x a IH]; intros [|y b]; simpl; try lia.
  destruct (x =? y); [specialize (IH b)|]; lia.
Qed.

Lemma longest_in_b_within sa i n : (i + length sa <= n)%nat ->
  forall b j best, block_within n best -> block_within n (longest_in_b sa i b j best).
Proof.
  intros Hn. induction b as [|y b IH]; intros j best Hb; simpl; [exact Hb|].
  apply IH. destruct (snd best <? _)%nat; [|exact Hb].
  right. simpl. pose proof (common_prefix_len_le sa (y :: b)). lia.
Qed.

Lemma longest_in_a_within b n : forall a i best,
  (i + length a <= n)%nat -> block_within n best ->
  block_within n (longest_in_a a i b best).
Proof.
  induction a as [|x a IH]; intros i best Hn Hb; simpl; [exact Hb|].
  apply IH; [simpl in Hn; lia|]. apply longest_in_b_within; [exact Hn|exact Hb].
Qed.

Lemma find_longest_match_within a b :
  block_within (length a) (find_longest_match a b).
Proof. apply longest_in_a_within; [simpl; lia|left; reflexivity]. Qed.

(** With fuel above the length of [a] the count does not depend on the
    fuel. *)
Lemma matching_chars_fuel : forall f f' a b,
  (length a < f)%nat -> (length a < f')%nat ->
  matching_chars f a b = matching_chars f' a b.
Proof.
  induction f as [|f IH]; intros f' a b Hf Hf'; [lia|].
  destruct f' as [|f']; [lia|]. cbn [matching_chars].
  pose proof (find_longest_match_within a b) as Hw.
  destruct (find_longest_match a b) as [[i j] k]. destruct k as [|k]; [reflexivity|].
  destruct Hw as [Hw|Hw]; [discriminate|]. simpl in Hw.
  rewrite (IH f' (firstn i a) (firstn j b)), (IH f' (skipn (i + S k) a) (skipn (j + S k) b));
    try reflexivity; rewrite ?length_firstn, ?length_skipn; lia.
Qed.

End DifflibFacts.

(** ** The text normaliser *)

Section NormalizerFacts.
Context {U : Unicode}.

Lemma span_len_le p s : (span_len p s <= length s)%nat.
Proof. induction s as [|c t IH]; simpl; [lia|]. destruct (p c); simpl; lia. Qed.

Lemma rep_run_none p lo : forall aft n bef,
  (n + span_len p aft < lo)%nat -> rep_run p lo None n bef aft = [].
Proof.
  induction aft as [|c t IH]; intros n bef H; simpl in *.
  - destruct (Nat.leb_spec lo n); [lia|reflexivity].
  - destruct (p c); simpl.
    + rewrite IH by lia. destruct (Nat.leb_spec lo n); [lia|reflexivity].
    + destruct (Nat.leb_spec lo n); [lia|reflexivity].
Qed.

Lemma rep_run_greedy p lo : forall aft n bef,
  (lo <= n + span_len p aft)%nat ->
  exists rest, rep_run p lo None n bef aft
               = (rev (firstn (span_len p aft) aft) ++ bef, skipn (span_len p aft) aft) :: rest.
Proof.
  induction aft as [|c t IH]; intros n bef H; simpl in *.
  - destruct (Nat.leb_spec lo n); [|lia]. eexists. reflexivity.
  - destruct (p c); simpl.
    + destruct (IH (S n) (c :: bef)) as [rest Hr]; [lia|]. rewrite Hr.
      eexists. simpl. rewrite <- app_assoc. reflexivity.
    + destruct (Nat.leb_spec lo n); [|lia]. eexists. reflexivity.
Qed.

Lemma blank_run_no_match bef aft :
  (span_len is_nl aft < 3)%nat -> match_at blank_run_re bef aft = None.
Proof.
  intros H. unfold match_at, blank_run_re. simpl.
  rewrite (rep_run_none (N.eqb c_nl) 3 aft O bef) by exact H. reflexivity.
Qed.

Lemma blank_run_match bef aft :
  (3 <= span_len is_nl aft)%nat ->
  exists mo, match_at blank_run_re bef aft = Some mo
             /\ length (group0 mo) = span_len is_nl aft.
Proof.
  intros H. unfold match_at, blank_run_re. simpl.
  destruct (rep_run_greedy (N.eqb c_nl) 3 aft O bef) as [rest Hr]; [exact H|].
  rewrite Hr. simpl. eexists. split; [reflexivity|].
  unfold group0. simpl.
  erewrite consumed_spec; [|simpl; reflexivity].
  rewrite length_firstn. fold is_nl.
  pose proof (span_len_le is_nl aft). lia.
Qed.

(** [re.sub] with the blank-run pattern is [collapse]. *)
Lemma blank_run_scan repl : forall aft skip bef gap,
  (forall mo, repl mo = [c_nl; c_nl]) ->
  render repl (scan blank_run_re skip bef gap aft) = rev gap ++ collapse skip aft.
Proof.
  induction aft as [|c t IH]; intros skip bef gap Hrepl.
  - destruct skip; cbn [scan collapse].
    + rewrite blank_run_no_match by (simpl; lia). unfold render. simpl.
      rewrite app_nil_r. reflexivity.
    + unfold render. simpl. rewrite app_nil_r. reflexivity.
  - destruct skip.
    + cbn [scan collapse].
      destruct (Nat.leb_spec 3 (span_len is_nl (c :: t))) as [H|H].
      * destruct (blank_run_match bef (c :: t) H) as (mo & -> & Hlen).
        rewrite Hlen. destruct (span_len is_nl (c :: t)) as [|k] eqn:Ek; [lia|].
        unfold render. cbn [fst snd List.map concat]. rewrite Hrepl.
        specialize (IH k (c :: bef) [] Hrepl). unfold render in IH. simpl in IH.
        rewrite <- !app_assoc. simpl. rewrite IH. reflexivity.
      * rewrite blank_run_no_match by exact H. rewrite IH by exact Hrepl.
        simpl. rewrite <- app_assoc. reflexivity.
    + cbn [scan collapse]. apply IH. exact Hrepl.
Qed.

Lemma normalize_newlines_collapse s :
  _normalize_newlines s = collapse O (replace_char c_cr c_nl s).
Proof.
  unfold _normalize_newlines. rewrite re_sub_render. unfold finditer.
  rewrite blank_run_scan by reflexivity. reflexivity.
Qed.

Lemma collapse_skip : forall s skip, collapse skip s = collapse O (skipn skip s).
Proof.
  induction s as [|c t IH]; intros [|k]; try reflexivity. simpl. apply IH.
Qed.

Lemma span_len_skipn p : forall s, span_len p (skipn (span_len p s) s) = O.
Proof.
  induction s as [|c t IH]; simpl; [reflexivity|].
  destruct (p c) eqn:E; simpl; [exact IH|]. rewrite E. reflexivity.
Qed.

Lemma collapse_bound : forall n s, (length s <= n)%nat ->
  (span_len is_nl (collapse O s) <= span_len is_nl s)%nat
  /\ short_runs (collapse O s) = true.
Proof.
  induction n as [|n IH]; intros s Hn.
  - destruct s; simpl in *; [split; [lia|reflexivity]|lia].
  - destruct s as [|c t]; [split; [simpl; lia|reflexivity]|].
    cbn [collapse]. destruct (Nat.leb_spec 3 (span_len is_nl (c :: t))) as [H|H].
    + rewrite collapse_skip.
      assert (Hc : is_nl c = true).
      { simpl in H. destruct (is_nl c); [reflexivity|lia]. }
      assert (Ek : skipn (Nat.pred (span_len is_nl (c :: t))) t
                   = skipn (span_len is_nl (c :: t)) (c :: t)).
      { simpl. rewrite Hc. reflexivity. }
      rewrite Ek.
      set (s' := skipn (span_len is_nl (c :: t)) (c :: t)).
      assert (Hs' : span_len is_nl s' = O) by apply span_len_skipn.
      assert (Hl : (length s' <= n)%nat).
      { unfold s'. rewrite length_skipn. simpl in *. lia. }
      destruct (IH s' Hl) as [IH1 IH2].
      assert (Hx : span_len is_nl (collapse O s') = O) by lia.
      split.
      * simpl. rewrite Hx. simpl in H. rewrite Hc in *. lia.
      * cbn [short_runs span_len]. change (is_nl c_nl) with true. cbn iota.
        rewrite Hx, IH2. reflexivity.
    + assert (Hl : (length t <= n)%nat) by (simpl in Hn; lia).
      destruct (IH t Hl) as [IH1 IH2]. split.
      * simpl. destruct (is_nl c); lia.
      * cbn [short_runs]. rewrite IH2, andb_true_r. apply Nat.ltb_lt.
        simpl in *. destruct (is_nl c); lia.
Qed.

Lemma collapse_short_runs s : short_runs (collapse O s) = true.
Proof. apply (collapse_bound (length s) s). lia. Qed.

Lemma collapse_fixed : forall s, short_runs s = true -> collapse O s = s.
Proof.
  induction s as [|c t IH]; [reflexivity|].
  cbn [short_runs collapse]. intros H. apply andb_prop in H. destruct H as [H1 H2].
  apply Nat.ltb_lt in H1. destruct (Nat.leb_spec 3 (span_len is_nl (c :: t))); [lia|].
  rewrite IH by exact H2. reflexivity.
Qed.

Lemma collapse_chars : forall n s skip x, (length s <= n)%nat ->
  In x (collapse skip s) -> In x s.
Proof.
  induction n as [|n IH]; intros s skip x Hn.
  - destruct s; [|simpl in Hn; lia]. destruct skip; simpl; tauto.
  - destruct s as [|c t]; [destruct skip; simpl; tauto|].
    destruct skip as [|k]; cbn [collapse].
    + destruct (Nat.leb_spec 3 (span_len is_nl (c :: t))) as [H|H].
      * assert (Hc : c = c_nl).
        { simpl in H. unfold is_nl in H. destruct (N.eqb_spec c_nl c); [congruence|lia]. }
        intros [<-|[<-|Hx]]; [left; exact Hc|left; exact Hc|].
        right. eapply IH; [|exact Hx]. simpl in Hn; lia.
      * intros [<-|Hx]; [left; reflexivity|].
        right. eapply IH; [|exact Hx]. simpl in Hn; lia.
    + intros Hx. right. eapply IH; [|exact Hx]. simpl in Hn; lia.
Qed.

Lemma replace_char_out a b s : a <> b -> ~ In a (replace_char a b s).
Proof.
  intros Hab H. unfold replace_char in H. apply in_map_iff in H.
  destruct H as (c & Hc & _). destruct (N.eqb_spec c a); congruence.
Qed.

Lemma replace_char_absent a b s : ~ In a s -> replace_char a b s = s.
Proof.
  induction s as [|c t IH]; simpl; intros H; [reflexivity|].
  destruct (N.eqb_spec c a) as [->|_]; [tauto|]. f_equal. apply IH. tauto.
Qed.

Lemma replace_char_in a b s x : In x (replace_char a b s) -> In x s \/ x = b.
Proof.
  unfold replace_char. intros H. apply in_map_iff in H. destruct H as (c & Hc & Hin).
  destruct (c =? a); subst; [right; reflexivity|left; exact Hin].
Qed.

(** Steps 2 and 3 of the normaliser are idempotent. *)
Lemma normalize_newlines_idempotent s :
  _normalize_newlines (_normalize_newlines s) = _normalize_newlines s.
Proof.
  rewrite (normalize_newlines_collapse (_normalize_newlines s)).
  rewrite replace_char_absent.
  - rewrite normalize_newlines_collapse. apply collapse_fixed, collapse_short_runs.
  - rewrite normalize_newlines_collapse. intros H.
    apply (collapse_chars _ _ _ _ (Nat.le_refl _)) in H.
    revert H. apply replace_char_out. discriminate.
Qed.

Lemma normalize_newlines_chars s x :
  In x (_normalize_newlines s) -> In x s \/ x = c_nl.
Proof.
  rewrite normalize_newlines_collapse. intros H.
  apply (collapse_chars _ _ _ _ (Nat.le_refl _)) in H.
  apply replace_char_in in H. exact H.
Qed.

(** Without a hyphen the join pattern matches nowhere. *)
Lemma hyphen_break_no_match bef aft :
  ~ In c_hyphen aft -> match_at hyphen_break_re bef aft = None.
Proof.
  intros H. unfold match_at, hyphen_break_re. cbn [cats].
  rewrite rmatch_cat, flat_map_nil; [reflexivity|].
  intros st1 H1. apply rmatch_consumes in H1. destruct H1 as (w & _ & Ha). simpl in Ha.
  rewrite rmatch_cat. cbn [chr rmatch flat_map]. destruct (m_after st1) as [|c t] eqn:E; [reflexivity|].
  destruct (N.eqb_spec c_hyphen c) as [<-|_]; [|reflexivity].
  exfalso. apply H. rewrite Ha. apply in_or_app. right. left. reflexivity.
Qed.

Lemma merge_without_hyphen s :
  ~ In c_hyphen s -> _merge_hyphenated_words s = s.
Proof.
  intros H. unfold _merge_hyphenated_words. apply re_sub_no_match.
  intros pre post E. apply hyphen_break_no_match. intros Hin. apply H.
  rewrite E. apply in_or_app. right. exact Hin.
Qed.

End NormalizerFacts.

(** ** The section segmenter *)

Section SegmenterFacts.
Context {U : Unicode}.

Lemma values_app d1 d2 : values (d1 ++ d2) = values d1 ++ values d2.
Proof. unfold values. rewrite List.map_app, concat_app. reflexivity. Qed.

Lemma dict_append_values k ln : forall d,
  Permutation (values (dict_append k ln d)) (values d ++ [ln]).
Proof.
  induction d as [|[k' v] d IH]; simpl.
  - reflexivity.
  - destruct (str_eq k' k); unfold values in *; simpl.
    + rewrite <- !app_assoc. apply Permutation_app_head. apply Permutation_app_comm.
    + rewrite <- app_assoc. apply Permutation_app_head. exact IH.
Qed.

Lemma segment_step_values cur d ln :
  Permutation (values (snd (segment_step (cur, d) ln)))
              (values d ++ (if is_heading ln then [] else [ln])).
Proof.
  unfold segment_step, is_heading. destruct (_is_section_header ln) as [m|]; simpl.
  - rewrite app_nil_r.
    destruct (dict_mem m d); [reflexivity|]. rewrite values_app. unfold values at 2. simpl.
    rewrite app_nil_r. reflexivity.
  - apply dict_append_values.
Qed.

Lemma segment_fold_values : forall lines cur d,
  Permutation (values (snd (foldl segment_step (cur, d) lines)))
              (values d ++ List.filter (fun ln => negb (is_heading ln)) lines).
Proof.
  induction lines as [|ln lines IH]; intros cur d; cbn [foldl List.filter].
  - rewrite app_nil_r. reflexivity.
  - destruct (segment_step (cur, d) ln) as [cur' d'] eqn:E.
    rewrite IH. pose proof (segment_step_values cur d ln) as H. rewrite E in H. simpl in H.
    rewrite H. rewrite <- app_assoc. apply Permutation_app_head.
    destruct (is_heading ln); simpl; reflexivity.
Qed.

Lemma values_filter_truthy d :
  values (List.filter (fun kv : str * list str => truthy (snd kv)) d) = values d.
Proof.
  induction d as [|[k v] d IH]; [reflexivity|]. simpl.
  destruct v; simpl; unfold values in *; simpl; rewrite IH; reflexivity.
Qed.

(** Order: every section's list is a subsequence of the lines. *)
Lemma dict_append_sublist k ln pre : forall d,
  Forall (fun kv : str * list str => sublist (snd kv) pre) d ->
  Forall (fun kv : str * list str => sublist (snd kv) (pre ++ [ln])) (dict_append k ln d).
Proof.
  induction d as [|[k' v] d IH]; intros H; simpl.
  - constructor; [|constructor]. simpl. apply sublist_inserts_l. reflexivity.
  - inversion H as [|? ? Hv Hd]; subst. simpl in Hv. destruct (str_eq k' k).
    + constructor; simpl.
      * apply sublist_app; [exact Hv|reflexivity].
      * eapply Forall_impl; [exact Hd|]. simpl. intros kv Hkv.
        apply sublist_inserts_r. exact Hkv.
    + constructor; simpl; [apply sublist_inserts_r; exact Hv|]. apply IH. exact Hd.
Qed.

Lemma segment_fold_sublist : forall lines pre cur d,
  Forall (fun kv : str * list str => sublist (snd kv) pre) d ->
  Forall (fun kv : str * list str => sublist (snd kv) (pre ++ lines))
         (snd (foldl segment_step (cur, d) lines)).
Proof.
  induction lines as [|ln lines IH]; intros pre cur d H; cbn [foldl].
  - rewrite app_nil_r. exact H.
  - replace (pre ++ ln :: lines) with ((pre ++ [ln]) ++ lines)
      by (rewrite <- app_assoc; reflexivity).
    destruct (segment_step (cur, d) ln) as [cur' d'] eqn:E. apply IH.
    unfold segment_step in E. destruct (_is_section_header ln) as [m|].
    + injection E as <- <-.
      assert (Hd : Forall (fun kv : str * list str => sublist (snd kv) (pre ++ [ln])) d).
      { eapply Forall_impl; [exact H|]. simpl. intros kv Hkv. apply sublist_inserts_r. exact Hkv. }
      destruct (dict_mem m d); [exact Hd|]. apply Forall_app. split; [exact Hd|].
      constructor; [|constructor]. simpl. apply sublist_nil_l.
    + injection E as <- <-. apply dict_append_sublist. exact H.
Qed.

Lemma segment_sections_sublist lines :
  Forall (fun kv : str * list str => sublist (snd kv) lines /\ snd kv <> [])
         (segment_sections lines).
Proof.
  unfold segment_sections.
  apply List.Forall_forall. intros kv Hkv. apply filter_In in Hkv. destruct Hkv as [Hin Hne].
  split.
  - assert (H0 : Forall (fun kv : str * list str => sublist (snd kv) [])
                        [(py "other", @nil str)]).
    { constructor; [|constructor]. simpl. constructor. }
    pose proof (segment_fold_sublist lines [] (py "other") _ H0) as H.
    simpl in H. rewrite List.Forall_forall in H. apply H. exact Hin.
  - destruct (snd kv); [discriminate|]. discriminate.
Qed.

(** Without a heading everything stays in "other". *)
Lemma segment_fold_other : forall lines v,
  Forall (fun ln => _is_section_header ln = None) lines ->
  foldl segment_step (py "other", [(py "other", v)]) lines
  = (py "other", [(py "other", v ++ lines)]).
Proof.
  induction lines as [|ln lines IH]; intros v H; cbn [foldl].
  - rewrite app_nil_r. reflexivity.
  - inversion H as [|? ? Hln Hl]; subst. unfold segment_step at 2. rewrite Hln.
    cbn [dict_append].
    change (str_eq (py "other") (py "other")) with true. cbn iota.
    rewrite IH by exact Hl. rewrite <- app_assoc. reflexivity.
Qed.

Lemma segment_sections_other lines :
  Forall (fun ln => _is_section_header ln = None) lines ->
  segment_sections lines = match lines with [] => [] | _ => [(py "other", lines)] end.
Proof.
  intros H. unfold segment_sections. rewrite segment_fold_other by exact H. simpl.
  destruct lines; reflexivity.
Qed.

End SegmenterFacts.

(** ** The skills parser *)

Section SkillsFacts.
Context {U : Unicode}.

Lemma filter_filter_and {A} (f g : A -> bool) (l : list A) :
  List.filter f (List.filter g l) = List.filter (fun x => g x && f x) l.
Proof.
  induction l as [|x l IH]; [reflexivity|]. simpl.
  destruct (g x); simpl; [destruct (f x); simpl; rewrite IH; reflexivity|exact IH].
Qed.

Lemma dedupe_fold : forall l (seen : gset str) out,
  foldl dedupe_step (seen, out) l
  = (seen ∪ list_to_set (List.map u_lower l),
     out ++ List.filter (fun x => negb (bool_decide (u_lower x ∈ seen))) (dedupe_ci l)).
Proof.
  induction l as [|s t IH]; intros seen out; cbn [foldl dedupe_ci List.map list_to_set].
  - simpl. rewrite app_nil_r. f_equal. set_solver.
  - unfold dedupe_step at 2. cbn [List.filter].
    destruct (bool_decide (u_lower s ∈ seen)) eqn:E; cbn [negb].
    + rewrite IH. apply bool_decide_eq_true in E. f_equal; [set_solver|]. f_equal.
      rewrite filter_filter_and. apply filter_ext_in. intros x _.
      unfold str_eq. destruct (bool_decide (u_lower x = u_lower s)) eqn:Ex; [|reflexivity].
      apply bool_decide_eq_true in Ex. rewrite Ex. simpl.
      rewrite bool_decide_true by exact E. reflexivity.
    + rewrite IH. apply bool_decide_eq_false in E. f_equal; [set_solver|].
      rewrite <- app_assoc. simpl. do 2 f_equal.
      rewrite filter_filter_and. apply filter_ext_in. intros x _. unfold str_eq.
      destruct (bool_decide (u_lower x = u_lower s)) eqn:Ex; simpl.
      * apply bool_decide_eq_true in Ex. rewrite bool_decide_true by set_solver. reflexivity.
      * apply bool_decide_eq_false in Ex. f_equal. apply bool_decide_ext. set_solver.
Qed.

Lemma NoDup_map_filter {A B} (f : A -> B) (g : A -> bool) (l : list A) :
  List.NoDup (List.map f l) -> List.NoDup (List.map f (List.filter g l)).
Proof.
  induction l as [|x l IH]; simpl; intros H; [constructor|].
  inversion H as [|? ? Hx Hl]; subst. destruct (g x); simpl; [|apply IH; exact Hl].
  constructor; [|apply IH; exact Hl].
  intros Hin. apply Hx. apply in_map_iff in Hin. destruct Hin as (y & Hy & Hin).
  apply filter_In in Hin. destruct Hin as [Hin _]. apply in_map_iff. exists y. split; assumption.
Qed.

Lemma dedupe_ci_nodup l : List.NoDup (List.map u_lower (dedupe_ci l)).
Proof.
  induction l as [|s t IH]; simpl; constructor.
  - intros Hin. apply in_map_iff in Hin. destruct Hin as (y & Hy & Hin).
    apply filter_In in Hin. destruct Hin as [_ Hne]. unfold str_eq in Hne.
    rewrite bool_decide_true in Hne by exact Hy. discriminate.
  - apply NoDup_map_filter. exact IH.
Qed.

Lemma parse_skills_dedupe lines :
  parse_skills_section lines = dedupe_ci (List.map skill_case (skill_phrases lines)).
Proof.
  unfold parse_skills_section. rewrite dedupe_fold. simpl.
  rewrite <- (filter_ext_in (fun _ => true)).
  - clear. induction (dedupe_ci _) as [|x l IH]; simpl; [reflexivity|]. f_equal. exact IH.
  - intros x _. reflexivity.
Qed.

End SkillsFacts.

(** ** The header extractor *)

Section HeaderFacts.
Context {U : Unicode}.

Lemma rev_cons_not_nil {A} (x : A) l : rev (x :: l) <> [].
Proof. simpl. intros H. apply app_eq_nil in H. destruct H as [_ H]. discriminate. Qed.

Lemma split_ws_aux_nonempty : forall s cur,
  Forall (fun w : str => w <> []) (split_ws_aux cur s).
Proof.
  induction s as [|c t IH]; intros cur; cbn [split_ws_aux].
  - destruct cur; constructor; [apply rev_cons_not_nil|constructor].
  - destruct (u_isspace c); [|apply IH]. destruct cur; [apply IH|].
    constructor; [apply rev_cons_not_nil|apply IH].
Qed.

Lemma split_ws_nonempty s : Forall (fun w : str => w <> []) (split_ws s).
Proof. apply split_ws_aux_nonempty. Qed.

Lemma first_isupper_total ws :
  Forall (fun w : str => w <> []) ws -> is_Some (mapM first_isupper ws).
Proof.
  intros H. apply mapM_is_Some_2. eapply Forall_impl; [exact H|].
  intros [|c w] Hw; [contradiction|]. simpl. eauto.
Qed.

Lemma likely_name_total ln : is_Some (_likely_name ln).
Proof.
  unfold _likely_name. destruct (_ || _); [eauto|]. destruct (existsb _ _); [eauto|].
  destruct (_ <? _)%nat; [eauto|].
  destruct (first_isupper_total (split_ws ln) (split_ws_nonempty ln)) as [bs ->].
  simpl. eauto.
Qed.

Lemma scan_window_found : forall block st i,
  is_Some (sc_name st) ->
  exists st', scan_window st i block = Some st'
              /\ sc_name st' = sc_name st /\ sc_name_index st' = sc_name_index st.
Proof.
  induction block as [|ln rest IH]; intros st i Hn; cbn [scan_window].
  - eauto.
  - unfold scan_line. destruct (sc_name st) as [n|] eqn:E; [|destruct Hn; discriminate].
    cbn [mbind option_bind].
    match goal with |- context [scan_window ?s _ _] => destruct (IH s (S i)) as (st' & H1 & H2 & H3) end.
    + simpl. eauto.
    + exists st'. simpl in H2, H3. auto.
Qed.

Lemma scan_window_search : forall block st i,
  sc_name st = None -> sc_name_index st = None ->
  exists st', scan_window st i block = Some st'
              /\ sc_name_index st' = (fun j => (i + j)%nat) <$> first_name_index block.
Proof.
  induction block as [|ln rest IH]; intros st i Hn Hi; cbn [scan_window first_name_index].
  - exists st. split; [reflexivity|]. exact Hi.
  - unfold scan_line. rewrite Hn. unfold likely.
    destruct (likely_name_total ln) as [b Hb]. rewrite Hb. cbn [mbind option_bind].
    destruct b; cbn iota; cbn [mbind option_bind].
    + rewrite bool_decide_true by reflexivity.
      match goal with |- context [scan_window ?s _ _] =>
        destruct (scan_window_found rest s (S i)) as (st' & H1 & _ & H3) end.
      * simpl. eauto.
      * exists st'. split; [exact H1|]. rewrite H3. simpl. f_equal. lia.
    + rewrite bool_decide_false by discriminate.
      match goal with |- context [scan_window ?s _ _] =>
        destruct (IH s (S i)) as (st' & H1 & H2) end; [reflexivity|reflexivity|].
      exists st'. split; [exact H1|]. rewrite H2.
      destruct (first_name_index rest); simpl; [f_equal; lia|reflexivity].
Qed.

Lemma first_name_index_lt : forall block i,
  first_name_index block = Some i -> (i < length block)%nat.
Proof.
  induction block as [|ln rest IH]; intros i; simpl; [discriminate|].
  destruct (likely ln); [intros [= <-]; lia|].
  destruct (first_name_index rest) as [j|]; simpl; [|discriminate].
  intros [= <-]. specialize (IH j eq_refl). lia.
Qed.

Lemma add_upto_seq block : forall n start (set : gset str),
  (start + n <= length block)%nat ->
  add_upto block (List.seq start n) set
  = Some (set ∪ list_to_set (firstn n (skipn start block))).
Proof.
  induction n as [|n IH]; intros start set H; cbn [List.seq add_upto].
  - rewrite firstn_O. simpl. f_equal. set_solver.
  - destruct (lookup_lt_is_Some_2 block start) as [ln Hln]; [lia|].
    rewrite Hln. cbn [mbind option_bind]. rewrite IH by lia.
    rewrite (drop_S _ _ _ Hln). simpl. f_equal. set_solver.
Qed.

Lemma contact_fold : forall block (set : gset str),
  foldl (fun (set : gset str) ln => if has_contact ln then {[ln]} ∪ set else set) set block
  = set ∪ list_to_set (List.filter has_contact block).
Proof.
  induction block as [|ln rest IH]; intros set; cbn [foldl List.filter].
  - simpl. set_solver.
  - rewrite IH. destruct (has_contact ln); simpl; set_solver.
Qed.

(** The header extractor returns, and removes the lines by their text. *)
Lemma extract_header_info_filter lines :
  exists name contact,
    extract_header_info lines
    = Some (name, contact, List.filter (fun ln => negb (header_text lines ln)) lines).
Proof.
  unfold extract_header_info, extract_header_info_n.
  destruct (scan_window_search (firstn 15 lines) (ScanState (Contact [] [] []) None None) O
              eq_refl eq_refl) as (st & -> & Hidx).
  cbn [mbind option_bind]. rewrite Hidx.
  destruct (first_name_index (firstn 15 lines)) as [i|] eqn:Ei; cbn [fmap option_fmap option_map].
  - apply first_name_index_lt in Ei as Hlt.
    replace (0 + i + 1)%nat with (S i) by lia.
    rewrite add_upto_seq by (simpl; lia). cbn [mbind option_bind].
    exists (sc_name st), (sc_contact st). do 2 f_equal.
    apply filter_ext_in. intros ln _. f_equal. unfold header_text. rewrite Ei, contact_fold.
    rewrite skipn_O.
    apply eq_true_iff_eq. rewrite bool_decide_eq_true, orb_true_iff, andb_true_iff,
      !bool_decide_eq_true.
    rewrite !elem_of_union, !elem_of_list_to_set, !list_elem_of_In, filter_In, <- !list_elem_of_In.
    set_solver.
  - cbn [mbind option_bind]. exists (sc_name st), (sc_contact st). do 2 f_equal.
    apply filter_ext_in. intros ln _. f_equal. unfold header_text. rewrite Ei, contact_fold.
    apply eq_true_iff_eq. rewrite bool_decide_eq_true, orb_true_iff, andb_true_iff,
      !bool_decide_eq_true.
    rewrite !elem_of_union, !elem_of_list_to_set, !list_elem_of_In, filter_In, <- !list_elem_of_In.
    set_solver.
Qed.

End HeaderFacts.

(** ** White space and words *)

Section WordFacts.
Context {U : Unicode}.

Lemma split_ws_dropwhile : forall s,
  split_ws_aux [] (dropwhile u_isspace s) = split_ws_aux [] s.
Proof.
  induction s as [|c t IH]; [reflexivity|]. simpl.
  destruct (u_isspace c) eqn:E; [exact IH|]. simpl. rewrite E. reflexivity.
Qed.

Lemma split_ws_snoc_space c : u_isspace c = true -> forall s cur,
  split_ws_aux cur (s ++ [c]) = split_ws_aux cur s.
Proof.
  intros Hc. induction s as [|x s IH]; intros cur; simpl.
  - rewrite Hc. destruct cur; reflexivity.
  - destruct (u_isspace x); [|apply IH]. destruct cur; rewrite IH; reflexivity.
Qed.

Lemma split_ws_rev_dropwhile : forall l,
  split_ws (rev (dropwhile u_isspace l)) = split_ws (rev l).
Proof.
  induction l as [|c l IH]; [reflexivity|]. simpl.
  destruct (u_isspace c) eqn:E; [|reflexivity].
  rewrite IH. unfold split_ws. rewrite split_ws_snoc_space by exact E. reflexivity.
Qed.

(** Stripping a line does not change its words. *)
Lemma split_ws_strip s : split_ws (strip s) = split_ws s.
Proof.
  unfold strip, strip_by, rstrip_by, lstrip_by.
  rewrite split_ws_rev_dropwhile, rev_involutive. apply split_ws_dropwhile.
Qed.

Lemma dropwhile_fixed p s :
  match s with c :: _ => p c = false | [] => True end -> dropwhile p s = s.
Proof. destruct s as [|c t]; simpl; [reflexivity|]. intros ->. reflexivity. Qed.

Lemma dropwhile_head p : forall s,
  match dropwhile p s with c :: _ => p c = false | [] => True end.
Proof.
  induction s as [|c t IH]; simpl; [exact I|]. destruct (p c) eqn:E; [exact IH|exact E].
Qed.

Lemma dropwhile_suffix p : forall l, exists pre, l = pre ++ dropwhile p l.
Proof.
  induction l as [|y l [pre IH]]; simpl; [exists []; reflexivity|].
  destruct (p y); [exists (y :: pre); simpl; rewrite <- IH; reflexivity|exists []; reflexivity].
Qed.

Lemma dropwhile_idempotent p l : dropwhile p (dropwhile p l) = dropwhile p l.
Proof. apply dropwhile_fixed, dropwhile_head. Qed.

(** Stripping twice is stripping once. *)
Lemma strip_by_idempotent p s : strip_by p (strip_by p s) = strip_by p s.
Proof.
  unfold strip_by, rstrip_by, lstrip_by.
  set (a := dropwhile p s). set (b := dropwhile p (rev a)).
  assert (H1 : dropwhile p (rev b) = rev b).
  { destruct (dropwhile_suffix p (rev a)) as [pre Hpre]. fold b in Hpre.
    apply dropwhile_fixed. destruct (rev b) as [|c t] eqn:E; [exact I|].
    assert (Ha : a = c :: t ++ rev pre).
    { rewrite <- (rev_involutive a), Hpre, rev_app_distr, E. reflexivity. }
    pose proof (dropwhile_head p s) as Hh. fold a in Hh. rewrite Ha in Hh. exact Hh. }
  rewrite H1, rev_involutive. unfold b at 1. rewrite dropwhile_idempotent. reflexivity.
Qed.

Lemma strip_idempotent s : strip (strip s) = strip s.
Proof. apply strip_by_idempotent. Qed.

End WordFacts.

(** ** The projects parser *)

Section ProjectFacts.
Context {U : Unicode}.

Lemma split_at_caps_spec : forall lines,
  lines = fst (split_at_caps lines) ++ snd (split_at_caps lines)
  /\ Forall (fun l => is_caps_header l = false) (fst (split_at_caps lines))
  /\ match snd (split_at_caps lines) with l :: _ => is_caps_header l = true | [] => True end.
Proof.
  induction lines as [|l rest IH]; simpl; [repeat split; constructor|].
  destruct (is_caps_header l) eqn:E; simpl; [repeat split; [constructor|exact E]|].
  destruct (split_at_caps rest) as [body r]. simpl in *. destruct IH as (H1 & H2 & H3).
  repeat split; [f_equal; exact H1|constructor; assumption|exact H3].
Qed.

Lemma collect_project_split : forall lines bullets tech,
  snd (collect_project bullets tech lines) = snd (split_at_caps lines)
  /\ fst (collect_project bullets tech lines)
     = fst (collect_project bullets tech (fst (split_at_caps lines))).
Proof.
  induction lines as [|l rest IH]; intros bullets tech; [split; reflexivity|].
  cbn [collect_project split_at_caps]. destruct (is_caps_header l) eqn:E; [split; reflexivity|].
  destruct (split_at_caps rest) as [body r] eqn:Es. cbn [fst snd] in *.
  cbn [collect_project]. rewrite E.
  destruct (strip l) as [|c s]; [apply IH|].
  destruct (char_in bullet_marks c); [apply IH|].
  destruct (_ || _); apply IH.
Qed.

Lemma collect_project_buffer_split : forall lines buffer,
  collect_project_buffer buffer lines
  = (buffer ++ List.map strip (fst (split_at_caps lines)), snd (split_at_caps lines)).
Proof.
  induction lines as [|l rest IH]; intros buffer; cbn [collect_project_buffer split_at_caps].
  - simpl. rewrite app_nil_r. reflexivity.
  - destruct (is_caps_header l); [simpl; rewrite app_nil_r; reflexivity|].
    rewrite IH. destruct (split_at_caps rest) as [body r]. simpl.
    rewrite <- app_assoc. reflexivity.
Qed.

Lemma split_at_caps_length lines : (length (snd (split_at_caps lines)) <= length lines)%nat.
Proof.
  destruct (split_at_caps_spec lines) as (H & _). rewrite H at 2. rewrite length_app. lia.
Qed.

(** A line that does not open a named project is not an upper-case short
    line either: the fallback loop passes over it. *)
Lemma not_project_name_not_caps l :
  is_project_name (strip l) = false -> is_caps_header l = false.
Proof.
  unfold is_project_name, is_caps_header. rewrite split_ws_strip.
  destruct (truthy (strip l)); simpl; [|reflexivity].
  destruct (length (split_ws l) <=? 10)%nat; simpl; [discriminate|reflexivity].
Qed.

Lemma head_of_chunks (stop : str -> bool) chunks x r :
  Forall (fun c : list str => c <> [] /\ Forall (fun l => stop l = false) (tl c)) chunks ->
  concat chunks = x :: r -> stop x = true -> starts_at stop (tl chunks) ->
  starts_at stop chunks.
Proof.
  intros Hg Hc Hx Ht. destruct chunks as [|c chunks]; [constructor|].
  constructor; [|exact Ht]. inversion Hg as [|? ? [Hne _] _]; subst.
  destruct c as [|l c]; [contradiction|]. simpl in Hc. injection Hc as -> _. exact Hx.
Qed.

Lemma projects_loop_chunks : forall fuel lines entries,
  (length lines < fuel)%nat ->
  exists chunks,
    projects_loop fuel lines entries = Some (entries ++ List.map project_of_chunk chunks)
    /\ concat chunks = lines
    /\ Forall (fun c : list str =>
                 c <> [] /\ Forall (fun l => is_caps_header l = false) (tl c)) chunks
    /\ starts_at is_caps_header (tl chunks).
Proof.
  induction fuel as [|fuel IH]; intros lines entries Hf; [lia|].
  destruct lines as [|l0 rest]; cbn [projects_loop].
  - exists []. simpl. rewrite app_nil_r. repeat split; constructor.
  - destruct (split_at_caps_spec rest) as (Hr1 & Hr2 & Hr3).
    destruct (is_project_name (strip l0)) eqn:En.
    + destruct (collect_project [] [] rest) as [[bullets tech] lines1] eqn:Ec.
      pose proof (collect_project_split rest [] []) as [Hs1 Hs2]. rewrite Ec in Hs1, Hs2.
      cbn [fst snd] in Hs1, Hs2. subst lines1.
      destruct (IH (snd (split_at_caps rest))
                   (entries ++ [ProjectEntry (Some (rstrip_chars (py ":") (strip l0))) None
                                             tech bullets (Some (strip l0))]))
        as (chunks & H1 & H2 & H3 & H4).
      { pose proof (split_at_caps_length rest). simpl in Hf. lia. }
      exists ((l0 :: fst (split_at_caps rest)) :: chunks). repeat split.
      * rewrite H1. rewrite <- app_assoc. cbn [List.map project_of_chunk app]. rewrite En.
        destruct (collect_project [] [] (fst (split_at_caps rest))) as [[b' t'] r'].
        cbn [fst] in Hs2. injection Hs2 as -> ->. reflexivity.
      * cbn [concat]. rewrite H2. simpl. f_equal. symmetry. exact Hr1.
      * constructor; [|exact H3]. split; [discriminate|exact Hr2].
      * cbn [tl]. destruct (snd (split_at_caps rest)) as [|x r] eqn:Er.
        -- destruct chunks as [|c chunks]; [constructor|].
           inversion H3 as [|? ? [Hne _] _]; subst. destruct c; [contradiction|discriminate].
        -- eapply head_of_chunks; eauto.
    + pose proof (not_project_name_not_caps l0 En) as Hcaps.
      rewrite collect_project_buffer_split. cbn [split_at_caps]. rewrite Hcaps.
      destruct (split_at_caps rest) as [body r] eqn:Es. cbn [fst snd app List.map truthy] in *.
      destruct (IH r (entries ++ [ProjectEntry None None [] (strip l0 :: List.map strip body)
                                               None]))
        as (chunks & H1 & H2 & H3 & H4).
      { assert (length r <= length rest)%nat by (rewrite Hr1, length_app; lia).
        simpl in Hf. lia. }
      exists ((l0 :: body) :: chunks). repeat split.
      * rewrite H1. rewrite <- app_assoc. cbn [List.map project_of_chunk app]. rewrite En.
        reflexivity.
      * cbn [concat]. rewrite H2. simpl. f_equal. symmetry. exact Hr1.
      * constructor; [|exact H3]. split; [discriminate|exact Hr2].
      * cbn [tl]. destruct r as [|x r'].
        -- destruct chunks as [|c chunks]; [constructor|].
           inversion H3 as [|? ? [Hne _] _]; subst. destruct c; [contradiction|discriminate].
        -- eapply head_of_chunks; eauto.
Qed.

End ProjectFacts.

(** ** The repetition filter *)

Section RepetitionFacts.
Context {U : Unicode}.

Lemma block_seen_fold : forall block (acc : gset str) k,
  k ∈ foldl (fun (seen : gset str) ln =>
               let key := strip ln in
               if (word_count key <=? 6)%nat then {[key]} ∪ seen else seen) acc block
  <-> k ∈ acc \/ (short_line k = true /\ In k (List.map strip block)).
Proof.
  induction block as [|ln rest IH]; intros acc k; cbn [foldl List.map].
  - simpl. tauto.
  - rewrite IH. cbn zeta. unfold short_line. simpl.
    destruct (word_count (strip ln) <=? 6)%nat eqn:E.
    + rewrite elem_of_union, elem_of_singleton. split.
      * intros [[->|H]|H]; [right; split; [exact E|left; reflexivity]|left; exact H|].
        right. destruct H; split; [assumption|right; assumption].
      * intros [H|[H1 [H2|H2]]]; [left; right; exact H|left; left; symmetry; exact H2|].
        right. split; assumption.
    + split.
      * intros [H|[H1 H2]]; [left; exact H|right; split; [exact H1|right; exact H2]].
      * intros [H|[H1 [H2|H2]]]; [left; exact H| |right; split; assumption].
        subst k. congruence.
Qed.

Lemma block_seen_spec block k :
  k ∈ block_seen block <-> short_line k = true /\ In k (List.map strip block).
Proof.
  unfold block_seen. rewrite block_seen_fold. split; [|tauto].
  intros [H|H]; [|exact H]. exfalso. revert H. apply not_elem_of_empty.
Qed.

Lemma map_strip_trimmed block : Forall trimmed block -> List.map strip block = block.
Proof.
  induction 1 as [|ln rest Hln _ IH]; simpl; [reflexivity|]. rewrite Hln, IH. reflexivity.
Qed.

Lemma counter_incr_fold (c : gmap str nat) (X : gset str) k :
  set_fold counter_incr c X !! k
  = if bool_decide (k ∈ X) then Some (S (default O (c !! k))) else c !! k.
Proof.
  revert X k. apply (set_fold_ind_L (fun r (X : gset str) => forall k,
    r !! k = if bool_decide (k ∈ X) then Some (S (default O (c !! k))) else c !! k)).
  - intros k. rewrite bool_decide_false by apply not_elem_of_empty. reflexivity.
  - intros x Y r Hx IH k. unfold counter_incr.
    destruct (decide (x = k)) as [->|Hne].
    + rewrite lookup_insert_eq. rewrite bool_decide_true by set_solver.
      rewrite IH. rewrite bool_decide_false by exact Hx. reflexivity.
    + rewrite lookup_insert_ne by exact Hne. rewrite IH.
      apply (f_equal (fun b : bool => if b then _ else _)).
      apply bool_decide_ext. set_solver.
Qed.

Lemma count_blocks_fold : forall blocks (c : gmap str nat) k,
  default O (foldl (fun counter block => set_fold counter_incr counter (block_seen block))
                   c blocks !! k)
  = (default O (c !! k)
     + length (List.filter (fun b => bool_decide (k ∈ block_seen b)) blocks))%nat.
Proof.
  induction blocks as [|b bs IH]; intros c k; cbn [foldl List.filter].
  - simpl. lia.
  - rewrite IH, counter_incr_fold. destruct (bool_decide (k ∈ block_seen b)); simpl; lia.
Qed.

Lemma repeated_spec (counter : gmap str nat) k :
  k ∈ dom (filter (fun kv : str * nat => (1 < snd kv)%nat) counter)
  <-> (1 < default O (counter !! k))%nat.
Proof.
  rewrite elem_of_dom. unfold is_Some. split.
  - intros [v Hv]. apply map_lookup_filter_Some in Hv. destruct Hv as [-> Hv]. exact Hv.
  - intros H. destruct (counter !! k) as [v|] eqn:E; simpl in H; [|lia].
    exists v. apply map_lookup_filter_Some. split; assumption.
Qed.

Lemma seen_filter_trimmed k blocks :
  well_formed_blocks blocks ->
  length (List.filter (fun b => bool_decide (k ∈ block_seen b)) blocks)
  = if short_line k then blocks_with k blocks else O.
Proof.
  unfold blocks_with. induction 1 as [|b bs [_ Hb] _ IH]; cbn [List.filter].
  - destruct (short_line k); reflexivity.
  - assert (E : bool_decide (k ∈ block_seen b) = short_line k && bool_decide (k ∈ b)).
    { apply eq_true_iff_eq. rewrite andb_true_iff, !bool_decide_eq_true, block_seen_spec.
      rewrite (map_strip_trimmed b Hb), list_elem_of_In. tauto. }
    rewrite E. destruct (short_line k); simpl in *; [|exact IH].
    destruct (bool_decide (k ∈ b)); simpl; rewrite IH; reflexivity.
Qed.

(** The set [repeated] holds the candidates. *)
Lemma repeated_candidate blocks k :
  well_formed_blocks blocks ->
  k ∈ dom (filter (fun kv : str * nat => (1 < snd kv)%nat) (count_blocks blocks))
  <-> candidate blocks k = true.
Proof.
  intros Hwf. rewrite repeated_spec. unfold count_blocks. rewrite count_blocks_fold.
  rewrite lookup_empty. change (default O (@None nat)) with O.
  rewrite (seen_filter_trimmed k blocks Hwf).
  unfold candidate. destruct (short_line k); cbn [andb].
  - rewrite Nat.leb_le. lia.
  - split; [lia|discriminate].
Qed.

Lemma clean_block_spec (repeated : gset str) (cand : str -> bool) :
  (forall k, cand k = bool_decide (k ∈ repeated)) ->
  forall block new_block (removed earlier : gset str),
    Forall trimmed block ->
    (forall k, k ∈ removed <-> k ∈ repeated /\ k ∈ earlier) ->
    exists removed' : gset str,
      foldl (fun '(new_block, removed) ln =>
               let key := strip ln in
               if bool_decide (key ∈ repeated)
               then if bool_decide (key ∈ removed)
                    then (new_block, removed)
                    else (new_block ++ [ln], {[key]} ∪ removed)
               else (new_block ++ [ln], removed))
            (new_block, removed) block
      = (new_block ++ keep_first cand earlier block, removed')
      /\ (forall k, k ∈ removed' <-> k ∈ repeated /\ k ∈ list_to_set block ∪ earlier).
Proof.
  intros Hcand. induction block as [|ln rest IH]; intros new_block removed earlier Ht Hinv.
  - exists removed. cbn [foldl keep_first]. rewrite app_nil_r. split; [reflexivity|].
    intros k. rewrite Hinv. set_solver.
  - inversion Ht as [|? ? Hln Hrest]; subst. cbn [foldl keep_first]. cbn zeta.
    rewrite Hln, Hcand.
    destruct (bool_decide (ln ∈ repeated)) eqn:Er.
    + apply bool_decide_eq_true in Er.
      destruct (bool_decide (ln ∈ removed)) eqn:Em.
      * apply bool_decide_eq_true in Em. rewrite bool_decide_true by (apply Hinv; exact Em).
        cbn [andb].
        destruct (IH new_block removed ({[ln]} ∪ earlier) Hrest) as (r' & H1 & H2).
        { intros k. rewrite Hinv. apply Hinv in Em. set_solver. }
        exists r'. split; [exact H1|]. intros k. rewrite H2. set_solver.
      * apply bool_decide_eq_false in Em.
        rewrite bool_decide_false by (intros Hin; apply Em, Hinv; split; assumption).
        cbn [andb].
        destruct (IH (new_block ++ [ln]) ({[ln]} ∪ removed) ({[ln]} ∪ earlier) Hrest)
          as (r' & H1 & H2).
        { intros k. rewrite elem_of_union, Hinv. set_solver. }
        exists r'. rewrite <- app_assoc in H1. split; [exact H1|].
        intros k. rewrite H2. set_solver.
    + apply bool_decide_eq_false in Er. cbn [andb].
      destruct (IH (new_block ++ [ln]) removed ({[ln]} ∪ earlier) Hrest) as (r' & H1 & H2).
      { intros k. rewrite Hinv. set_solver. }
      exists r'. rewrite <- app_assoc in H1. split; [exact H1|].
      intros k. rewrite H2. set_solver.
Qed.

Lemma clean_blocks_spec (repeated : gset str) (cand : str -> bool) :
  (forall k, cand k = bool_decide (k ∈ repeated)) ->
  forall blocks cleaned (removed earlier : gset str),
    well_formed_blocks blocks ->
    (forall k, k ∈ removed <-> k ∈ repeated /\ k ∈ earlier) ->
    fst (foldl (fun '(cleaned, removed) block =>
                  let '(new_block, removed) := clean_block repeated removed block in
                  (if truthy new_block then cleaned ++ [new_block] else cleaned, removed))
               (cleaned, removed) blocks)
    = cleaned ++ filter_blocks cand earlier blocks.
Proof.
  intros Hcand. induction blocks as [|b bs IH]; intros cleaned removed earlier Hwf Hinv.
  - simpl. rewrite app_nil_r. reflexivity.
  - inversion Hwf as [|? ? [_ Hb] Hbs]; subst. cbn [foldl filter_blocks].
    destruct (clean_block_spec repeated cand Hcand b [] removed earlier Hb Hinv)
      as (r' & H1 & H2).
    assert (H1' : clean_block repeated removed b = (keep_first cand earlier b, r'))
      by exact H1.
    cbn beta iota. rewrite H1'.
    rewrite (IH _ r' (list_to_set b ∪ earlier) Hbs H2).
    destruct (truthy (keep_first cand earlier b)); [rewrite <- app_assoc|]; reflexivity.
Qed.

Lemma keep_first_none cand : (forall k, cand k = false) ->
  forall block earlier, keep_first cand earlier block = block.
Proof.
  intros Hc. induction block as [|ln rest IH]; intros earlier; simpl; [reflexivity|].
  rewrite Hc, IH. reflexivity.
Qed.

Lemma filter_blocks_none cand : (forall k, cand k = false) ->
  forall blocks earlier, Forall (fun b : list str => b <> []) blocks ->
  filter_blocks cand earlier blocks = blocks.
Proof.
  intros Hc. induction blocks as [|b bs IH]; intros earlier Hne; simpl; [reflexivity|].
  inversion Hne as [|? ? Hb Hbs]; subst. rewrite (keep_first_none cand Hc), IH by exact Hbs.
  destruct b; [contradiction|reflexivity].
Qed.

(** The filter is the removal policy. *)
Lemma remove_repeated_spec blocks :
  well_formed_blocks blocks ->
  remove_repeated_header_footer blocks = filter_blocks (candidate blocks) ∅ blocks.
Proof.
  intros Hwf. unfold remove_repeated_header_footer. cbn zeta.
  set (repeated := dom (filter (fun kv : str * nat => (1 < snd kv)%nat) (count_blocks blocks))).
  assert (Hcand : forall k, candidate blocks k = bool_decide (k ∈ repeated)).
  { intros k. apply eq_true_iff_eq. rewrite bool_decide_eq_true. symmetry.
    apply repeated_candidate. exact Hwf. }
  destruct (bool_decide (repeated = ∅)) eqn:E.
  - apply bool_decide_eq_true in E. symmetry. apply filter_blocks_none.
    + intros k. rewrite Hcand, E. apply bool_decide_false, not_elem_of_empty.
    + eapply Forall_impl; [exact Hwf|]. simpl. tauto.
  - unfold clean_blocks.
    rewrite (clean_blocks_spec repeated (candidate blocks) Hcand blocks [] ∅ ∅ Hwf); [reflexivity|].
    intros k. set_solver.
Qed.

(** What is kept *)

Lemma keep_first_app cand : forall a b (earlier : gset str),
  keep_first cand earlier (a ++ b)
  = keep_first cand earlier a ++ keep_first cand (list_to_set a ∪ earlier) b.
Proof.
  induction a as [|ln a IH]; intros b earlier; simpl.
  - f_equal. set_solver.
  - rewrite IH. replace (list_to_set a ∪ ({[ln]} ∪ earlier))
      with ({[ln]} ∪ list_to_set a ∪ earlier) by set_solver.
    destruct (cand ln && _); reflexivity.
Qed.

Lemma filter_blocks_concat cand : forall blocks (earlier : gset str),
  concat (filter_blocks cand earlier blocks) = keep_first cand earlier (concat blocks).
Proof.
  induction blocks as [|b bs IH]; intros earlier; simpl; [reflexivity|].
  rewrite concat_app, IH, keep_first_app.
  destruct (keep_first cand earlier b); simpl; rewrite ?app_nil_r; reflexivity.
Qed.

Lemma occurrences_cons k x l :
  occurrences k (x :: l) = ((if str_eq x k then 1 else 0) + occurrences k l)%nat.
Proof. unfold occurrences. simpl. destruct (str_eq x k); reflexivity. Qed.

Lemma occurrences_pos k l : In k l <-> (0 < occurrences k l)%nat.
Proof.
  induction l as [|x l IH]; [simpl; unfold occurrences; simpl; split; [tauto|lia]|].
  rewrite occurrences_cons. simpl. unfold str_eq.
  destruct (bool_decide (x = k)) eqn:E.
  - apply bool_decide_eq_true in E. split; [lia|]. intros _. left. exact E.
  - apply bool_decide_eq_false in E. rewrite IH. simpl. split; [|tauto].
    intros [H|H]; [contradiction|exact H].
Qed.

Lemma keep_first_occurrences cand k : forall l (earlier : gset str),
  occurrences k (keep_first cand earlier l)
  = if cand k
    then (if bool_decide (k ∈ earlier) then O else Nat.min 1 (occurrences k l))
    else occurrences k l.
Proof.
  induction l as [|x l IH]; intros earlier.
  - simpl. unfold occurrences. simpl.
    destruct (cand k); [destruct (bool_decide (k ∈ earlier))|]; reflexivity.
  - cbn [keep_first]. rewrite (occurrences_cons k x l). unfold str_eq.
    destruct (bool_decide (x = k)) eqn:E.
    + apply bool_decide_eq_true in E. subst x.
      destruct (cand k) eqn:Ec; cbn [andb].
      * destruct (bool_decide (k ∈ earlier)) eqn:Ee.
        -- rewrite IH. rewrite bool_decide_true by set_solver. reflexivity.
        -- rewrite occurrences_cons, IH. unfold str_eq.
           rewrite !bool_decide_true by set_solver. simpl. reflexivity.
      * rewrite occurrences_cons, IH. unfold str_eq.
        rewrite bool_decide_true by reflexivity. reflexivity.
    + apply bool_decide_eq_false in E.
      assert (Hk : bool_decide (k ∈ {[x]} ∪ earlier) = bool_decide (k ∈ earlier)).
      { apply bool_decide_ext. set_solver. }
      destruct (cand x && bool_decide (x ∈ earlier)).
      * rewrite IH, Hk. reflexivity.
      * rewrite occurrences_cons, IH, Hk. unfold str_eq.
        rewrite bool_decide_false by exact E. reflexivity.
Qed.

Lemma blocks_with_le k : forall blocks,
  (blocks_with k blocks <= occurrences k (concat blocks))%nat.
Proof.
  unfold blocks_with. induction blocks as [|b bs IH]; simpl; [lia|].
  unfold occurrences in *. rewrite List.filter_app, length_app.
  destruct (bool_decide (k ∈ b)) eqn:E; simpl; [|lia].
  apply bool_decide_eq_true in E. apply list_elem_of_In, occurrences_pos in E.
  unfold occurrences in E. lia.
Qed.

End RepetitionFacts.

(** ** What a match is made of *)

Section MatchContents.
Context {U : Unicode}.

Lemma consumed_refl st : consumed st st = [].
Proof. apply consumed_spec. reflexivity. Qed.

Lemma consumed_trans st st1 st' :
  (exists w1, m_before st1 = rev w1 ++ m_before st) ->
  (exists w2, m_before st' = rev w2 ++ m_before st1) ->
  consumed st st' = consumed st st1 ++ consumed st1 st'.
Proof.
  intros [w1 H1] [w2 H2].
  rewrite (consumed_spec st st1 w1 H1), (consumed_spec st1 st' w2 H2).
  apply consumed_spec. rewrite H2, H1, rev_app_distr, <- app_assoc. reflexivity.
Qed.

Lemma rmatch_before r st st' :
  In st' (rmatch r st) -> exists w, m_before st' = rev w ++ m_before st.
Proof. intros H. apply rmatch_consumes in H. destruct H as (w & H & _). eauto. Qed.

Lemma forallb_within (P : char -> Prop) p w :
  (forall c, p c = true -> P c) -> forallb p w = true -> Forall P w.
Proof.
  intros Hp. induction w as [|c w IH]; simpl; intros H; constructor.
  - apply Hp. apply andb_prop in H. tauto.
  - apply IH. apply andb_prop in H. tauto.
Qed.

Lemma rmatch_within P r : classes_within P r ->
  forall st st', In st' (rmatch r st) -> Forall P (consumed st st').
Proof.
  induction 1 as [|p Hp|a b _ IHa _ IHb|a b _ IHa _ IHb|a _ IHa|p lo hi Hp|n a _ IHa| | |];
    intros st st' Hin.
  - simpl in Hin. destruct Hin as [<-|[]]. rewrite consumed_refl. constructor.
  - simpl in Hin. destruct (m_after st) as [|c t] eqn:E; [destruct Hin|].
    destruct (p c) eqn:Ec; [|destruct Hin]. destruct Hin as [<-|[]].
    rewrite (consumed_spec st _ [c]) by reflexivity. constructor; [apply Hp; exact Ec|constructor].
  - rewrite rmatch_cat in Hin. apply in_flat_map in Hin. destruct Hin as (st1 & H1 & H2).
    rewrite (consumed_trans st st1 st') by (eapply rmatch_before; eassumption).
    apply Forall_app. split; [apply IHa|apply IHb]; assumption.
  - simpl in Hin. apply in_app_or in Hin. destruct Hin; [apply IHa|apply IHb]; assumption.
  - simpl in Hin. apply in_app_or in Hin. destruct Hin as [Hin|[<-|[]]]; [apply IHa; exact Hin|].
    rewrite consumed_refl. constructor.
  - simpl in Hin. apply in_map_iff in Hin. destruct Hin as ([b a] & <- & Hin).
    apply rep_run_consumes in Hin. destruct Hin as (w & -> & _ & Hw & _).
    rewrite (consumed_spec st _ w) by reflexivity. eapply forallb_within; eassumption.
  - simpl in Hin. apply in_map_iff in Hin. destruct Hin as (st1 & <- & Hin).
    apply (IHa st st1 Hin).
  - simpl in Hin. destruct (at_word_boundary st); [|destruct Hin].
    destruct Hin as [<-|[]]. rewrite consumed_refl. constructor.
  - simpl in Hin. destruct (m_before st) eqn:E; [|destruct Hin].
    destruct Hin as [<-|[]]. rewrite consumed_refl. constructor.
  - assert (st' = st) as ->; [|rewrite consumed_refl; constructor].
    simpl in Hin. destruct (m_after st) as [|c [|c' t]]; try (destruct Hin as [H|[]]; congruence);
      try (destruct Hin).
    destruct (c =? c_nl); [destruct Hin as [H|[]]; congruence|destruct Hin].
Qed.

Lemma rmatch_must P r : must_consume P r ->
  forall st st', In st' (rmatch r st) -> Exists P (consumed st st').
Proof.
  induction 1 as [p Hp|a b _ IHa|a b _ IHb|a b _ IHa _ IHb|p lo hi Hlo Hp|n a _ IHa];
    intros st st' Hin.
  - simpl in Hin. destruct (m_after st) as [|c t] eqn:E; [destruct Hin|].
    destruct (p c) eqn:Ec; [|destruct Hin]. destruct Hin as [<-|[]].
    rewrite (consumed_spec st _ [c]) by reflexivity. left. apply Hp. exact Ec.
  - rewrite rmatch_cat in Hin. apply in_flat_map in Hin. destruct Hin as (st1 & H1 & H2).
    rewrite (consumed_trans st st1 st') by (eapply rmatch_before; eassumption).
    apply Exists_app. left. apply IHa. exact H1.
  - rewrite rmatch_cat in Hin. apply in_flat_map in Hin. destruct Hin as (st1 & H1 & H2).
    rewrite (consumed_trans st st1 st') by (eapply rmatch_before; eassumption).
    apply Exists_app. right. apply IHb. exact H2.
  - simpl in Hin. apply in_app_or in Hin. destruct Hin; [apply IHa|apply IHb]; assumption.
  - simpl in Hin. apply in_map_iff in Hin. destruct Hin as ([b a] & <- & Hin).
    apply rep_run_consumes in Hin. destruct Hin as (w & -> & _ & Hw & Hn).
    rewrite (consumed_spec st _ w) by reflexivity.
    destruct w as [|c w]; [simpl in Hn; lia|]. left. apply Hp.
    simpl in Hw. apply andb_prop in Hw. tauto.
  - simpl in Hin. apply in_map_iff in Hin. destruct Hin as (st1 & <- & Hin).
    apply (IHa st st1 Hin).
Qed.

Lemma match_at_in r bef aft mo :
  match_at r bef aft = Some mo -> In (mo_end mo) (rmatch r (mo_start mo)).
Proof.
  unfold match_at. destruct (rmatch r _) as [|st' l] eqn:E; [discriminate|].
  intros [= <-]. simpl. rewrite E. left. reflexivity.
Qed.

Lemma search_from_some r : forall aft bef mo,
  search_from r bef aft = Some mo -> exists bef' aft', match_at r bef' aft' = Some mo.
Proof.
  induction aft as [|c t IH]; intros bef mo; simpl.
  - destruct (match_at r bef []) eqn:E; [|discriminate]. intros [= <-]. eauto.
  - destruct (match_at r bef (c :: t)) eqn:E; [intros [= <-]; eauto|]. apply IH.
Qed.

Lemma search_from_none r : forall aft bef,
  search_from r bef aft = None -> no_match_in r bef aft.
Proof.
  induction aft as [|c t IH]; intros bef; simpl.
  - destruct (match_at r bef []) eqn:E; [discriminate|]. intros _ pre post Hp.
    symmetry in Hp. apply app_eq_nil in Hp. destruct Hp as [-> ->]. exact E.
  - destruct (match_at r bef (c :: t)) eqn:E; [discriminate|]. intros H pre post Hp.
    destruct pre as [|x pre]; simpl in Hp.
    + subst post. exact E.
    + injection Hp as <- ->. simpl. rewrite <- app_assoc. apply (IH (c :: bef) H pre post).
      reflexivity.
Qed.

(** Every match a scan reports is a match of the pattern somewhere. *)
Lemma scan_matches r : forall aft skip bef gap gm,
  In gm (fst (scan r skip bef gap aft)) ->
  exists bef' aft', match_at r bef' aft' = Some (snd gm).
Proof.
  induction aft as [|c t IH]; intros skip bef gap gm; destruct skip; cbn [scan].
  - destruct (match_at r bef []) eqn:E; simpl; [|tauto]. intros [<-|[]]. simpl. eauto.
  - simpl. tauto.
  - destruct (match_at r bef (c :: t)) as [mo|] eqn:E.
    + destruct (length (group0 mo)); simpl; (intros [<-|H]; [simpl; eauto|eapply IH; exact H]).
    + apply IH.
  - apply IH.
Qed.

Lemma findall_no_match r s : re_search r s = None -> fst (finditer r s) = [].
Proof.
  intros H. unfold finditer. rewrite scan_no_match; [reflexivity|].
  apply search_from_none. exact H.
Qed.

(** A character that no match can pass over ends up in one of the parts of
    [re.split]. *)
Lemma split_keeps r (P : char -> Prop) s d :
  classes_within P r -> In d s -> ~ P d ->
  exists part, In part (re_split r s) /\ In d part.
Proof.
  intros Hr Hd HP. unfold re_split.
  pose proof (finditer_reconstruct r s) as Hrec.
  pose proof (scan_matches r s O [] []) as Hm. fold (finditer r s) in Hm.
  destruct (finditer r s) as [ms tail]. unfold render in Hrec. simpl in Hrec, Hm.
  rewrite <- Hrec in Hd. apply in_app_or in Hd. destruct Hd as [Hd|Hd].
  - apply in_concat in Hd. destruct Hd as (x & Hx & Hdx).
    apply in_map_iff in Hx. destruct Hx as ([g mo] & <- & Hgm). simpl in Hdx.
    apply in_app_or in Hdx. destruct Hdx as [Hdx|Hdx].
    + exists g. split; [|exact Hdx]. apply in_or_app. left.
      apply in_map_iff. exists (g, mo). split; [reflexivity|exact Hgm].
    + exfalso. apply HP. destruct (Hm _ Hgm) as (bef' & aft' & Hmo). simpl in Hmo.
      apply match_at_in in Hmo.
      pose proof (rmatch_within P r Hr _ _ Hmo) as Hw. rewrite List.Forall_forall in Hw.
      apply Hw. exact Hdx.
  - exists tail. split; [|exact Hd]. apply in_or_app. right. left. reflexivity.
Qed.

Lemma dropwhile_keeps p d : forall l, In d l -> p d = false -> In d (dropwhile p l).
Proof.
  induction l as [|c l IH]; simpl; [tauto|]. intros [->|H] Hd.
  - rewrite Hd. left. reflexivity.
  - destruct (p c); [apply IH; assumption|right; exact H].
Qed.

Lemma strip_keeps s d : In d s -> u_isspace d = false -> truthy (strip s) = true.
Proof.
  intros Hd Hs. assert (H : In d (strip s)).
  { unfold strip, strip_by, rstrip_by, lstrip_by. apply in_rev. rewrite rev_involutive.
    apply dropwhile_keeps; [|exact Hs]. apply -> in_rev. apply dropwhile_keeps; assumption. }
  destruct (strip s); [destruct H|reflexivity].
Qed.

End MatchContents.

(** ** The experience and education parsers return *)

Section ParserTotality.
Context {U : Unicode}.

Lemma any_first_isupper_total ws :
  Forall (fun w : str => w <> []) ws -> is_Some (any_first_isupper ws).
Proof.
  induction 1 as [|w ws Hw _ IH]; simpl; [eauto|].
  destruct w as [|c w]; [contradiction|]. simpl. destruct (u_isupper c); [eauto|exact IH].
Qed.

Lemma is_header_like_total line : is_Some (_is_header_like line).
Proof.
  unfold _is_header_like. destruct (negb _); [eauto|]. destruct (bool_decide _); [eauto|].
  destruct (_ || _); [eauto|]. destruct (_ && _); [|eauto].
  destruct (str_eq _ _); [eauto|]. apply any_first_isupper_total, split_ws_nonempty.
Qed.

Lemma date_re_must : must_consume is_decimal DATE_RE.
Proof.
  unfold DATE_RE. cbn [cats]. apply mc_cat_l, mc_alt.
  - do 3 apply mc_cat_r. apply mc_rep; [lia|]. intros c Hc. exact Hc.
  - apply mc_cat_r, mc_cat_l. apply mc_rep; [lia|]. intros c Hc. exact Hc.
Qed.

Lemma date_split_within : classes_within is_date_separator date_split_re.
Proof.
  unfold date_split_re. apply cw_alt.
  - apply cw_cls. intros c Hc. left. exact Hc.
  - cbn [cats]. apply cw_cat; [constructor|]. apply cw_cat; [|constructor].
    change (lit_i (py "to")) with (Cat (chr_i 116) (chr_i 111)).
    apply cw_cat; apply cw_cls; intros c Hc; [right; left|right; right]; exact Hc.
Qed.

Lemma decimal_not_separator d : is_decimal d -> ~ is_date_separator d.
Proof.
  unfold is_decimal, is_date_separator. intros Hd [H|[H|H]].
  - assert (Hc : char_in [45; 8211; 8212; 116; 111] d = true).
    { unfold char_in, c_hyphen, c_en_dash, c_em_dash in *. simpl in *.
      rewrite !orb_false_r in H.
      apply orb_prop in H. destruct H as [->|H]; [reflexivity|].
      apply orb_prop in H. destruct H as [-> | ->]; rewrite ?orb_true_r; reflexivity. }
    apply u_not_decimal in Hc. congruence.
  - apply (u_decimal_caseless d 116 Hd) in H. subst d.
    rewrite (u_not_decimal 116) in Hd by reflexivity. discriminate.
  - apply (u_decimal_caseless d 111 Hd) in H. subst d.
    rewrite (u_not_decimal 111) in Hd by reflexivity. discriminate.
Qed.

(** A date range has a digit, and the digit is in one of the parts the
    range is split into: the list of parts is never empty. *)
Lemma date_parts_nonempty line m :
  re_search DATE_RE line = Some m ->
  List.filter (fun p => truthy (strip p)) (re_split date_split_re (group0 m)) <> [].
Proof.
  intros Hs. apply search_from_some in Hs. destruct Hs as (bef & aft & Hm).
  apply match_at_in in Hm. apply (rmatch_must is_decimal DATE_RE date_re_must) in Hm.
  fold (group0 m) in Hm. apply List.Exists_exists in Hm. destruct Hm as (d & Hd & Hdec).
  destruct (split_keeps date_split_re is_date_separator (group0 m) d date_split_within Hd
              (decimal_not_separator d Hdec)) as (part & Hp & Hdp).
  assert (Hin : In part (List.filter (fun p => truthy (strip p))
                                     (re_split date_split_re (group0 m)))).
  { apply filter_In. split; [exact Hp|]. apply (strip_keeps part d Hdp).
    apply u_decimal_not_space. exact Hdec. }
  intros E. rewrite E in Hin. destruct Hin.
Qed.

Lemma extract_dates_total line : is_Some (_extract_dates_from_line line).
Proof.
  unfold _extract_dates_from_line. destruct (re_search DATE_RE line) as [m|] eqn:E; [|eauto].
  pose proof (date_parts_nonempty line m E) as Hne. cbn zeta.
  destruct (List.filter _ _) as [|p0 [|p1 ps]]; [contradiction| |]; simpl; eauto.
Qed.

Lemma split_once_two x : x <> [] -> forall s cur,
  contains s x = true -> exists a b, split_once_aux x cur s = [a; b].
Proof.
  intros Hx. induction s as [|c t IH]; intros cur; cbn [contains split_once_aux].
  - destruct x; [contradiction|]. discriminate.
  - destruct (startswith (c :: t) x) eqn:E; cbn [orb]; [eauto|]. apply IH.
Qed.

Lemma at_least_two {A} (l : list A) :
  (2 <=? length l)%nat = true -> exists a b t, l = a :: b :: t.
Proof. destruct l as [|a [|b t]]; simpl; try discriminate. eauto. Qed.

Lemma split_title_company_total header : is_Some (split_title_company header).
Proof.
  unfold split_title_company. destruct (contains header (py "@")) eqn:E1.
  - destruct (split_once_two (py "@") ltac:(discriminate) header [] E1) as (a & b & H).
    unfold split_once. rewrite H. simpl. eauto.
  - destruct (contains (u_lower header) (py " at ")).
    + destruct (2 <=? _)%nat eqn:E2; [|eauto].
      apply at_least_two in E2. destruct E2 as (a & b & t & ->). simpl. eauto.
    + cbn zeta. destruct (2 <=? _)%nat eqn:E2; [|eauto].
      apply at_least_two in E2. destruct E2 as (a & b & t & ->). simpl. eauto.
Qed.

Lemma collect_header_total : forall lines header,
  exists h rest pre, collect_header header lines = Some (h, rest) /\ lines = pre ++ rest.
Proof.
  induction lines as [|l lines IH]; intros header; cbn [collect_header].
  - exists header, [], []. split; reflexivity.
  - destruct (starts_with_bullet (strip l)); [exists header, (l :: lines), []; split; reflexivity|].
    destruct (is_header_like_total l) as [b ->]. cbn [mbind option_bind].
    destruct b; [exists header, (l :: lines), []; split; reflexivity|].
    destruct (_ <=? 8)%nat; [|exists header, (l :: lines), []; split; reflexivity].
    destruct (IH (header ++ py " | " ++ strip l)) as (h & rest & pre & H1 & H2).
    exists h, rest, (l :: pre). split; [exact H1|]. simpl. rewrite <- H2. reflexivity.
Qed.

Lemma collect_bullets_total : forall lines bullets,
  exists bs rest pre, collect_bullets bullets lines = Some (bs, rest) /\ lines = pre ++ rest.
Proof.
  induction lines as [|l lines IH]; intros bullets; cbn [collect_bullets].
  - exists bullets, [], []. split; reflexivity.
  - destruct (is_header_like_total l) as [b ->]. cbn [mbind option_bind].
    destruct b; [exists bullets, (l :: lines), []; split; reflexivity|].
    assert (Hk : forall bs', exists bs rest pre,
               collect_bullets bs' lines = Some (bs, rest) /\ l :: lines = pre ++ rest).
    { intros bs'. destruct (IH bs') as (bs & rest & pre & H1 & H2).
      exists bs, rest, (l :: pre). split; [exact H1|]. simpl. rewrite <- H2. reflexivity. }
    cbn zeta. destruct (strip l) as [|c s]; [apply Hk|].
    destruct (char_in bullet_marks c); [apply Hk|]. destruct (_ <=? 30)%nat; apply Hk.
Qed.

Lemma collect_buffer_total : forall lines buffer,
  exists bs rest pre, collect_buffer buffer lines = Some (bs, rest) /\ lines = pre ++ rest
    /\ (match lines with l :: _ => _is_header_like l = Some false -> pre <> [] | [] => True end).
Proof.
  induction lines as [|l lines IH]; intros buffer; cbn [collect_buffer].
  - exists buffer, [], []. repeat split.
  - destruct (is_header_like_total l) as [b Hb]. rewrite Hb. cbn [mbind option_bind].
    destruct b.
    + exists buffer, (l :: lines), []. repeat split. discriminate.
    + destruct (IH (buffer ++ [strip l])) as (bs & rest & pre & H1 & H2 & _).
      exists bs, rest, (l :: pre). split; [exact H1|]. split.
      * simpl. rewrite <- H2. reflexivity.
      * intros _. discriminate.
Qed.

Lemma Forall_suffix {A} (P : A -> Prop) (pre rest : list A) :
  Forall P (pre ++ rest) -> Forall P rest.
Proof. intros H. apply Forall_app in H. tauto. Qed.

(** On trimmed lines every round of the outer loop passes over a line. *)
Lemma experience_loop_total : forall fuel lines entries,
  Forall trimmed lines -> (length lines < fuel)%nat ->
  is_Some (experience_loop fuel lines entries).
Proof.
  induction fuel as [|fuel IH]; intros lines entries Ht Hf; [lia|].
  destruct lines as [|l0 rest]; cbn [experience_loop]; [eauto|].
  inversion Ht as [|? ? Hl0 Hrest]; subst. unfold trimmed in Hl0. rewrite Hl0.
  destruct (is_header_like_total l0) as [b Hb]. rewrite Hb. cbn [mbind option_bind].
  destruct b.
  - destruct (collect_header_total rest l0) as (h & r1 & pre1 & -> & E1).
    cbn [mbind option_bind].
    destruct (collect_bullets_total r1 []) as (bs & r2 & pre2 & -> & E2).
    cbn [mbind option_bind].
    destruct (extract_dates_total h) as [[sd ed] ->]. cbn [mbind option_bind].
    destruct (split_title_company_total h) as [[t c] ->]. cbn [mbind option_bind].
    apply IH.
    + subst rest r1. apply Forall_suffix in Hrest. apply Forall_suffix in Hrest. exact Hrest.
    + subst rest r1. simpl in Hf. rewrite !length_app in Hf. lia.
  - destruct (collect_buffer_total (l0 :: rest) []) as (bs & r1 & pre & -> & E1 & Hp).
    cbn [mbind option_bind]. specialize (Hp Hb). apply IH.
    + rewrite E1 in Ht. apply Forall_suffix in Ht. exact Ht.
    + apply (f_equal (@length _)) in E1. rewrite length_app in E1.
      destruct pre; [contradiction|]. simpl in *. lia.
Qed.

Lemma parse_experience_total lines :
  Forall trimmed lines -> is_Some (parse_experience_section lines).
Proof. intros H. apply experience_loop_total; [exact H|lia]. Qed.

Lemma collect_education_total : forall lines bullets,
  exists bs rest, collect_education bullets lines = Some (bs, rest)
                  /\ (length rest <= length lines)%nat.
Proof.
  induction lines as [|l lines IH]; intros bullets; cbn [collect_education].
  - exists bullets, []. split; [reflexivity|lia].
  - destruct (_ <=? 12)%nat; [|exists bullets, (l :: lines); split; [reflexivity|lia]].
    destruct (is_header_like_total l) as [b ->]. cbn [mbind option_bind].
    destruct b; [exists bullets, (l :: lines); split; [reflexivity|lia]|].
    cbn zeta.
    match goal with |- context [collect_education ?b lines] =>
      destruct (IH b) as (bs & rest & H1 & H2) end.
    exists bs, rest. split; [exact H1|]. simpl. lia.
Qed.

Lemma split_degree_institute_total header : is_Some (split_degree_institute header).
Proof.
  unfold split_degree_institute. cbn zeta. destruct (2 <=? _)%nat eqn:E2.
  - apply at_least_two in E2. destruct E2 as (a & b & t & ->). simpl. eauto.
  - destruct (contains header (py " - ")) eqn:E1; [|eauto].
    destruct (split_once_two (py " - ") ltac:(discriminate) header [] E1) as (a & b & H).
    unfold split_once. rewrite H. simpl. eauto.
Qed.

Lemma education_loop_total : forall fuel lines entries,
  (length lines < fuel)%nat -> is_Some (education_loop fuel lines entries).
Proof.
  induction fuel as [|fuel IH]; intros lines entries Hf; [lia|].
  destruct lines as [|l0 rest]; cbn [education_loop]; [eauto|].
  destruct (negb (truthy (strip l0))); [apply IH; simpl in Hf; lia|].
  cbn zeta. destruct (collect_education_total rest []) as (bs & r1 & -> & Hl).
  cbn [mbind option_bind].
  destruct (split_degree_institute_total (strip l0)) as [[d i] ->]. cbn [mbind option_bind].
  apply IH. simpl in Hf. lia.
Qed.

Lemma parse_education_total lines : is_Some (parse_education_section lines).
Proof. apply education_loop_total. lia. Qed.

Lemma parse_projects_total lines : is_Some (parse_projects_section lines).
Proof.
  destruct (projects_loop_chunks (S (length lines)) lines []) as (chunks & H & _); [lia|].
  unfold parse_projects_section. rewrite H. eauto.
Qed.

End ParserTotality.

(** ** The orchestrator *)

Section OrchestratorFacts.
Context {U : Unicode}.

Lemma preprocess_well_formed s : well_formed_blocks (fst (preprocess_text_into_blocks s)).
Proof.
  unfold preprocess_text_into_blocks, well_formed_blocks. cbn [fst].
  apply List.Forall_forall. intros b Hb. apply filter_In in Hb. destruct Hb as [Hb Hne].
  split; [destruct b; [discriminate|discriminate]|].
  apply in_map_iff in Hb. destruct Hb as (raw & <- & _).
  apply List.Forall_forall. intros ln Hln. apply in_map_iff in Hln.
  destruct Hln as (x & <- & _). apply strip_idempotent.
Qed.

Lemma keep_first_subset cand : forall l (earlier : gset str) x,
  In x (keep_first cand earlier l) -> In x l.
Proof.
  induction l as [|y l IH]; intros earlier x; simpl; [tauto|].
  destruct (cand y && _); simpl; [|intros [H|H]; [left; exact H|]]; intros; right;
    eapply IH; eassumption.
Qed.

Lemma working_lines_trimmed s : Forall trimmed (working_lines s).
Proof.
  unfold working_lines.
  pose proof (preprocess_well_formed (normalize s)) as Hwf.
  rewrite (remove_repeated_spec _ Hwf), filter_blocks_concat.
  apply List.Forall_forall. intros x Hx. apply keep_first_subset in Hx.
  apply in_concat in Hx. destruct Hx as (b & Hb & Hxb).
  unfold well_formed_blocks in Hwf. rewrite List.Forall_forall in Hwf.
  destruct (Hwf b Hb) as [_ Ht]. rewrite List.Forall_forall in Ht. apply Ht. exact Hxb.
Qed.

Lemma dict_get_in k : forall (d : list (str * list str)) v,
  dict_get k d = Some v -> exists k', In (k', v) d.
Proof.
  induction d as [|[k' v'] d IH]; intros v; simpl; [discriminate|].
  destruct (str_eq k' k); [intros [= <-]; eauto|].
  intros H. destruct (IH v H) as [k'' Hk]. eauto.
Qed.

Lemma section_lines_trimmed lines k v :
  Forall trimmed lines -> dict_get k (segment_sections lines) = Some v -> Forall trimmed v.
Proof.
  intros Ht Hv. apply dict_get_in in Hv. destruct Hv as [k' Hin].
  pose proof (segment_sections_sublist lines) as Hs.
  rewrite List.Forall_forall in Hs. destruct (Hs _ Hin) as [Hsub _]. simpl in Hsub.
  apply sublist_subseteq in Hsub. apply List.Forall_forall. intros x Hx.
  rewrite List.Forall_forall in Ht. apply Ht. apply list_elem_of_In, Hsub, list_elem_of_In. exact Hx.
Qed.

Lemma parse_if_present_total {A} k sections (f : list str -> option A) dflt :
  (forall v, dict_get k sections = Some v -> is_Some (f v)) ->
  is_Some (parse_if_present k sections f dflt).
Proof.
  intros Hf. unfold parse_if_present, dict_mem.
  destruct (dict_get k sections) as [v|] eqn:E.
  - rewrite bool_decide_true by eauto. simpl. apply Hf. reflexivity.
  - rewrite bool_decide_false by (intros [? ?]; discriminate). eauto.
Qed.

Lemma collect_other_total sections : forall ks other,
  is_Some (collect_other ks sections other).
Proof.
  induction ks as [|k ks IH]; intros other; simpl; [eauto|]. unfold dict_mem.
  destruct (dict_get k sections) as [v|] eqn:E.
  - rewrite bool_decide_true by eauto. simpl. apply IH.
  - rewrite bool_decide_false by (intros [? ?]; discriminate). apply IH.
Qed.

(** The top-level parser returns on every text. *)
Lemma parse_resume_text_returns s :
  exists r, parse_resume_text s = Some r /\ r_lines r = working_lines s.
Proof.
  unfold parse_resume_text. fold (normalize s).
  destruct (preprocess_text_into_blocks (normalize s)) as [blocks flat] eqn:Ep.
  assert (Hw : concat (remove_repeated_header_footer blocks) = working_lines s).
  { unfold working_lines. rewrite Ep. reflexivity. }
  rewrite Hw.
  destruct (extract_header_info_filter (working_lines s)) as (name & contact & ->).
  cbn [mbind option_bind].
  set (remaining := List.filter _ (working_lines s)).
  assert (Ht : Forall trimmed remaining).
  { apply List.Forall_forall. intros x Hx. apply filter_In in Hx. destruct Hx as [Hx _].
    pose proof (working_lines_trimmed s) as H. rewrite List.Forall_forall in H. apply H, Hx. }
  destruct (parse_if_present_total (py "experience") (segment_sections remaining)
              parse_experience_section []) as [e ->].
  { intros v Hv. apply parse_experience_total. eapply section_lines_trimmed; eassumption. }
  cbn [mbind option_bind].
  destruct (parse_if_present_total (py "projects") (segment_sections remaining)
              parse_projects_section []) as [p ->].
  { intros v _. apply parse_projects_total. }
  cbn [mbind option_bind].
  destruct (parse_if_present_total (py "education") (segment_sections remaining)
              parse_education_section []) as [d ->].
  { intros v _. apply parse_education_total. }
  cbn [mbind option_bind].
  destruct (parse_if_present_total (py "skills") (segment_sections remaining)
              (fun v => Some (parse_skills_section v)) []) as [k ->].
  { intros v _. eauto. }
  cbn [mbind option_bind].
  destruct (collect_other_total (segment_sections remaining)
              [py "certifications"; py "awards"; py "summary"] []) as [o ->].
  cbn [mbind option_bind]. eexists. split; reflexivity.
Qed.

(** Nothing found *)

Lemma quiet_findall r ln :
  bool_decide (is_Some (re_search r ln)) = false -> fst (finditer r ln) = [].
Proof.
  intros H. apply findall_no_match. apply bool_decide_eq_false in H.
  destruct (re_search r ln); [exfalso; apply H; eauto|reflexivity].
Qed.

Lemma scan_window_quiet : forall block c i,
  Forall quiet block ->
  scan_window (ScanState c None None) i block = Some (ScanState c None None).
Proof.
  induction block as [|ln rest IH]; intros c i Hq; cbn [scan_window]; [reflexivity|].
  inversion Hq as [|? ? [Hc Hl] Hrest]; subst. unfold scan_line. cbn [sc_name sc_contact].
  unfold has_contact in Hc. apply orb_false_elim in Hc. destruct Hc as [Hc H3].
  apply orb_false_elim in Hc. destruct Hc as [H1 H2].
  unfold re_findall, re_findall_group.
  rewrite (quiet_findall _ _ H1), (quiet_findall _ _ H2), (quiet_findall _ _ H3).
  cbn [List.map foldl]. unfold likely in Hl. apply bool_decide_eq_false in Hl.
  destruct (likely_name_total ln) as [b Hb]. rewrite Hb. cbn [mbind option_bind].
  destruct b; [contradiction|]. destruct c. apply IH. exact Hrest.
Qed.

Lemma extract_header_info_quiet lines :
  Forall quiet (firstn 15 lines) ->
  extract_header_info lines = Some (None, Contact [] [] [], lines).
Proof.
  intros Hq. unfold extract_header_info, extract_header_info_n.
  rewrite scan_window_quiet by exact Hq. cbn [mbind option_bind sc_name_index sc_name sc_contact].
  rewrite contact_fold. do 2 f_equal. apply filter_all.
  apply List.Forall_forall. intros ln _.
  assert (E : List.filter has_contact (firstn 15 lines) = []).
  { clear -Hq. induction Hq as [|x l [Hx _] _ IH]; simpl; [reflexivity|]. rewrite Hx. exact IH. }
  rewrite E. apply negb_true_iff, bool_decide_eq_false. set_solver.
Qed.

Lemma other_section_has_no_key lines k :
  k <> py "other" ->
  dict_mem k (match lines with [] => [] | _ => [(py "other", lines)] end) = false.
Proof.
  intros Hk. unfold dict_mem. apply bool_decide_eq_false. intros [v Hv].
  destruct lines; simpl in Hv; [discriminate|]. unfold str_eq in Hv.
  rewrite bool_decide_false in Hv by congruence. discriminate.
Qed.

Lemma parse_resume_text_quiet s :
  Forall (fun ln => _is_section_header ln = None) (working_lines s) ->
  Forall quiet (firstn 15 (working_lines s)) ->
  exists raw_clean blocks,
    parse_resume_text s
    = Some (ParsedResume s raw_clean None (Contact [] [] []) blocks (working_lines s)
              (match working_lines s with [] => [] | _ => [(py "other", working_lines s)] end)
              [] [] [] [] []).
Proof.
  intros Hh Hq. unfold parse_resume_text. fold (normalize s).
  destruct (preprocess_text_into_blocks (normalize s)) as [blocks flat] eqn:Ep.
  assert (Hw : concat (remove_repeated_header_footer blocks) = working_lines s).
  { unfold working_lines. rewrite Ep. reflexivity. }
  rewrite Hw, (extract_header_info_quiet _ Hq). cbn [mbind option_bind].
  rewrite (segment_sections_other _ Hh).
  unfold parse_if_present. cbn [collect_other].
  rewrite !other_section_has_no_key by discriminate. cbn [mbind option_bind].
  eexists _, _. reflexivity.
Qed.

End OrchestratorFacts.

(** ** The phone list *)

Section PhoneFacts.
Context {U : Unicode}.

Lemma rep_run_bound p lo h : forall aft n bef b a,
  In (b, a) (rep_run p lo (Some h) n bef aft) ->
  exists w, b = rev w ++ bef /\ (n + length w <= Nat.max n h)%nat.
Proof.
  induction aft as [|c t IH]; intros n bef b a; simpl.
  - destruct (lo <=? n)%nat; simpl; [|tauto]. intros [[= <- <-]|[]].
    exists []. simpl. split; [reflexivity|lia].
  - assert (Hhere : In (b, a) (if (lo <=? n)%nat then [(bef, c :: t)] else []) ->
                    exists w, b = rev w ++ bef /\ (n + length w <= Nat.max n h)%nat).
    { destruct (lo <=? n)%nat; simpl; [|tauto]. intros [[= <- <-]|[]].
      exists []. simpl. split; [reflexivity|lia]. }
    destruct (p c && (n <? h)%nat) eqn:E; [|exact Hhere].
    intros H. apply in_app_or in H. destruct H as [H|H]; [|exact (Hhere H)].
    apply IH in H. destruct H as (w & -> & Hw).
    apply andb_prop in E. destruct E as [_ E]. apply Nat.ltb_lt in E.
    exists (c :: w). simpl. rewrite <- app_assoc. split; [reflexivity|lia].
Qed.

Lemma consumed_length st st' w :
  m_before st' = rev w ++ m_before st -> length (consumed st st') = length w.
Proof. intros H. rewrite (consumed_spec st st' w H). reflexivity. Qed.

Lemma rmatch_max_len r : forall k st st',
  max_len r = Some k -> In st' (rmatch r st) -> (length (consumed st st') <= k)%nat.
Proof.
  induction r as [|p|a IHa b IHb|a IHa b IHb|a IHa|p lo hi|n a IHa| | |]; intros k st st' Hk Hin;
    simpl in Hk.
  - simpl in Hin. destruct Hin as [<-|[]]. rewrite consumed_refl. simpl. lia.
  - injection Hk as <-. simpl in Hin. destruct (m_after st) as [|c t]; [destruct Hin|].
    destruct (p c); [|destruct Hin]. destruct Hin as [<-|[]].
    rewrite (consumed_spec st _ [c]) by reflexivity. simpl. lia.
  - destruct (max_len a) as [i|]; [|discriminate]. destruct (max_len b) as [j|]; [|discriminate].
    injection Hk as <-. rewrite rmatch_cat in Hin. apply in_flat_map in Hin.
    destruct Hin as (st1 & H1 & H2).
    rewrite (consumed_trans st st1 st') by (eapply rmatch_before; eassumption).
    rewrite length_app. specialize (IHa i st st1 eq_refl H1).
    specialize (IHb j st1 st' eq_refl H2). lia.
  - destruct (max_len a) as [i|]; [|discriminate]. destruct (max_len b) as [j|]; [|discriminate].
    injection Hk as <-. simpl in Hin. apply in_app_or in Hin. destruct Hin as [H|H].
    + specialize (IHa i st st' eq_refl H). lia.
    + specialize (IHb j st st' eq_refl H). lia.
  - simpl in Hin. apply in_app_or in Hin. destruct Hin as [H|[<-|[]]].
    + apply IHa; assumption.
    + rewrite consumed_refl. simpl. lia.
  - subst hi. simpl in Hin. apply in_map_iff in Hin. destruct Hin as ([b a] & <- & Hin).
    apply rep_run_bound in Hin. destruct Hin as (w & -> & Hw).
    rewrite (consumed_spec st _ w) by reflexivity. simpl in Hw. lia.
  - simpl in Hin. apply in_map_iff in Hin. destruct Hin as (st1 & <- & Hin).
    apply (IHa k st st1 Hk Hin).
  - injection Hk as <-. simpl in Hin. destruct (at_word_boundary st); [|destruct Hin].
    destruct Hin as [<-|[]]. rewrite consumed_refl. simpl. lia.
  - injection Hk as <-. simpl in Hin. destruct (m_before st); [|destruct Hin].
    destruct Hin as [<-|[]]. rewrite consumed_refl. simpl. lia.
  - injection Hk as <-. assert (st' = st) as ->; [|rewrite consumed_refl; simpl; lia].
    simpl in Hin. destruct (m_after st) as [|c [|c' t]]; try (destruct Hin as [H|[]]; congruence);
      try (destruct Hin).
    destruct (c =? c_nl); [destruct Hin as [H|[]]; congruence|destruct Hin].
Qed.

Lemma rmatch_groups_bounded n k r : forall st st',
  groups_bounded n k r = true -> In st' (rmatch r st) ->
  group_short n k st -> group_short n k st'.
Proof.
  induction r as [|p|a IHa b IHb|a IHa b IHb|a IHa|p lo hi|m a IHa| | |]; intros st st' Hb Hin Hst;
    simpl in Hb.
  - simpl in Hin. destruct Hin as [<-|[]]. exact Hst.
  - simpl in Hin. destruct (m_after st) as [|c t]; [destruct Hin|].
    destruct (p c); [|destruct Hin]. destruct Hin as [<-|[]]. exact Hst.
  - apply andb_prop in Hb. destruct Hb as [Ha Hb]. rewrite rmatch_cat in Hin.
    apply in_flat_map in Hin. destruct Hin as (st1 & H1 & H2).
    eapply IHb; [exact Hb|exact H2|]. eapply IHa; eassumption.
  - apply andb_prop in Hb. destruct Hb as [Ha Hb]. simpl in Hin. apply in_app_or in Hin.
    destruct Hin; [eapply IHa|eapply IHb]; eassumption.
  - simpl in Hin. apply in_app_or in Hin. destruct Hin as [H|[<-|[]]]; [|exact Hst].
    eapply IHa; eassumption.
  - simpl in Hin. apply in_map_iff in Hin. destruct Hin as ([b a] & <- & _). exact Hst.
  - apply andb_prop in Hb. destruct Hb as [Ha Hm]. simpl in Hin. apply in_map_iff in Hin.
    destruct Hin as (st1 & <- & Hin). intros w. simpl.
    destruct (m =? n)%nat.
    + intros [= <-]. destruct (max_len a) as [j|] eqn:Ej; [|discriminate].
      apply Nat.leb_le in Hm.
      pose proof (rmatch_max_len a j st st1 Ej Hin). lia.
    + apply (IHa st st1 Ha Hin Hst).
  - simpl in Hin. destruct (at_word_boundary st); [|destruct Hin].
    destruct Hin as [<-|[]]. exact Hst.
  - simpl in Hin. destruct (m_before st); [|destruct Hin]. destruct Hin as [<-|[]]. exact Hst.
  - assert (st' = st) as ->; [|exact Hst].
    simpl in Hin. destruct (m_after st) as [|c [|c' t]]; try (destruct Hin as [H|[]]; congruence);
      try (destruct Hin).
    destruct (c =? c_nl); [destruct Hin as [H|[]]; congruence|destruct Hin].
Qed.

(** What [findall] hands the phone loop is the country-code group: at most
    five characters. *)
Lemma phone_group_short ln m :
  In m (re_findall_group phone_re ln) -> (length m <= 5)%nat.
Proof.
  unfold re_findall_group. intros H. apply in_map_iff in H. destruct H as (gm & <- & Hgm).
  unfold finditer in Hgm. apply scan_matches in Hgm. destruct Hgm as (bef & aft & Hm).
  pose proof (match_at_prefix _ _ _ _ Hm) as [Hs _]. apply match_at_in in Hm.
  assert (Hg : group_short 1 5 (mo_end (snd gm))).
  { eapply (rmatch_groups_bounded 1 5 phone_re); [reflexivity|exact Hm|].
    rewrite Hs. intros w. simpl. discriminate. }
  unfold group. destruct (assoc_nat 1 (m_groups (mo_end (snd gm)))) as [w|] eqn:E; simpl.
  - apply Hg. exact E.
  - lia.
Qed.

Lemma render_length repl (sc : list (str * match_obj) * str) :
  (forall mo, repl mo = []) -> (length (render repl sc) <= length (render group0 sc))%nat.
Proof.
  intros Hr. destruct sc as [ms tail]. unfold render. simpl. rewrite !length_app.
  apply Nat.add_le_mono_r. induction ms as [|gm ms IH]; simpl; [lia|].
  rewrite !length_app, Hr. simpl. lia.
Qed.

Lemma digit_count_le s : (digit_count s <= length s)%nat.
Proof.
  unfold digit_count. rewrite re_sub_render.
  rewrite <- (finditer_reconstruct (Cls cls_D) s) at 2. apply render_length. reflexivity.
Qed.

Lemma dropwhile_length p s : (length (dropwhile p s) <= length s)%nat.
Proof.
  destruct (dropwhile_suffix p s) as [pre H]. rewrite H at 2. rewrite length_app. lia.
Qed.

Lemma strip_length s : (length (strip s) <= length s)%nat.
Proof.
  unfold strip, strip_by, rstrip_by, lstrip_by. rewrite length_rev.
  etransitivity; [apply dropwhile_length|]. rewrite length_rev. apply dropwhile_length.
Qed.

Lemma add_phone_short ms :
  Forall (fun m : str => (length m <= 5)%nat) ms -> foldl add_phone [] ms = [].
Proof.
  induction 1 as [|m ms Hm _ IH]; cbn [foldl]; [reflexivity|].
  unfold add_phone at 2. cbn zeta.
  pose proof (digit_count_le (strip m)). pose proof (strip_length m).
  destruct (Nat.leb_spec 7 (digit_count (strip m))); [lia|].
  rewrite andb_false_r. exact IH.
Qed.

Lemma scan_window_no_phone : forall block st i st',
  phones (sc_contact st) = [] -> scan_window st i block = Some st' ->
  phones (sc_contact st') = [].
Proof.
  induction block as [|ln rest IH]; intros st i st' Hp; cbn [scan_window].
  - intros [= <-]. exact Hp.
  - destruct (scan_line st i ln) as [st1|] eqn:E; [|discriminate]. cbn [mbind option_bind].
    apply IH. unfold scan_line in E. rewrite Hp in E.
    rewrite add_phone_short in E
      by (apply List.Forall_forall; intros m Hm; eapply phone_group_short; exact Hm).
    destruct (sc_name st).
    + injection E as <-. reflexivity.
    + destruct (_likely_name ln) as [[|]|]; simpl in E; try discriminate;
        injection E as <-; reflexivity.
Qed.

(** No phone number is ever reported. *)
Lemma extract_header_info_no_phone lines name contact remaining :
  extract_header_info lines = Some (name, contact, remaining) -> phones contact = [].
Proof.
  unfold extract_header_info, extract_header_info_n.
  destruct (scan_window _ O (firstn 15 lines)) as [st|] eqn:E; [|discriminate].
  cbn [mbind option_bind].
  destruct (match sc_name_index st with Some _ => _ | None => _ end); [|discriminate].
  cbn [mbind option_bind]. intros [= _ <- _].
  eapply scan_window_no_phone; [|exact E]. reflexivity.
Qed.

End PhoneFacts.

(** ** A second pass of the normaliser *)

Section SecondPass.
Context {U : Unicode}.















End SecondPass.

(** ** Line breaks and cleaning *)

Section CleaningFacts.
Context {U : Unicode}.

Lemma short_runs_no_triple : forall a s b,
  short_runs s = true -> s <> a ++ [c_nl; c_nl; c_nl] ++ b.
Proof.
  induction a as [|x a IH]; intros s b H E; subst s.
  - simpl in H. discriminate.
  - cbn [short_runs app] in H. apply andb_prop in H. destruct H as [_ H].
    exact (IH _ b H eq_refl).
Qed.

Lemma short_runs_suffix : forall pre t, short_runs (pre ++ t) = true -> short_runs t = true.
Proof.
  induction pre as [|x pre IH]; intros t H; [exact H|].
  cbn [short_runs app] in H. apply andb_prop in H. apply IH, H.
Qed.

Lemma span_len_app_le p : forall t post, (span_len p t <= span_len p (t ++ post))%nat.
Proof.
  induction t as [|c t IH]; intros post; simpl; [lia|].
  destruct (p c); [specialize (IH post); lia|lia].
Qed.

Lemma short_runs_prefix : forall t post, short_runs (t ++ post) = true -> short_runs t = true.
Proof.
  induction t as [|c t IH]; intros post H; [reflexivity|].
  change ((c :: t) ++ post) with (c :: (t ++ post)) in H.
  cbn [short_runs] in H |- *. apply andb_prop in H. destruct H as [H1 H2].
  apply andb_true_intro. split; [|eapply IH; exact H2].
  apply Nat.ltb_lt in H1. apply Nat.ltb_lt.
  pose proof (span_len_app_le is_nl (c :: t) post) as Hle. simpl in Hle, H1 |- *. lia.
Qed.

(* what strip leaves is a part of the string *)
Lemma strip_by_infix p s : exists pre post, s = pre ++ strip_by p s ++ post.
Proof.
  unfold strip_by, rstrip_by, lstrip_by.
  destruct (dropwhile_suffix p s) as (pre & E).
  destruct (dropwhile_suffix p (rev (dropwhile p s))) as (pre2 & E2).
  exists pre, (rev pre2). rewrite <- rev_app_distr, <- E2, rev_involutive. exact E.
Qed.

Lemma normalize_newlines_fixed s :
  short_runs s = true -> ~ In c_cr s -> _normalize_newlines s = s.
Proof.
  intros H1 H2. rewrite normalize_newlines_collapse, replace_char_absent by exact H2.
  apply collapse_fixed, H1.
Qed.

Lemma normalize_newlines_short_runs s : short_runs (_normalize_newlines s) = true.
Proof. rewrite normalize_newlines_collapse. apply collapse_short_runs. Qed.

Lemma normalize_newlines_no_cr s : ~ In c_cr (_normalize_newlines s).
Proof.
  rewrite normalize_newlines_collapse. intros H.
  apply (collapse_chars _ _ _ _ (Nat.le_refl _)) in H.
  revert H. apply replace_char_out. discriminate.
Qed.

Lemma clean_text_strip s : clean_text s = strip (_normalize_newlines s).
Proof. reflexivity. Qed.

Lemma clean_text_short_runs s : short_runs (clean_text s) = true.
Proof.
  rewrite clean_text_strip. unfold strip.
  destruct (strip_by_infix u_isspace (_normalize_newlines s)) as (pre & post & E).
  pose proof (normalize_newlines_short_runs s) as H. rewrite E in H.
  apply short_runs_suffix in H. apply short_runs_prefix in H. exact H.
Qed.

Lemma clean_text_no_cr s : ~ In c_cr (clean_text s).
Proof.
  rewrite clean_text_strip. unfold strip. intros H.
  destruct (strip_by_infix u_isspace (_normalize_newlines s)) as (pre & post & E).
  apply (normalize_newlines_no_cr s). rewrite E.
  apply in_or_app. right. apply in_or_app. left. exact H.
Qed.

Lemma clean_text_fixed s : clean_text (clean_text s) = clean_text s.
Proof.
  rewrite (clean_text_strip (clean_text s)).
  rewrite normalize_newlines_fixed by (apply clean_text_short_runs || apply clean_text_no_cr).
  rewrite clean_text_strip. apply strip_idempotent.
Qed.

(** Without a line feed the join pattern matches nowhere. *)
Lemma hyphen_break_needs_newline bef aft :
  ~ In c_nl aft -> match_at hyphen_break_re bef aft = None.
Proof.
  intros H. destruct (match_at hyphen_break_re bef aft) as [mo|] eqn:E; [|reflexivity].
  exfalso. pose proof (match_at_in _ _ _ _ E) as Hin.
  apply match_at_prefix in E. destruct E as [Es Ea].
  apply (rmatch_must (fun c => c = c_nl)) in Hin.
  - apply Exists_exists in Hin. destruct Hin as (c & Hc & ->).
    apply list_elem_of_In in Hc.
    apply H. rewrite Ea. apply in_or_app. left. exact Hc.
  - unfold hyphen_break_re. cbn [cats].
    do 3 apply mc_cat_r. apply mc_cat_l. apply mc_cls.
    intros c Hc. apply N.eqb_eq in Hc. congruence.
Qed.

Lemma merge_without_newline s :
  ~ In c_nl s -> _merge_hyphenated_words s = s.
Proof.
  intros H. unfold _merge_hyphenated_words. apply re_sub_no_match.
  intros pre post E. apply hyphen_break_needs_newline. intros Hin. apply H.
  rewrite E. apply in_or_app. right. exact Hin.
Qed.

End CleaningFacts.

(** ** The lines of the blocks *)

Section BlockFacts.
Context {U : Unicode}.

Lemma splitlines_aux_no_break : forall n s cur,
  (length s <= n)%nat ->
  Forall (fun c => is_linebreak c = false) cur ->
  Forall (Forall (fun c => is_linebreak c = false)) (splitlines_aux cur s).
Proof.
  induction n as [|n IH]; intros s cur Hn Hcur.
  - destruct s; [|simpl in Hn; lia]. simpl.
    destruct cur; constructor; [|constructor]. apply List.Forall_rev. exact Hcur.
  - destruct s as [|c t]; cbn [splitlines_aux].
    + destruct cur; constructor; [|constructor]. apply List.Forall_rev. exact Hcur.
    + simpl in Hn. destruct (is_linebreak c) eqn:Ec.
      * constructor; [apply List.Forall_rev; exact Hcur|].
        destruct t as [|c' t']; [constructor|].
        destruct ((c =? c_cr) && (c' =? c_nl)).
        -- apply IH; [simpl in Hn; lia|constructor].
        -- apply IH; [lia|constructor].
      * apply IH; [lia|]. constructor; [exact Ec|exact Hcur].
Qed.

Lemma splitlines_no_break s :
  Forall (Forall (fun c => is_linebreak c = false)) (splitlines s).
Proof. apply (splitlines_aux_no_break (length s)); [lia|constructor]. Qed.

Lemma strip_by_subset p s x : In x (strip_by p s) -> In x s.
Proof.
  intros H. destruct (strip_by_infix p s) as (pre & post & E). rewrite E.
  apply in_or_app. right. apply in_or_app. left. exact H.
Qed.

Lemma preprocess_lines_proper raw b ln :
  In b (fst (preprocess_text_into_blocks raw)) -> In ln b -> proper_line ln.
Proof.
  unfold preprocess_text_into_blocks. cbn [fst]. intros Hb Hln.
  apply filter_In in Hb. destruct Hb as [Hb _].
  apply in_map_iff in Hb. destruct Hb as (blk & <- & _).
  apply in_map_iff in Hln. destruct Hln as (x & <- & Hx).
  apply filter_In in Hx. destruct Hx as [Hx Hne].
  split; [destruct (strip x); [discriminate|discriminate]|].
  split; [apply strip_idempotent|].
  pose proof (splitlines_no_break blk) as Hs. rewrite List.Forall_forall in Hs.
  specialize (Hs x Hx). rewrite List.Forall_forall in Hs |- *.
  intros c Hc. apply Hs. unfold strip in Hc. eapply strip_by_subset. exact Hc.
Qed.

Lemma working_lines_proper s : Forall proper_line (working_lines s).
Proof.
  unfold working_lines.
  pose proof (preprocess_well_formed (normalize s)) as Hwf.
  rewrite (remove_repeated_spec _ Hwf), filter_blocks_concat.
  apply List.Forall_forall. intros x Hx. apply keep_first_subset in Hx.
  apply in_concat in Hx. destruct Hx as (b & Hb & Hxb).
  eapply preprocess_lines_proper; eassumption.
Qed.

(* splitting at line feeds what has been joined with line feeds *)
Lemma split_sep_line : forall l cur rest,
  ~ In c_nl l ->
  split_sep_aux [c_nl] O cur (l ++ rest) = split_sep_aux [c_nl] O (rev l ++ cur) rest.
Proof.
  induction l as [|c l IH]; intros cur rest H; [reflexivity|].
  cbn [app split_sep_aux startswith].
  destruct (N.eqb_spec c_nl c) as [E|_]; [exfalso; apply H; left; symmetry; exact E|].
  cbn [andb]. rewrite IH by (intros Hin; apply H; right; exact Hin).
  cbn [rev]. rewrite <- app_assoc. reflexivity.
Qed.

Lemma split_join_aux : forall ps p cur,
  Forall (fun ln => ~ In c_nl ln) (p :: ps) ->
  split_sep_aux [c_nl] O cur (join [c_nl] (p :: ps)) = (rev cur ++ p) :: ps.
Proof.
  induction ps as [|q qs IH]; intros p cur H; apply Forall_cons in H; destruct H as [Hp Hq].
  - cbn [join]. rewrite <- (app_nil_r p) at 1. rewrite split_sep_line by exact Hp.
    cbn [split_sep_aux]. rewrite rev_app_distr, rev_involutive. reflexivity.
  - change (join [c_nl] (p :: q :: qs)) with (p ++ [c_nl] ++ join [c_nl] (q :: qs)).
    rewrite split_sep_line by exact Hp. cbn [app split_sep_aux startswith].
    rewrite N.eqb_refl. cbn [andb length Nat.pred].
    assert (Hs : startswith (join [c_nl] (q :: qs)) [] = true)
      by (destruct (join [c_nl] (q :: qs)); reflexivity).
    rewrite Hs. rewrite IH by exact Hq.
    rewrite rev_app_distr, rev_involutive. reflexivity.
Qed.

Lemma split_join_lines (lines : list str) :
  Forall proper_line lines ->
  split_sep [c_nl] (join [c_nl] lines) = match lines with [] => [[]] | _ => lines end.
Proof.
  intros H. destruct lines as [|p ps]; [reflexivity|].
  unfold split_sep. rewrite split_join_aux; [reflexivity|].
  eapply Forall_impl; [exact H|]. cbn beta. intros ln (_ & _ & Hb) Hin.
  rewrite List.Forall_forall in Hb. specialize (Hb c_nl Hin). discriminate.
Qed.

End BlockFacts.

(** ** The repetition filter, applied again *)

Section RepetitionAgain.
Context {U : Unicode}.

Lemma filter_blocks_lines cand : forall blocks (earlier : gset str) b x,
  In b (filter_blocks cand earlier blocks) -> In x b ->
  exists b0, In b0 blocks /\ In x b0.
Proof.
  induction blocks as [|b0 bs IH]; intros earlier b x; simpl; [tauto|].
  intros Hb Hx. apply in_app_or in Hb. destruct Hb as [Hb|Hb].
  - destruct (truthy (keep_first cand earlier b0)); [|destruct Hb].
    destruct Hb as [<-|[]]. exists b0. split; [left; reflexivity|].
    eapply keep_first_subset; exact Hx.
  - destruct (IH _ _ _ Hb Hx) as (b1 & H1 & H2). exists b1. split; [right; exact H1|exact H2].
Qed.

Lemma filter_blocks_well_formed (cand : str -> bool) (blocks : list (list str))
    (earlier : gset str) :
  well_formed_blocks blocks -> well_formed_blocks (filter_blocks cand earlier blocks).
Proof.
  unfold well_formed_blocks. rewrite !List.Forall_forall. intros Hwf b Hb. split.
  - clear Hwf. revert earlier Hb. induction blocks as [|b0 bs IH]; intros earlier; simpl; [tauto|].
    intros Hb. apply in_app_or in Hb. destruct Hb as [Hb|Hb]; [|eapply IH; exact Hb].
    destruct (keep_first cand earlier b0) eqn:E; simpl in Hb; [destruct Hb|].
    destruct Hb as [<-|[]]. discriminate.
  - apply List.Forall_forall. intros x Hx.
    destruct (filter_blocks_lines _ _ _ _ _ Hb Hx) as (b0 & H0 & Hx0).
    destruct (Hwf b0 H0) as [_ Ht]. rewrite List.Forall_forall in Ht. apply Ht, Hx0.
Qed.

Lemma blocks_with_filter_le cand k : forall blocks (earlier : gset str),
  (blocks_with k (filter_blocks cand earlier blocks) <= blocks_with k blocks)%nat.
Proof.
  unfold blocks_with. induction blocks as [|b bs IH]; intros earlier; simpl; [lia|].
  rewrite List.filter_app, length_app. specialize (IH (list_to_set b ∪ earlier)).
  assert (Hb : (length (List.filter (fun b1 : list str => bool_decide (k ∈ b1))
                          (if truthy (keep_first cand earlier b)
                           then [keep_first cand earlier b] else []))
                <= if bool_decide (k ∈ b) then 1 else 0)%nat).
  { destruct (truthy (keep_first cand earlier b)); simpl; [|lia].
    destruct (bool_decide (k ∈ keep_first cand earlier b)) eqn:E; simpl; [|lia].
    apply bool_decide_eq_true in E. apply list_elem_of_In, keep_first_subset in E.
    rewrite bool_decide_true by (apply list_elem_of_In; exact E). lia. }
  destruct (bool_decide (k ∈ b)); simpl; lia.
Qed.

(** After the filter no short line is in two blocks any more. *)
Lemma candidate_after (blocks : list (list str)) (k : str) :
  candidate (filter_blocks (candidate blocks) ∅ blocks) k = false.
Proof.
  unfold candidate at 1. destruct (short_line k) eqn:Es; [|reflexivity].
  rewrite andb_true_l. apply Nat.leb_gt.
  destruct (candidate blocks k) eqn:Ec.
  - pose proof (blocks_with_le k (filter_blocks (candidate blocks) ∅ blocks)) as Hle.
    rewrite filter_blocks_concat, keep_first_occurrences, Ec in Hle.
    rewrite bool_decide_false in Hle by apply not_elem_of_empty. lia.
  - pose proof (blocks_with_filter_le (candidate blocks) k blocks ∅) as Hle.
    unfold candidate in Ec. rewrite Es, andb_true_l in Ec. apply Nat.leb_gt in Ec. lia.
Qed.

End RepetitionAgain.

(** ** The keys of the section map *)

Section SegmenterKeys.
Context {U : Unicode}.

Lemma section_labels_keys sp : In sp section_labels -> In (fst sp) section_keys.
Proof.
  unfold section_labels, section_keys. intros H. apply in_flat_map in H.
  destruct H as (x & Hx & H). apply in_map_iff in H. destruct H as (p & <- & _).
  cbn [fst]. apply in_map. exact Hx.
Qed.

Lemma best_label_key (f : str * str -> Q) : forall labels (best : option str * Q),
  (forall sp, In sp labels -> In (fst sp) section_keys) ->
  (forall k, fst best = Some k -> In k section_keys) ->
  forall k,
    fst (foldl (fun (best : option str * Q) sp =>
                  if Qgt_bool (f sp) (snd best) then (Some (fst sp), f sp) else best)
               best labels) = Some k ->
    In k section_keys.
Proof.
  induction labels as [|sp labels IH]; intros best Hl Hb k; simpl; [apply Hb|].
  apply IH.
  - intros sp' H. apply Hl. right. exact H.
  - intros k'. destruct (Qgt_bool (f sp) (snd best)); [|apply Hb].
    simpl. intros [= <-]. apply Hl. left. reflexivity.
Qed.

Lemma is_section_header_key line sect :
  _is_section_header line = Some sect -> In sect section_keys.
Proof.
  unfold _is_section_header.
  match goal with |- context [List.find ?f section_labels] =>
    destruct (List.find f section_labels) as [[s p]|] eqn:E1 end.
  { intros H. apply (inj Some) in H. subst s. apply find_some in E1. destruct E1 as [E1 _].
    apply (section_labels_keys _ E1). }
  match goal with |- context [(8 <? ?n)%nat] => destruct (8 <? n)%nat end; [discriminate|].
  match goal with |- context [List.find ?f section_labels] =>
    destruct (List.find f section_labels) as [[s p]|] eqn:E2 end.
  { intros H. apply (inj Some) in H. subst s. apply find_some in E2. destruct E2 as [E2 _].
    apply (section_labels_keys _ E2). }
  match goal with |- (if ?c then _ else _) = _ -> _ => destruct c end; [|discriminate].
  match goal with |- context [foldl ?g ?b ?l] => destruct (fst (foldl g b l)) as [k|] eqn:E3 end;
    [|discriminate].
  match goal with |- (if ?c then _ else _) = _ -> _ => destruct c end; [|discriminate].
  intros H. apply (inj Some) in H. subst k.
  revert E3.
  apply (best_label_key (fun sp => ratio (_normalize_for_matching line) (snd sp))).
  - intros sp. apply section_labels_keys.
  - cbn [fst]. discriminate.
Qed.

Lemma str_eq_true a b : str_eq a b = true <-> a = b.
Proof. unfold str_eq. apply bool_decide_eq_true. Qed.

Lemma str_eq_refl a : str_eq a a = true.
Proof. apply str_eq_true. reflexivity. Qed.

Lemma dict_get_none k : forall (d : list (str * list str)),
  dict_get k d = None <-> ~ In k (List.map fst d).
Proof.
  induction d as [|[k' v] d IH]; simpl; [tauto|].
  destruct (str_eq k' k) eqn:E.
  - apply str_eq_true in E. split; [discriminate|]. intros H. exfalso. apply H. left. exact E.
  - rewrite IH. split; [|tauto]. intros H [H1|H1]; [|tauto].
    apply str_eq_true in H1. congruence.
Qed.

Lemma dict_mem_keys k (d : list (str * list str)) :
  dict_mem k d = true <-> In k (List.map fst d).
Proof.
  unfold dict_mem. rewrite bool_decide_eq_true.
  destruct (dict_get k d) eqn:E.
  - split; [|intros; eexists; reflexivity]. intros _.
    destruct (decide (k ∈ List.map fst d)) as [H|H]; [apply list_elem_of_In; exact H|].
    rewrite list_elem_of_In in H. apply dict_get_none in H. congruence.
  - apply dict_get_none in E. split; [intros [x Hx]; discriminate|tauto].
Qed.

Lemma dict_append_keys k ln : forall (d : list (str * list str)),
  List.map fst (dict_append k ln d)
  = if dict_mem k d then List.map fst d else List.map fst d ++ [k].
Proof.
  induction d as [|[k' v] d IH]; [reflexivity|].
  cbn [dict_append]. unfold dict_mem. cbn [dict_get].
  destruct (str_eq k' k) eqn:E.
  - rewrite bool_decide_true by (eexists; reflexivity). reflexivity.
  - cbn [List.map fst]. rewrite IH. unfold dict_mem.
    destruct (bool_decide (is_Some (dict_get k d))); reflexivity.
Qed.

Lemma dict_append_get k ln k0 : forall (d : list (str * list str)),
  default [] (dict_get k0 (dict_append k ln d))
  = default [] (dict_get k0 d) ++ (if str_eq k k0 then [ln] else []).
Proof.
  induction d as [|[k' v] d IH].
  - cbn [dict_append dict_get]. destruct (str_eq k k0); reflexivity.
  - cbn [dict_append]. destruct (str_eq k' k) eqn:E.
    + apply str_eq_true in E. subst k'. cbn [dict_get].
      destruct (str_eq k k0); simpl; [reflexivity|rewrite app_nil_r; reflexivity].
    + cbn [dict_get]. destruct (str_eq k' k0) eqn:E0; [|apply IH].
      simpl. destruct (str_eq k k0) eqn:E1; [|rewrite app_nil_r; reflexivity].
      apply str_eq_true in E0, E1. subst. rewrite str_eq_refl in E. discriminate.
Qed.

Lemma segment_step_keys st ln : keys_ok st -> keys_ok (segment_step st ln).
Proof.
  destruct st as [cur d]. unfold keys_ok, segment_step. cbn [fst snd].
  intros (Hc & Hn & Hk).
  destruct (_is_section_header ln) as [m|] eqn:E; cbn [fst snd].
  - apply is_section_header_key in E.
    split; [right; exact E|].
    destruct (dict_mem m d) eqn:Em; [split; assumption|].
    rewrite map_app. cbn [List.map fst]. split.
    + apply NoDup_app. split; [exact Hn|]. split; [|apply NoDup_singleton].
      intros x Hx Hx'. apply list_elem_of_In in Hx. apply list_elem_of_In in Hx'.
      destruct Hx' as [<-|[]]. apply dict_mem_keys in Hx. congruence.
    + apply Forall_app. split; [exact Hk|]. constructor; [right; exact E|constructor].
  - split; [exact Hc|]. rewrite dict_append_keys.
    destruct (dict_mem cur d) eqn:Em; [split; assumption|]. split.
    + apply NoDup_app. split; [exact Hn|]. split; [|apply NoDup_singleton].
      intros x Hx Hx'. apply list_elem_of_In in Hx. apply list_elem_of_In in Hx'.
      destruct Hx' as [<-|[]]. apply dict_mem_keys in Hx. congruence.
    + apply Forall_app. split; [exact Hk|]. constructor; [exact Hc|constructor].
Qed.

Lemma segment_fold_keys : forall lines st, keys_ok st -> keys_ok (foldl segment_step st lines).
Proof.
  induction lines as [|ln lines IH]; intros st H; [exact H|].
  simpl. apply IH, segment_step_keys, H.
Qed.

Lemma segment_fold_get k : forall lines cur (d : list (str * list str)),
  default [] (dict_get k (snd (foldl segment_step (cur, d) lines)))
  = default [] (dict_get k d) ++ lines_of k (labelled cur lines).
Proof.
  induction lines as [|ln lines IH]; intros cur d.
  - simpl. unfold lines_of. simpl. rewrite app_nil_r. reflexivity.
  - cbn [foldl labelled]. unfold segment_step at 2.
    destruct (_is_section_header ln) as [m|] eqn:E.
    + rewrite IH. f_equal. destruct (dict_mem m d) eqn:Em; [reflexivity|].
      assert (Hn : dict_get m d = None).
      { apply dict_get_none. intros H. apply dict_mem_keys in H. congruence. }
      clear IH. induction d as [|[k' v] d IHd]; simpl.
      * destruct (str_eq m k); reflexivity.
      * simpl in Hn. destruct (str_eq k' k); [reflexivity|].
        destruct (str_eq k' m) eqn:E'; [discriminate|].
        apply IHd; [|exact Hn].
        unfold dict_mem. apply bool_decide_eq_false. rewrite Hn. intros [x Hx]. discriminate.
    + rewrite IH, dict_append_get, <- app_assoc. f_equal.
      unfold lines_of. cbn [List.filter fst]. destruct (str_eq cur k); reflexivity.
Qed.

Lemma dict_get_filter k : forall (d : list (str * list str)),
  NoDup (List.map fst d) ->
  dict_get k (List.filter (fun kv => truthy (snd kv)) d)
  = match default [] (dict_get k d) with [] => None | v => Some v end.
Proof.
  induction d as [|[k' v] d IH]; intros Hn; [reflexivity|].
  cbn [List.map fst] in Hn. apply NoDup_cons in Hn. destruct Hn as [Hk' Hn].
  cbn [List.filter snd dict_get]. destruct (str_eq k' k) eqn:E.
  - apply str_eq_true in E. subst k'. destruct v as [|x v]; simpl.
    + rewrite IH by exact Hn.
      assert (Hnone : dict_get k d = None).
      { apply dict_get_none. intros H. apply Hk'. apply list_elem_of_In. exact H. }
      rewrite Hnone. reflexivity.
    + rewrite str_eq_refl. reflexivity.
  - destruct (truthy v); [cbn [dict_get]; rewrite E|]; apply IH, Hn.
Qed.

(** Past eight words only the substring test can make a line a heading. *)
Lemma long_line_header line :
  (8 < length (split_ws (_normalize_for_matching line)))%nat ->
  is_Some (_is_section_header line)
  <-> existsb (fun sp => contains (_normalize_for_matching line) (snd sp)) section_labels = true.
Proof.
  intros H. unfold _is_section_header. cbn zeta.
  match goal with |- context [List.find ?f section_labels] =>
    destruct (List.find f section_labels) as [[s p]|] eqn:E end.
  - split; [intros _|intros _; eauto]. apply find_some in E. destruct E as [E1 E2].
    apply existsb_exists. exists (s, p). split; assumption.
  - apply Nat.ltb_lt in H. rewrite H. split; [intros [x Hx]; discriminate|].
    intros He. apply existsb_exists in He. destruct He as (sp & H1 & H2).
    apply (find_none _ _ E) in H1. congruence.
Qed.

End SegmenterKeys.

(** ** Where the characters of a substitution come from *)

Section SubstitutionFacts.
Context {U : Unicode}.

(** A character of [re.sub]'s result is a character of a replacement, or a
    character of the text at which the pattern has no match but the empty
    one. *)
Lemma scan_chars r repl : forall aft skip bef gap x,
  In x (render repl (scan r skip bef gap aft)) ->
  In x gap
  \/ (exists mo, In x (repl mo))
  \/ (exists pre post, aft = pre ++ x :: post
        /\ forall mo, match_at r (rev pre ++ bef) (x :: post) = Some mo -> group0 mo = []).
Proof.
  assert (Hshift : forall c t bef x,
    (exists pre post, t = pre ++ x :: post
       /\ forall mo, match_at r (rev pre ++ c :: bef) (x :: post) = Some mo -> group0 mo = []) ->
    exists pre post, c :: t = pre ++ x :: post
       /\ forall mo, match_at r (rev pre ++ bef) (x :: post) = Some mo -> group0 mo = []).
  { intros c t bef x (pre & post & E & H). exists (c :: pre), post. split; [rewrite E; reflexivity|].
    simpl. rewrite <- app_assoc. exact H. }
  induction aft as [|c t IH]; intros skip bef gap x.
  - destruct skip; cbn [scan].
    + destruct (match_at r bef []) as [mo|]; unfold render; simpl.
      * rewrite !app_nil_r. intros H. apply in_app_or in H. destruct H as [H|H].
        -- left. apply in_rev. exact H.
        -- right. left. exists mo. exact H.
      * rewrite ?app_nil_r. intros H. left. apply in_rev. exact H.
    + unfold render; simpl. rewrite ?app_nil_r. intros H. left. apply in_rev. exact H.
  - destruct skip; cbn [scan].
    + destruct (match_at r bef (c :: t)) as [mo|] eqn:E.
      * destruct (length (group0 mo)) as [|k] eqn:El.
        -- unfold render. cbn [fst snd List.map concat]. rewrite <- !app_assoc.
           intros H. apply in_app_or in H. destruct H as [H|H]; [left; apply in_rev; exact H|].
           apply in_app_or in H. destruct H as [H|H]; [right; left; exists mo; exact H|].
           apply (IH O (c :: bef) [c] x) in H. destruct H as [[<-|[]]|[H|H]].
           ++ right. right. exists [], t. split; [reflexivity|]. simpl.
              intros mo' E'. rewrite E in E'. inversion E'; subst.
              destruct (group0 mo'); [reflexivity|discriminate].
           ++ right. left. exact H.
           ++ right. right. apply Hshift, H.
        -- unfold render. cbn [fst snd List.map concat]. rewrite <- !app_assoc.
           intros H. apply in_app_or in H. destruct H as [H|H]; [left; apply in_rev; exact H|].
           apply in_app_or in H. destruct H as [H|H]; [right; left; exists mo; exact H|].
           apply (IH k (c :: bef) [] x) in H. destruct H as [[]|[H|H]].
           ++ right. left. exact H.
           ++ right. right. apply Hshift, H.
      * intros H. apply IH in H. destruct H as [[<-|H]|[H|H]].
        -- right. right. exists [], t. split; [reflexivity|]. simpl.
           intros mo' E'. rewrite E in E'. discriminate.
        -- left. exact H.
        -- right. left. exact H.
        -- right. right. apply Hshift, H.
    + intros H. apply IH in H. destruct H as [H|[H|H]].
      * left. exact H.
      * right. left. exact H.
      * right. right. apply Hshift, H.
Qed.

Lemma re_sub_chars r repl s x :
  In x (re_sub r repl s) ->
  (exists mo, In x (repl mo))
  \/ (exists pre post, s = pre ++ x :: post
        /\ forall mo, match_at r (rev pre) (x :: post) = Some mo -> group0 mo = []).
Proof.
  rewrite re_sub_render. unfold finditer. intros H. apply scan_chars in H.
  destruct H as [[]|[H|H]]; [left; exact H|right].
  destruct H as (pre & post & E & H). exists pre, post. rewrite app_nil_r in H. auto.
Qed.

(* a one-character class matches a character of the class *)
Lemma cls_match p bef x post :
  p x = true -> exists mo, match_at (Cls p) bef (x :: post) = Some mo /\ group0 mo = [x].
Proof.
  intros H. unfold match_at. cbn [rmatch m_after m_before m_groups]. rewrite H.
  eexists. split; [reflexivity|]. unfold group0. cbn [mo_start mo_end].
  apply consumed_spec. reflexivity.
Qed.

(* a repetition of one or more matches a character of the class *)
Lemma plus_match p bef x post :
  p x = true -> exists mo, match_at (plus p) bef (x :: post) = Some mo /\ group0 mo <> [].
Proof.
  intros H. unfold match_at, plus. cbn [rmatch m_after m_before m_groups].
  destruct (rep_run_greedy p 1 (x :: post) O bef) as [rest Hr]; [simpl; rewrite H; lia|].
  rewrite Hr. cbn [List.map fst snd]. eexists. split; [reflexivity|].
  unfold group0. cbn [mo_start mo_end].
  erewrite consumed_spec; [|cbn [m_before]; reflexivity].
  simpl. rewrite H. discriminate.
Qed.

Lemma sub_cls_chars p r s x :
  In x (re_sub (Cls p) (fun _ => r) s) -> In x r \/ (In x s /\ p x = false).
Proof.
  intros H. apply re_sub_chars in H. destruct H as [[_ H]|(pre & post & E & H)]; [left; exact H|].
  right. split; [rewrite E; apply in_or_app; right; left; reflexivity|].
  destruct (p x) eqn:Ep; [|reflexivity].
  destruct (cls_match p (rev pre) x post Ep) as (mo & Hm & Hg).
  apply H in Hm. congruence.
Qed.

Lemma sub_plus_chars p r s x :
  In x (re_sub (plus p) (fun _ => r) s) -> In x r \/ (In x s /\ p x = false).
Proof.
  intros H. apply re_sub_chars in H. destruct H as [[_ H]|(pre & post & E & H)]; [left; exact H|].
  right. split; [rewrite E; apply in_or_app; right; left; reflexivity|].
  destruct (p x) eqn:Ep; [|reflexivity].
  destruct (plus_match p (rev pre) x post Ep) as (mo & Hm & Hg).
  apply H in Hm. congruence.
Qed.

End SubstitutionFacts.

(** ** What the header extractor reports *)

Section HeaderReports.
Context {U : Unicode}.

Lemma append_new_fold : forall l acc,
  NoDup acc ->
  NoDup (foldl append_new acc l)
  /\ forall x, In x (foldl append_new acc l) <-> In x acc \/ In x l.
Proof.
  induction l as [|m l IH]; intros acc Hn; cbn [foldl].
  - split; [exact Hn|]. intros x. simpl. tauto.
  - unfold append_new at 2 4. destruct (bool_decide (m ∈ acc)) eqn:E.
    + apply bool_decide_eq_true in E. apply list_elem_of_In in E.
      destruct (IH acc Hn) as [H1 H2]. split; [exact H1|].
      intros x. rewrite H2. simpl. split; [tauto|]. intros [H|[<-|H]]; tauto.
    + apply bool_decide_eq_false in E.
      assert (Hn' : NoDup (acc ++ [m])).
      { apply NoDup_app. split; [exact Hn|]. split; [|apply NoDup_singleton].
        intros x Hx Hx'. apply list_elem_of_In in Hx'. destruct Hx' as [<-|[]]. contradiction. }
      destruct (IH _ Hn') as [H1 H2]. split; [exact H1|].
      intros x. rewrite H2, in_app_iff. simpl. tauto.
Qed.

Lemma scan_window_reports : forall block st i st',
  scan_window st i block = Some st' ->
  emails (sc_contact st') = foldl append_new (emails (sc_contact st)) (findings email_re block)
  /\ links (sc_contact st') = foldl append_new (links (sc_contact st)) (findings url_re block)
  /\ sc_name st' = match sc_name st with
                   | Some n => Some n
                   | None => strip <$> List.find likely block
                   end.
Proof.
  induction block as [|ln rest IH]; intros st i st'; cbn [scan_window].
  - intros [= <-]. unfold findings. simpl. destruct (sc_name st); auto.
  - destruct (scan_line st i ln) as [st1|] eqn:E1; cbn [mbind option_bind]; [|discriminate].
    intros H. apply IH in H. destruct H as (He & Hl & Hn).
    unfold findings in *. cbn [List.map concat]. rewrite !foldl_app.
    unfold scan_line in E1. destruct (sc_name st) as [n|] eqn:En.
    + inversion E1; subst st1; clear E1. cbn [sc_contact sc_name emails links] in *.
      auto.
    + destruct (_likely_name ln) as [b|] eqn:Eb; cbn [mbind option_bind] in E1; [|discriminate].
      cbn [List.find]. unfold likely at 1. rewrite Eb.
      destruct b; inversion E1; subst st1; clear E1; cbn [sc_contact sc_name emails links] in *.
      * rewrite bool_decide_true by reflexivity. auto.
      * rewrite bool_decide_false by discriminate. auto.
Qed.

Lemma existsb_false_forall {A} (f : A -> bool) l :
  existsb f l = false -> Forall (fun x => f x = false) l.
Proof.
  induction l as [|x l IH]; simpl; intros H; constructor;
    apply orb_false_elim in H; [apply H|apply IH, H].
Qed.

Lemma mapM_first_isupper_true : forall ws bs,
  mapM first_isupper ws = Some bs -> In true bs ->
  exists w, In w ws /\ first_isupper w = Some true.
Proof.
  intros ws bs H. apply mapM_Some in H.
  induction H as [|w b ws bs Hw _ IH]; intros Hin; [destruct Hin|].
  destruct Hin as [->|Hin].
  - exists w. split; [left; reflexivity|exact Hw].
  - destruct (IH Hin) as (w' & H1 & H2). exists w'. split; [right; exact H1|exact H2].
Qed.

Lemma findings_in r block x :
  In x (findings r block) <-> exists ln, In ln block /\ In x (re_findall r ln).
Proof.
  unfold findings. rewrite in_concat. split.
  - intros (l & Hl & Hx). apply in_map_iff in Hl. destruct Hl as (ln & <- & Hln). eauto.
  - intros (ln & Hln & Hx). exists (re_findall r ln). split; [apply in_map, Hln|exact Hx].
Qed.

End HeaderReports.

(** ** The entries of the section parsers *)

Section ParserShape.
Context {U : Unicode}.

Lemma stripped_lines_app a b : stripped_lines (a ++ b) = stripped_lines a ++ stripped_lines b.
Proof. unfold stripped_lines. rewrite map_app, List.filter_app. reflexivity. Qed.

Lemma collect_education_spec : forall lines bullets,
  exists taken rest,
    collect_education bullets lines = Some (bullets ++ stripped_lines taken, rest)
    /\ lines = taken ++ rest.
Proof.
  induction lines as [|l lines IH]; intros bullets; cbn [collect_education].
  - exists [], []. rewrite app_nil_r. split; reflexivity.
  - destruct (_ <=? 12)%nat;
      [|exists [], (l :: lines); rewrite app_nil_r; split; reflexivity].
    destruct (is_header_like_total l) as [b ->]. cbn [mbind option_bind].
    destruct b; [exists [], (l :: lines); rewrite app_nil_r; split; reflexivity|].
    cbn zeta.
    match goal with |- context [collect_education ?b lines] =>
      destruct (IH b) as (taken & rest & H1 & H2) end.
    exists (l :: taken), rest. split; [|rewrite H2; reflexivity].
    rewrite H1. do 2 f_equal. unfold stripped_lines. cbn [List.map List.filter].
    destruct (truthy (strip l)); [rewrite <- app_assoc|]; reflexivity.
Qed.

Lemma split_degree_institute_degree header :
  exists d i, split_degree_institute header = Some (Some d, i).
Proof.
  unfold split_degree_institute. cbn zeta. destruct (2 <=? _)%nat eqn:E2.
  - apply at_least_two in E2. destruct E2 as (a & b & t & ->). simpl. eauto.
  - destruct (contains header (py " - ")) eqn:E1; [|eauto].
    destruct (split_once_two (py " - ") ltac:(discriminate) header [] E1) as (a & b & H).
    unfold split_once. rewrite H. simpl. eauto.
Qed.

Lemma education_loop_spec : forall fuel lines entries,
  (length lines < fuel)%nat ->
  exists es, education_loop fuel lines entries = Some (entries ++ es)
             /\ concat (List.map entry_lines es) = stripped_lines lines
             /\ Forall (fun e => is_Some (d_degree e) /\ is_Some (d_raw_header e)) es.
Proof.
  induction fuel as [|fuel IH]; intros lines entries Hf; [lia|].
  destruct lines as [|l0 rest]; cbn [education_loop].
  - exists []. rewrite app_nil_r. repeat split. constructor.
  - unfold stripped_lines. cbn [List.map List.filter]. fold (stripped_lines rest).
    destruct (truthy (strip l0)) eqn:Et; cbn [negb].
    + cbn zeta. destruct (collect_education_spec rest []) as (taken & r1 & -> & Hr).
      cbn [mbind option_bind app].
      destruct (split_degree_institute_degree (strip l0)) as (d & i & ->).
      cbn [mbind option_bind].
      destruct (IH r1 (entries ++ [EducationEntry (Some d) i (stripped_lines taken)
                                                  (Some (strip l0))])) as (es & H1 & H2 & H3).
      { rewrite Hr in Hf. simpl in Hf. rewrite length_app in Hf. lia. }
      eexists (_ :: es). split; [rewrite H1, <- app_assoc; reflexivity|]. split.
      * cbn [List.map concat entry_lines d_raw_header d_bullets].
        rewrite H2, Hr, stripped_lines_app. reflexivity.
      * constructor; [|exact H3]. simpl. split; eauto.
    + apply IH. simpl in Hf. lia.
Qed.

(** A line that is header-like only with the white space around it stops
    the loop of the experience parser: a round passes over no line. *)
Lemma experience_loop_stuck : forall fuel l rest entries,
  _is_header_like (strip l) = Some false ->
  _is_header_like l = Some true ->
  experience_loop fuel (l :: rest) entries = None.
Proof.
  induction fuel as [|fuel IH]; intros l rest entries H1 H2; [reflexivity|].
  cbn [experience_loop]. cbn zeta. rewrite H1. cbn [mbind option_bind].
  cbn [collect_buffer]. rewrite H2. cbn [mbind option_bind truthy].
  apply IH; assumption.
Qed.

Lemma extract_dates_shape line :
  exists s e, _extract_dates_from_line line = Some (s, e)
              /\ (re_search DATE_RE line = None -> s = None /\ e = None)
              /\ (is_Some (re_search DATE_RE line) -> is_Some s).
Proof.
  unfold _extract_dates_from_line. destruct (re_search DATE_RE line) as [m|] eqn:E.
  - pose proof (date_parts_nonempty line m E) as Hne. cbn zeta.
    destruct (List.filter _ _) as [|p0 [|p1 ps]]; [contradiction| |]; simpl;
      do 2 eexists; (split; [reflexivity|]); split; eauto; discriminate.
  - exists None, None. split; [reflexivity|]. split; [auto|]. intros [x Hx]. discriminate.
Qed.

(** On trimmed lines the experience parser returns, with at most one entry
    for a line, and no entry is empty. *)
Lemma experience_loop_entries : forall fuel lines entries,
  Forall trimmed lines -> (length lines < fuel)%nat ->
  exists es, experience_loop fuel lines entries = Some (entries ++ es)
             /\ (length es <= length lines)%nat
             /\ Forall (fun e => is_Some (e_raw_header e) \/ e_bullets e <> []) es.
Proof.
  induction fuel as [|fuel IH]; intros lines entries Ht Hf; [lia|].
  destruct lines as [|l0 rest]; cbn [experience_loop].
  { exists []. rewrite app_nil_r. repeat split; [simpl; lia|constructor]. }
  inversion Ht as [|? ? Hl0 Hrest]; subst. unfold trimmed in Hl0. rewrite Hl0.
  destruct (is_header_like_total l0) as [b Hb]. rewrite Hb. cbn [mbind option_bind].
  destruct b.
  - destruct (collect_header_total rest l0) as (h & r1 & pre1 & -> & E1).
    cbn [mbind option_bind].
    destruct (collect_bullets_total r1 []) as (bs & r2 & pre2 & -> & E2).
    cbn [mbind option_bind].
    destruct (extract_dates_total h) as [[sd ed] ->]. cbn [mbind option_bind].
    destruct (split_title_company_total h) as [[t c] ->]. cbn [mbind option_bind].
    match goal with |- context [experience_loop fuel r2 ?e] =>
      destruct (IH r2 e) as (es & H1 & H2 & H3) end.
    + subst rest r1. apply Forall_suffix in Hrest. apply Forall_suffix in Hrest. exact Hrest.
    + subst rest r1. simpl in Hf. rewrite !length_app in Hf. lia.
    + eexists (_ :: es). split; [rewrite H1, <- app_assoc; reflexivity|]. split.
      * subst rest r1. simpl. rewrite !length_app. lia.
      * constructor; [left; simpl; eauto|exact H3].
  - destruct (collect_buffer_total (l0 :: rest) []) as (bs & r1 & pre & Hc & E1 & Hp).
    rewrite Hc. cbn [mbind option_bind]. specialize (Hp Hb).
    assert (Hlen : (length r1 < length (l0 :: rest))%nat).
    { apply (f_equal (@length _)) in E1. rewrite length_app in E1.
      destruct pre; [contradiction|]. simpl in *. lia. }
    assert (Ht1 : Forall trimmed r1).
    { rewrite E1 in Ht. apply Forall_suffix in Ht. exact Ht. }
    destruct bs as [|b0 bs]; cbn [truthy].
    + destruct (IH r1 entries Ht1) as (es & H1 & H2 & H3); [simpl in Hlen, Hf; lia|].
      exists es. split; [exact H1|]. split; [simpl in *; lia|exact H3].
    + match goal with |- context [experience_loop fuel r1 ?e] =>
        destruct (IH r1 e Ht1) as (es & H1 & H2 & H3) end; [simpl in Hlen, Hf; lia|].
      eexists (_ :: es). split; [rewrite H1, <- app_assoc; reflexivity|]. split.
      * simpl in *. lia.
      * constructor; [right; simpl; discriminate|exact H3].
Qed.

Lemma any_first_isupper_found : forall words,
  Forall (fun w : str => w <> []) words ->
  (exists w, In w words /\ first_isupper w = Some true) ->
  any_first_isupper words = Some true.
Proof.
  induction words as [|w ws IH]; intros Hne (x & Hx & Hu); [destruct Hx|].
  apply Forall_cons in Hne. destruct Hne as [Hw Hws]. cbn [any_first_isupper].
  destruct w as [|c w]; [contradiction|]. cbn [first_isupper mbind option_bind].
  destruct (u_isupper c) eqn:Ec; [reflexivity|].
  apply IH; [exact Hws|]. destruct Hx as [<-|Hx]; [|eauto].
  simpl in Hu. congruence.
Qed.

(** A line of one to eight words, one of them capitalised, is header-like,
    whatever it begins with. *)
Lemma header_like_capitalised line :
  (1 <= length (split_ws line) <= 8)%nat ->
  (exists w, In w (split_ws line) /\ first_isupper w = Some true) ->
  _is_header_like line = Some true.
Proof.
  intros [H1 H8] Hw. unfold _is_header_like.
  destruct line as [|c line]; [simpl in H1; lia|]. cbn [truthy negb].
  destruct (bool_decide _); [reflexivity|]. destruct (_ || _); [reflexivity|].
  cbn zeta. apply Nat.leb_le in H1, H8. rewrite H1, H8. cbn [andb].
  destruct (str_eq _ _); [reflexivity|].
  apply any_first_isupper_found; [apply split_ws_nonempty|exact Hw].
Qed.

(** When every line is header-like, every line is the header of an entry
    of its own. *)
Lemma experience_loop_headers : forall fuel lines entries,
  Forall (fun l => strip l = l /\ _is_header_like l = Some true) lines ->
  (length lines < fuel)%nat ->
  exists es, experience_loop fuel lines entries = Some (entries ++ es)
             /\ List.map e_raw_header es = List.map Some lines
             /\ Forall (fun e => e_bullets e = []) es.
Proof.
  induction fuel as [|fuel IH]; intros lines entries Hh Hf; [lia|].
  destruct lines as [|l0 rest]; cbn [experience_loop].
  { exists []. rewrite app_nil_r. repeat split. constructor. }
  apply Forall_cons in Hh. destruct Hh as [[Hs Hl] Hrest]. rewrite Hs, Hl.
  cbn [mbind option_bind].
  assert (Hch : collect_header l0 rest = Some (l0, rest)).
  { destruct rest as [|l1 rest']; [reflexivity|]. cbn [collect_header].
    apply Forall_cons in Hrest. destruct Hrest as [[_ Hl1] _].
    destruct (starts_with_bullet (strip l1)); [reflexivity|]. rewrite Hl1. reflexivity. }
  assert (Hcb : collect_bullets [] rest = Some ([], rest)).
  { destruct rest as [|l1 rest']; [reflexivity|]. cbn [collect_bullets].
    apply Forall_cons in Hrest. destruct Hrest as [[_ Hl1] _]. rewrite Hl1. reflexivity. }
  rewrite Hch. cbn [mbind option_bind]. rewrite Hcb. cbn [mbind option_bind].
  destruct (extract_dates_total l0) as [[sd ed] ->]. cbn [mbind option_bind].
  destruct (split_title_company_total l0) as [[t c] ->]. cbn [mbind option_bind].
  match goal with |- context [experience_loop fuel rest ?e] =>
    destruct (IH rest e Hrest) as (es & H1 & H2 & H3) end; [simpl in Hf; lia|].
  eexists (_ :: es). split; [rewrite H1, <- app_assoc; reflexivity|]. split.
  - cbn [List.map e_raw_header]. rewrite H2. reflexivity.
  - constructor; [reflexivity|exact H3].
Qed.

End ParserShape.

(** ** The record the top-level parser returns *)

Section RecordFacts.
Context {U : Unicode}.

Lemma extract_header_info_reports lines name contact remaining :
  extract_header_info lines = Some (name, contact, remaining) ->
  name = strip <$> List.find likely (firstn 15 lines)
  /\ emails contact = foldl append_new [] (findings email_re (firstn 15 lines))
  /\ links contact = foldl append_new [] (findings url_re (firstn 15 lines)).
Proof.
  unfold extract_header_info, extract_header_info_n.
  destruct (scan_window _ O (firstn 15 lines)) as [st|] eqn:E; cbn [mbind option_bind];
    [|discriminate].
  apply scan_window_reports in E. cbn [sc_contact sc_name emails links] in E.
  destruct E as (He & Hl & Hn).
  destruct (match sc_name_index st with Some _ => _ | None => _ end) as [set|];
    cbn [mbind option_bind]; [|discriminate].
  intros H. inversion H; subst. auto.
Qed.

Lemma find_likely_header : forall block ln,
  List.find likely block = Some ln ->
  exists i, first_name_index block = Some i /\ In ln (firstn (S i) block).
Proof.
  induction block as [|x rest IH]; intros ln; cbn [List.find first_name_index]; [discriminate|].
  destruct (likely x).
  - intros [= <-]. exists O. split; [reflexivity|]. left. reflexivity.
  - intros H. destruct (IH ln H) as (i & -> & Hin). exists (S i). split; [reflexivity|].
    right. exact Hin.
Qed.

(** The line the name is read from is a header line. *)
Lemma name_line_is_header lines ln :
  List.find likely (firstn 15 lines) = Some ln -> header_text lines ln = true.
Proof.
  intros H. apply find_likely_header in H. destruct H as (i & Hi & Hin).
  unfold header_text. cbn zeta. rewrite Hi. apply orb_true_iff. left.
  apply bool_decide_eq_true, list_elem_of_In. exact Hin.
Qed.

Lemma parse_if_present_spec {A} k sections (f : list str -> option A) dflt x :
  parse_if_present k sections f dflt = Some x ->
  match dict_get k sections with
  | Some v => f v = Some x
  | None => x = dflt
  end.
Proof.
  unfold parse_if_present, dict_mem. destruct (dict_get k sections) as [v|] eqn:E.
  - rewrite bool_decide_true by eauto. simpl. auto.
  - rewrite bool_decide_false by (intros [? ?]; discriminate). intros [= <-]. reflexivity.
Qed.

Lemma collect_other_spec sections : forall ks other other',
  collect_other ks sections other = Some other' ->
  other' = other ++ omap (fun k => pair k <$> dict_get k sections) ks.
Proof.
  induction ks as [|k ks IH]; intros other other'; cbn [collect_other omap].
  - intros [= <-]. rewrite app_nil_r. reflexivity.
  - unfold dict_mem. destruct (dict_get k sections) as [v|] eqn:E.
    + rewrite bool_decide_true by eauto. cbn [mbind option_bind fmap option_fmap option_map].
      intros H. apply IH in H. rewrite H, <- app_assoc. cbn [omap list_omap]. rewrite E.
      reflexivity.
    + rewrite bool_decide_false by (intros [? ?]; discriminate).
      intros H. apply IH in H. rewrite H. cbn [omap list_omap]. rewrite E. reflexivity.
Qed.

(** The fields of the record, one by one. *)
Lemma parse_resume_text_fields s :
  exists r remaining,
    parse_resume_text s = Some r
    /\ r_raw_text r = s /\ r_raw_clean r = normalize s
    /\ r_blocks r = remove_repeated_header_footer (fst (preprocess_text_into_blocks (normalize s)))
    /\ r_lines r = working_lines s
    /\ extract_header_info (working_lines s) = Some (r_name r, r_contact r, remaining)
    /\ remaining = List.filter (fun ln => negb (header_text (working_lines s) ln)) (working_lines s)
    /\ r_sections r = segment_sections remaining
    /\ parse_if_present (py "experience") (r_sections r) parse_experience_section []
       = Some (r_experience r)
    /\ parse_if_present (py "projects") (r_sections r) parse_projects_section []
       = Some (r_projects r)
    /\ parse_if_present (py "education") (r_sections r) parse_education_section []
       = Some (r_education r)
    /\ parse_if_present (py "skills") (r_sections r) (fun v => Some (parse_skills_section v)) []
       = Some (r_skills r)
    /\ collect_other [py "certifications"; py "awards"; py "summary"] (r_sections r) []
       = Some (r_other r).
Proof.
  destruct (parse_resume_text_returns s) as (r & Hr & Hl). exists r.
  revert Hr. unfold parse_resume_text. fold (normalize s).
  destruct (preprocess_text_into_blocks (normalize s)) as [blocks flat] eqn:Ep.
  assert (Hw : concat (remove_repeated_header_footer blocks) = working_lines s).
  { unfold working_lines. rewrite Ep. reflexivity. }
  rewrite Hw.
  destruct (extract_header_info_filter (working_lines s)) as (name & contact & He).
  rewrite He. cbn [mbind option_bind].
  set (remaining := List.filter _ (working_lines s)).
  destruct (parse_if_present (py "experience") _ _ _) as [e|] eqn:E1; cbn [mbind option_bind];
    [|discriminate].
  destruct (parse_if_present (py "projects") _ _ _) as [p|] eqn:E2; cbn [mbind option_bind];
    [|discriminate].
  destruct (parse_if_present (py "education") _ _ _) as [d|] eqn:E3; cbn [mbind option_bind];
    [|discriminate].
  destruct (parse_if_present (py "skills") _ _ _) as [k|] eqn:E4; cbn [mbind option_bind];
    [|discriminate].
  destruct (collect_other _ _ _) as [o|] eqn:E5; cbn [mbind option_bind]; [|discriminate].
  intros H. exists remaining. inversion H; subst r; clear H.
  cbn [r_raw_text r_raw_clean r_blocks r_lines r_name r_contact r_sections r_experience
       r_projects r_education r_skills r_other fst].
  repeat split; assumption || reflexivity.
Qed.

End RecordFacts.

(** ** Sorting the roles, and the signatures of code *)

Section MatcherLemmas.
Context {U : Unicode}.

Lemma insert_desc_perm x : forall l, Permutation (insert_desc x l) (x :: l).
Proof.
  induction l as [|y l IH]; cbn [insert_desc]; [reflexivity|].
  destruct (snd x <? snd y)%nat; [|reflexivity].
  rewrite IH. apply perm_swap.
Qed.

Lemma sorted_desc_perm : forall l, Permutation (sorted_desc l) l.
Proof.
  induction l as [|x l IH]; cbn [sorted_desc fold_right]; [reflexivity|].
  fold (sorted_desc l). rewrite insert_desc_perm, IH. reflexivity.
Qed.

Lemma insert_desc_sorted x : forall l,
  StronglySorted (fun a b : str * nat => (snd b <= snd a)%nat) l ->
  StronglySorted (fun a b : str * nat => (snd b <= snd a)%nat) (insert_desc x l).
Proof.
  induction l as [|y l IH]; intros Hs; cbn [insert_desc].
  - constructor; constructor.
  - apply StronglySorted_inv in Hs. destruct Hs as [Hs Hy].
    destruct (Nat.ltb_spec (snd x) (snd y)) as [Hlt|Hge].
    + constructor; [apply IH, Hs|].
      apply List.Forall_forall. intros z Hz.
      apply (Permutation_in _ (insert_desc_perm x l)) in Hz. destruct Hz as [<-|Hz]; [lia|].
      rewrite List.Forall_forall in Hy. apply Hy, Hz.
    + constructor; [constructor; assumption|].
      constructor; [exact Hge|]. eapply Forall_impl; [exact Hy|]. cbn beta. intros z Hz. lia.
Qed.

Lemma sorted_desc_sorted : forall l,
  StronglySorted (fun a b : str * nat => (snd b <= snd a)%nat) (sorted_desc l).
Proof.
  induction l as [|x l IH]; cbn [sorted_desc fold_right]; [constructor|].
  apply insert_desc_sorted, IH.
Qed.

(** The sort is stable: the items with one count keep their order. *)
Lemma insert_desc_stable n x : forall l,
  List.filter (fun y : str * nat => (snd y =? n)%nat) (insert_desc x l)
  = List.filter (fun y : str * nat => (snd y =? n)%nat) (x :: l).
Proof.
  induction l as [|y l IH]; cbn [insert_desc]; [reflexivity|].
  destruct (Nat.ltb_spec (snd x) (snd y)) as [Hlt|Hge]; [|reflexivity].
  cbn [List.filter] in *. rewrite IH.
  destruct (Nat.eqb_spec (snd x) n), (Nat.eqb_spec (snd y) n); try reflexivity. lia.
Qed.

Lemma sorted_desc_stable n : forall l,
  List.filter (fun y : str * nat => (snd y =? n)%nat) (sorted_desc l)
  = List.filter (fun y : str * nat => (snd y =? n)%nat) l.
Proof.
  induction l as [|x l IH]; cbn [sorted_desc fold_right]; [reflexivity|].
  fold (sorted_desc l). rewrite insert_desc_stable. cbn [List.filter]. rewrite IH. reflexivity.
Qed.

(* a filter on the counts passes through the projection to the names *)
Lemma map_fst_filter (count : str -> nat) (f : nat -> bool) : forall l : list (str * nat),
  Forall (fun rc => snd rc = count (fst rc)) l ->
  List.map fst (List.filter (fun rc => f (snd rc)) l)
  = List.filter (fun r => f (count r)) (List.map fst l).
Proof.
  induction l as [|rc l IH]; intros H; [reflexivity|].
  apply Forall_cons in H. destruct H as [H1 H2].
  cbn [List.filter List.map]. rewrite <- H1.
  destruct (f (snd rc)); cbn [List.map]; rewrite IH by exact H2; reflexivity.
Qed.

Lemma find_key_first {B} (k : str) : forall (d : list (str * B)) v,
  In (k, v) d -> NoDup (List.map fst d) ->
  List.find (fun kv => str_eq (fst kv) k) d = Some (k, v).
Proof.
  induction d as [|[k' v'] d IH]; intros v Hin Hn; [destruct Hin|].
  cbn [List.map fst] in Hn. apply NoDup_cons in Hn. destruct Hn as [Hk' Hn].
  cbn [List.find fst]. destruct Hin as [E|Hin].
  - inversion E; subst. rewrite str_eq_refl. reflexivity.
  - destruct (str_eq k' k) eqn:E.
    + apply str_eq_true in E. subst k'. exfalso. apply Hk'.
      apply list_elem_of_In. apply (in_map fst) in Hin. exact Hin.
    + apply IH; [exact Hin|exact Hn].
Qed.

Lemma role_names_nodup : NoDup role_names.
Proof. apply (bool_decide_unpack (NoDup role_names)). vm_compute. reflexivity. Qed.

Lemma role_count_pairs text_lower :
  Forall (fun rc : str * nat => snd rc = role_count text_lower (fst rc))
         (List.map (fun rs => (fst rs, match_count text_lower (snd rs))) ROLE_SKILL_MAP).
Proof.
  apply List.Forall_forall. intros rc Hrc. apply in_map_iff in Hrc.
  destruct Hrc as ([role skills] & <- & Hin). cbn [fst snd]. unfold role_count.
  rewrite (find_key_first role ROLE_SKILL_MAP skills); [reflexivity|exact Hin|].
  apply role_names_nodup.
Qed.

Lemma filter_perm {A} (f : A -> bool) l l' :
  Permutation l l' -> Permutation (List.filter f l) (List.filter f l').
Proof.
  induction 1 as [|x l l' _ IH|x y l|l l' l'' _ IH1 _ IH2]; cbn [List.filter].
  - reflexivity.
  - destruct (f x); [rewrite IH|exact IH]; reflexivity.
  - destruct (f x), (f y); try reflexivity. apply perm_swap.
  - rewrite IH1. exact IH2.
Qed.

Lemma filter_sorted {A} (R : A -> A -> Prop) (f : A -> bool) : forall l,
  StronglySorted R l -> StronglySorted R (List.filter f l).
Proof.
  induction l as [|x l IH]; intros H; cbn [List.filter]; [constructor|].
  apply StronglySorted_inv in H. destruct H as [H1 H2].
  destruct (f x); [|apply IH, H1]. constructor; [apply IH, H1|].
  apply List.Forall_forall. intros y Hy. apply filter_In in Hy.
  rewrite List.Forall_forall in H2. apply H2, Hy.
Qed.

Lemma map_fst_sorted (count : str -> nat) : forall l : list (str * nat),
  Forall (fun rc => snd rc = count (fst rc)) l ->
  StronglySorted (fun a b : str * nat => (snd b <= snd a)%nat) l ->
  StronglySorted (fun a b : str => (count b <= count a)%nat) (List.map fst l).
Proof.
  induction l as [|rc l IH]; intros Hc Hs; cbn [List.map]; [constructor|].
  apply Forall_cons in Hc. destruct Hc as [Hc1 Hc2].
  apply StronglySorted_inv in Hs. destruct Hs as [Hs1 Hs2].
  constructor; [apply IH; assumption|].
  apply List.Forall_forall. intros r Hr. apply in_map_iff in Hr. destruct Hr as (rc' & <- & Hin).
  rewrite List.Forall_forall in Hc2, Hs2. rewrite <- Hc1, <- (Hc2 rc' Hin). apply Hs2, Hin.
Qed.

Lemma role_at i role skills text_lower :
  nth_error ROLE_SKILL_MAP i = Some (role, skills) ->
  In role role_names /\ role_count text_lower role = match_count text_lower skills.
Proof.
  intros H. apply nth_error_In in H. split.
  - unfold role_names. apply (in_map fst _ _ H).
  - unfold role_count. rewrite (find_key_first role ROLE_SKILL_MAP skills H role_names_nodup).
    reflexivity.
Qed.

(* the pairs of the sorted list, each a role with its count *)
Lemma sorted_roles_counts text_lower :
  Forall (fun rc : str * nat => snd rc = role_count text_lower (fst rc))
         (sorted_desc (role_matches text_lower)).
Proof.
  eapply Permutation_Forall; [symmetry; apply sorted_desc_perm|].
  unfold role_matches. apply List.Forall_forall. intros rc Hrc. apply filter_In in Hrc.
  pose proof (role_count_pairs text_lower) as H. rewrite List.Forall_forall in H.
  apply H, Hrc.
Qed.

Lemma role_matches_names text_lower :
  List.map fst (role_matches text_lower)
  = List.filter (fun r => (0 <? role_count text_lower r)%nat) role_names.
Proof.
  unfold role_matches, role_names.
  rewrite (map_fst_filter (role_count text_lower) (fun n => (0 <? n)%nat))
    by apply role_count_pairs.
  rewrite List.map_map. reflexivity.
Qed.

(** The roles returned are those with two skills or more in the text. *)
Lemma detect_roles_perm text :
  Permutation (detect_roles_from_skills text)
              (List.filter (fun r => (2 <=? role_count (u_lower text) r)%nat) role_names).
Proof.
  unfold detect_roles_from_skills. cbn zeta.
  rewrite (map_fst_filter (role_count (u_lower text)) (fun n => (2 <=? n)%nat))
    by apply sorted_roles_counts.
  rewrite (filter_perm _ _ _ (Permutation_map fst (sorted_desc_perm _))).
  rewrite role_matches_names, filter_filter_and.
  erewrite filter_ext; [reflexivity|]. intros r. cbn beta.
  destruct (Nat.ltb_spec 0 (role_count (u_lower text) r)),
           (Nat.leb_spec 2 (role_count (u_lower text) r)); try reflexivity. lia.
Qed.

Lemma detect_roles_sorted text :
  StronglySorted (fun a b => (role_count (u_lower text) b <= role_count (u_lower text) a)%nat)
                 (detect_roles_from_skills text).
Proof.
  unfold detect_roles_from_skills. cbn zeta. apply map_fst_sorted.
  - pose proof (sorted_roles_counts (u_lower text)) as H. rewrite List.Forall_forall in H |- *.
    intros rc Hrc. apply filter_In in Hrc. apply H, Hrc.
  - apply filter_sorted, sorted_desc_sorted.
Qed.

Lemma detect_roles_ties text n :
  List.filter (fun r => (role_count (u_lower text) r =? n)%nat) (detect_roles_from_skills text)
  = List.filter (fun r => (role_count (u_lower text) r =? n)%nat && (2 <=? n)%nat) role_names.
Proof.
  unfold detect_roles_from_skills. cbn zeta.
  assert (Hc : Forall (fun rc : str * nat => snd rc = role_count (u_lower text) (fst rc))
                      (List.filter (fun rc : str * nat => (2 <=? snd rc)%nat)
                                   (sorted_desc (role_matches (u_lower text))))).
  { pose proof (sorted_roles_counts (u_lower text)) as H. rewrite List.Forall_forall in H |- *.
    intros rc Hrc. apply filter_In in Hrc. apply H, Hrc. }
  rewrite <- (map_fst_filter (role_count (u_lower text)) (fun m => (m =? n)%nat)) by exact Hc.
  rewrite filter_filter_and.
  erewrite (filter_ext _ (fun rc : str * nat => (snd rc =? n)%nat && (2 <=? n)%nat)).
  2:{ intros rc. cbn beta. destruct (Nat.eqb_spec (snd rc) n) as [->|_];
        [apply andb_comm|apply andb_false_r]. }
  rewrite <- (filter_filter_and (fun _ => (2 <=? n)%nat) (fun rc : str * nat => (snd rc =? n)%nat)).
  rewrite sorted_desc_stable.
  rewrite (filter_filter_and (fun _ : str * nat => (2 <=? n)%nat)).
  unfold role_matches. rewrite filter_filter_and.
  erewrite (filter_ext _ (fun rc : str * nat => (snd rc =? n)%nat && (2 <=? n)%nat)).
  2:{ intros rc. cbn beta. destruct (Nat.eqb_spec (snd rc) n) as [->|_].
      - destruct (Nat.leb_spec 2 n), (Nat.ltb_spec 0 n); try reflexivity. lia.
      - rewrite andb_false_r. reflexivity. }
  rewrite (map_fst_filter (role_count (u_lower text)) (fun m => (m =? n)%nat && (2 <=? n)%nat))
    by apply role_count_pairs.
  rewrite List.map_map. reflexivity.
Qed.

End MatcherLemmas.

(** ** Substrings, and the literal a signature begins with *)

Section KeywordFacts.
Context {U : Unicode}.

Lemma startswith_spec : forall x s, startswith s x = true <-> exists post, s = x ++ post.
Proof.
  induction x as [|a x IH]; intros s; cbn [startswith].
  - split; [intros _; exists s; reflexivity|intros _; destruct s; reflexivity].
  - destruct s as [|b s]; cbn [startswith].
    + split; [discriminate|]. intros [post H]. discriminate.
    + rewrite andb_true_iff, N.eqb_eq, IH. split.
      * intros [-> [post ->]]. exists post. reflexivity.
      * intros [post H]. inversion H; subst. split; [reflexivity|]. exists post. reflexivity.
Qed.

Lemma contains_spec x : forall s,
  contains s x = true <-> exists pre post, s = pre ++ x ++ post.
Proof.
  induction s as [|c s IH]; cbn [contains]; rewrite orb_true_iff, startswith_spec.
  - split.
    + intros [[post H]|H]; [|discriminate]. exists [], post. exact H.
    + intros (pre & post & H). left. destruct pre; [|discriminate]. exists post. exact H.
  - rewrite IH. split.
    + intros [[post H]|(pre & post & H)].
      * exists [], post. exact H.
      * exists (c :: pre), post. rewrite H. reflexivity.
    + intros (pre & post & H). destruct pre as [|c' pre].
      * left. exists post. exact H.
      * right. inversion H; subst. exists pre, post. reflexivity.
Qed.

(** A text that mentions a string mentions the parts of the string. *)
Lemma contains_trans s x y :
  contains s x = true -> contains x y = true -> contains s y = true.
Proof.
  rewrite !contains_spec. intros (pre & post & ->) (pre' & post' & ->).
  exists (pre ++ pre'), (post' ++ post). rewrite <- !app_assoc. reflexivity.
Qed.

(* two strings of a list that the text mentions *)
Lemma filter_two {A} (p : A -> bool) (a b : A) l :
  In a l -> In b l -> a <> b -> p a = true -> p b = true ->
  (2 <= length (List.filter p l))%nat.
Proof.
  intros Ha Hb Hab Hpa Hpb.
  assert (Ha' : In a (List.filter p l)) by (apply filter_In; auto).
  assert (Hb' : In b (List.filter p l)) by (apply filter_In; auto).
  destruct (List.filter p l) as [|x [|y t]]; simpl in *; [tauto| |lia].
  destruct Ha' as [<-|[]], Hb' as [<-|[]]. contradiction.
Qed.

(** Where a search finds its match. *)
Lemma search_from_position r : forall aft bef mo,
  search_from r bef aft = Some mo ->
  exists pre post, aft = pre ++ post /\ match_at r (rev pre ++ bef) post = Some mo.
Proof.
  induction aft as [|c t IH]; intros bef mo; cbn [search_from].
  - destruct (match_at r bef []) eqn:E; [|discriminate].
    intros [= <-]. exists [], []. split; [reflexivity|exact E].
  - destruct (match_at r bef (c :: t)) eqn:E.
    + intros [= <-]. exists [], (c :: t). split; [reflexivity|exact E].
    + intros H. apply IH in H. destruct H as (pre & post & -> & H).
      exists (c :: pre), post. split; [reflexivity|]. simpl. rewrite <- app_assoc. exact H.
Qed.

(* a literal matches itself only *)
Lemma lit_match : forall s st st',
  In st' (rmatch (lit s) st) -> exists post, m_after st = s ++ post.
Proof.
  induction s as [|c s IH]; intros st st'.
  - intros _. exists (m_after st). reflexivity.
  - destruct s as [|c' s'].
    + cbn [lit chr rmatch]. destruct (m_after st) as [|x t]; [intros []|].
      destruct (N.eqb_spec c x) as [->|_]; [|intros []]. intros _. exists t. reflexivity.
    + change (lit (c :: c' :: s')) with (Cat (chr c) (lit (c' :: s'))).
      rewrite rmatch_cat. intros H. apply in_flat_map in H. destruct H as (st1 & H1 & H2).
      apply IH in H2. destruct H2 as [post Hp].
      cbn [chr rmatch] in H1. destruct (m_after st) as [|x t]; [destruct H1|].
      destruct (N.eqb_spec c x) as [->|_]; [|destruct H1].
      destruct H1 as [<-|[]]. cbn [m_after] in Hp. exists post. rewrite Hp. reflexivity.
Qed.

(** A signature of the form \b, a literal, and more matches only a text
    that has the literal. *)
Lemma keyword_search kw rest text :
  is_Some (re_search (Cat WordB (Cat (lit kw) rest)) text) -> contains text kw = true.
Proof.
  intros [mo H]. unfold re_search in H. apply search_from_position in H.
  destruct H as (pre & post & -> & H).
  pose proof (match_at_in _ _ _ _ H) as Hin. apply match_at_prefix in H. destruct H as [Hs _].
  rewrite Hs in Hin. rewrite rmatch_cat in Hin. apply in_flat_map in Hin.
  destruct Hin as (st1 & H1 & H2). cbn [rmatch] in H1.
  destruct (at_word_boundary _); [|destruct H1]. destruct H1 as [<-|[]].
  rewrite rmatch_cat in H2. apply in_flat_map in H2. destruct H2 as (st2 & H2 & _).
  apply lit_match in H2. destruct H2 as [post' Hp]. cbn [m_after] in Hp.
  apply contains_spec. exists pre, post'. rewrite Hp. reflexivity.
Qed.

(* of two lists of tests, the second passing wherever the first passes *)
Lemma count_le {A B} (f : A -> bool) (g : B -> bool) : forall l l',
  Forall2 (fun a b => f a = true -> g b = true) l l' ->
  (length (List.filter f l) <= length (List.filter g l'))%nat.
Proof.
  induction 1 as [|a b l l' H _ IH]; cbn [List.filter]; [simpl; lia|].
  destruct (f a); [rewrite H by reflexivity; simpl; lia|].
  destruct (g b); simpl; lia.
Qed.

Lemma code_patterns_keywords text :
  Forall2 (fun p kw => bool_decide (is_Some (re_search p text)) = true -> contains text kw = true)
          code_patterns code_keywords.
Proof.
  unfold code_patterns, code_keywords. cbn [List.map].
  repeat (constructor; [intros H; apply bool_decide_eq_true in H;
                        eapply keyword_search; exact H|]).
  constructor.
Qed.

End KeywordFacts.

(** ** The parts of the rule-based score *)

Section ScorerFacts.
Context {U : Unicode}.

Lemma contact_score_bounds (e p l : bool) :
  (0 <= (if e then 5 else 0) + (if p then 3 else 0) + (if l then 2 else 0) <= 10)%Q
  /\ (p = false -> ((if e then 5 else 0) + (if p then 3 else 0) + (if l then 2 else 0) <= 7)%Q).
Proof. destruct e, p, l; repeat split; try discriminate; intros; unfold Qle; simpl; lia. Qed.

Lemma filter_length_le {A} (f : A -> bool) l : (length (List.filter f l) <= length l)%nat.
Proof. induction l as [|x l IH]; simpl; [lia|]. destruct (f x); simpl; lia. Qed.

Lemma section_score_bounds n :
  (n <= 5)%nat -> (0 <= num n / num 5 * 15 <= 15)%Q.
Proof.
  intros H. do 6 (destruct n as [|n]; [split; unfold Qle; simpl; lia|]). lia.
Qed.

Lemma step_score_bounds (a b c : bool) (x y z w : Q) :
  (0 <= w)%Q -> (w <= z)%Q -> (z <= y)%Q -> (y <= x)%Q ->
  (0 <= (if a then x else if b then y else if c then z else w) <= x)%Q.
Proof. intros. destruct a, b, c; split; lra. Qed.

Lemma length_score_bounds (a b : bool) : (3 <= (if a then 10 else if b then 7 else 3) <= 10)%Q.
Proof. destruct a, b; split; lra. Qed.

(** The six parts of the score, each within its range. *)
Lemma rule_score_parts resume_text (pd : parsed_data) :
  exists c s k l b v (n1 n2 n3 n4 : nat),
    calculate_rule_based_score resume_text pd
    = ((0 + c + s + k + l + b + v)%Q,
       [(py "contact_info", [(py "score", c); (py "max", 10%Q)]);
        (py "standard_sections", [(py "score", s); (py "max", 15%Q)]);
        (py "skills_detection", [(py "score", k); (py "max", 15%Q); (py "count", num n1)]);
        (py "resume_length", [(py "score", l); (py "max", 10%Q); (py "word_count", num n2)]);
        (py "bullet_points", [(py "score", b); (py "max", 10%Q); (py "count", num n3)]);
        (py "action_verbs", [(py "score", v); (py "max", 10%Q); (py "count", num n4)])])
    /\ (0 <= c <= 10)%Q /\ (0 <= s <= 15)%Q /\ (0 <= k <= 15)%Q
    /\ (3 <= l <= 10)%Q /\ (0 <= b <= 10)%Q /\ (0 <= v <= 10)%Q
    /\ (get_truthy (py "phones") (default [] (pd_contact pd)) = false -> (c <= 7)%Q).
Proof.
  unfold calculate_rule_based_score. cbn zeta.
  do 10 eexists. split; [reflexivity|].
  split; [apply contact_score_bounds|].
  split; [apply section_score_bounds; apply (filter_length_le _ standard_sections)|].
  split; [apply step_score_bounds; lra|].
  split; [apply length_score_bounds|].
  split; [apply step_score_bounds; lra|].
  split; [apply step_score_bounds; lra|].
  apply contact_score_bounds.
Qed.

Lemma item_score_head name q item rest :
  item_score name ((name, (py "score", q) :: item) :: rest) = q.
Proof. unfold item_score. cbn [List.find fst]. rewrite !str_eq_refl. reflexivity. Qed.

Lemma item_score_skip name name' item rest :
  name' <> name -> item_score name ((name', item) :: rest) = item_score name rest.
Proof.
  intros H. unfold item_score. cbn [List.find fst].
  destruct (str_eq name' name) eqn:E; [apply str_eq_true in E; contradiction|reflexivity].
Qed.

(* reading the six scores back from the breakdown *)
Lemma breakdown_scores (c s k l b v : Q) (i1 i2 i3 i4 i5 i6 : list (str * Q)) :
  let breakdown :=
    [(py "contact_info", (py "score", c) :: i1);
     (py "standard_sections", (py "score", s) :: i2);
     (py "skills_detection", (py "score", k) :: i3);
     (py "resume_length", (py "score", l) :: i4);
     (py "bullet_points", (py "score", b) :: i5);
     (py "action_verbs", (py "score", v) :: i6)] in
  item_score (py "contact_info") breakdown = c
  /\ item_score (py "standard_sections") breakdown = s
  /\ item_score (py "skills_detection") breakdown = k
  /\ item_score (py "resume_length") breakdown = l
  /\ item_score (py "bullet_points") breakdown = b
  /\ item_score (py "action_verbs") breakdown = v.
Proof.
  cbn zeta.
  repeat split;
    repeat (rewrite item_score_skip by (intros H; vm_compute in H; discriminate));
    apply item_score_head.
Qed.

End ScorerFacts.

(** ** The technologies of a project *)

Section ProjectTokens.
Context {U : Unicode}.

(* the parts a split returns are made of characters re.sub would keep *)
Lemma split_part_chars r s part x :
  In part (re_split r s) -> In x part -> In x (re_sub r (fun _ => []) s).
Proof.
  unfold re_split, re_sub. destruct (finditer r s) as [ms tail]. intros Hp Hx.
  apply in_app_or in Hp. apply in_or_app. destruct Hp as [Hp|[<-|[]]]; [left|right; exact Hx].
  apply in_map_iff in Hp. destruct Hp as (gm & <- & Hgm).
  apply in_concat. exists (fst gm ++ []). split; [|rewrite app_nil_r; exact Hx].
  apply in_map_iff. exists gm. split; [reflexivity|exact Hgm].
Qed.

Lemma split_tech_items l :
  Forall tech_item
         (List.map strip (List.filter (fun t => truthy (strip t))
                                      (re_split (Cls cls_comma_pipe) l))).
Proof.
  apply List.Forall_forall. intros t Ht. apply in_map_iff in Ht. destruct Ht as (p & <- & Hp).
  apply filter_In in Hp. destruct Hp as [Hp Hne].
  assert (Hc : forall x, In x (strip p) -> cls_comma_pipe x = false).
  { intros x Hx. unfold strip in Hx. apply strip_by_subset in Hx.
    apply (split_part_chars _ _ _ _ Hp) in Hx. apply sub_cls_chars in Hx.
    destruct Hx as [[]|[_ Hx]]. exact Hx. }
  split; [destruct (strip p); [discriminate|discriminate]|].
  split; [apply strip_idempotent|].
  split; intros Hin; apply Hc in Hin; discriminate.
Qed.

Lemma collect_project_tech : forall lines bullets tech,
  Forall tech_item tech ->
  Forall tech_item (snd (fst (collect_project bullets tech lines))).
Proof.
  induction lines as [|l0 rest IH]; intros bullets tech Ht; cbn [collect_project]; [exact Ht|].
  destruct (is_caps_header l0); [exact Ht|]. cbn zeta.
  destruct (strip l0) as [|c s] eqn:E; [apply IH, Ht|].
  destruct (char_in bullet_marks c); [apply IH, Ht|].
  destruct (_ || _); [|apply IH, Ht].
  apply IH. apply Forall_app. split; [exact Ht|apply split_tech_items].
Qed.

Lemma project_of_chunk_shape chunk :
  Forall tech_item (p_tech (project_of_chunk chunk))
  /\ (p_name (project_of_chunk chunk) = None ->
      p_tech (project_of_chunk chunk) = [] /\ p_raw_header (project_of_chunk chunk) = None)
  /\ (is_Some (p_name (project_of_chunk chunk)) ->
      is_Some (p_raw_header (project_of_chunk chunk))).
Proof.
  unfold project_of_chunk. destruct chunk as [|l0 body]; [repeat split; eauto; constructor|].
  cbn zeta. destruct (is_project_name (strip l0)).
  - pose proof (collect_project_tech body [] [] (Forall_nil_2 _)) as H.
    destruct (collect_project [] [] body) as [[bullets tech] r]. cbn [fst snd] in H.
    cbn [p_tech p_name p_raw_header]. repeat split; [exact H|discriminate|discriminate|eauto].
  - cbn [p_tech p_name p_raw_header]. repeat split; [constructor|intros [x Hx]; discriminate].
Qed.

End ProjectTokens.

(** * The claims *)

(** Statements about a concrete ASCII text are run with the ASCII tables;
    the others hold for every [Unicode] instance [U]. *)
#[local] Existing Instance ascii_tables | 100.

(** ** C1: the experience scenario *)

(** C1, as stated, fails: the parser returns four entries, one per line. *)
Lemma experience_scenario_four_entries :
  (exists e1 e2 e3 e4, parse_experience_section experience_scenario
                       = Some [e1; e2; e3; e4])
  /\ ~ one_entry_expected (parse_experience_section experience_scenario).
Proof.
  split.
  - do 4 eexists. vm_compute. reflexivity.
  - intros (e & H & _). vm_compute in H. discriminate.
Qed.

(** C1, amended: the header line gives a first entry with the title and the
    company and no dates; the date line is header-like by its date range and
    opens a second entry, which carries the two dates. *)
Theorem experience_scenario_entries :
  exists bullets rest,
    parse_experience_section experience_scenario
    = Some (ExperienceEntry (Some (py "Senior Engineer")) (Some (py "Acme Corp")) None
                            None None [] (Some (py "Senior Engineer at Acme Corp"))
            :: ExperienceEntry (Some (py "Jan 2020 - Present")) None None
                               (Some (py "Jan 2020")) (Some (py "Present")) bullets
                               (Some (py "Jan 2020 - Present"))
            :: rest).
Proof. do 2 eexists. vm_compute. reflexivity. Qed.

(** ** C2: the normaliser *)


(** The newline step of the first pass can make a hyphen break as well: it
    turns the carriage return after the hyphen into a line feed, and the
    second pass joins the two words. *)
Lemma normalize_makes_break :
  normalize carriage_return_break = py "a-" ++ nl_str ++ py "b"
  /\ normalize (normalize carriage_return_break) = py "ab".
Proof. split; vm_compute; reflexivity. Qed.



(** ** C3: the section map against the lines *)

(** C3, as stated, fails: a heading line is consumed and is in no section. *)
Lemma section_values_drop_headings :
  values (segment_sections education_block) <> education_block.
Proof. vm_compute. discriminate. Qed.

(** C3, amended: the values of the section map, concatenated, are a
    rearrangement of exactly the lines that are not headings (a section
    opened twice gets the later lines after its earlier ones), and every
    section's list is not empty and keeps the order of the lines. *)
Theorem segment_sections_partition {U : Unicode} (lines : list str) :
  Permutation (values (segment_sections lines))
              (List.filter (fun ln => negb (is_heading ln)) lines)
  /\ Forall (fun kv : str * list str => sublist (snd kv) lines /\ snd kv <> [])
            (segment_sections lines).
Proof.
  split.
  - unfold segment_sections.
    rewrite values_filter_truthy, segment_fold_values. unfold values. simpl. reflexivity.
  - apply segment_sections_sublist.
Qed.

(** ** C4: the lines the header extractor removes *)

(** C4, as stated, fails: the sixteenth line has the text of the name line
    and is removed with it. *)
Lemma later_line_removed : ~ later_lines_kept name_repeated.
Proof.
  intros (name & contact & kept & H). vm_compute in H.
  injection H as _ _ H. apply (f_equal (@rev _)) in H.
  rewrite rev_app_distr in H. simpl in H. discriminate.
Qed.

(** C4, amended: the header extractor returns, and it removes lines by
    their text: a line goes, wherever it stands, exactly when its text is
    that of a window line up to and including the name line, or of a window
    line in which the email, phone or link pattern matches; when no line
    from position 15 on has such a text, those lines all come back
    unchanged, after what is left of the window. *)
Theorem extract_header_info_removes_by_text {U : Unicode} (lines : list str) :
  exists name contact remaining,
    extract_header_info lines = Some (name, contact, remaining)
    /\ remaining = List.filter (fun ln => negb (header_text lines ln)) lines
    /\ (Forall (fun ln => header_text lines ln = false) (skipn 15 lines) ->
        exists kept, sublist kept (firstn 15 lines) /\ remaining = kept ++ skipn 15 lines).
Proof.
  destruct (extract_header_info_filter lines) as (name & contact & H).
  exists name, contact, (List.filter (fun ln => negb (header_text lines ln)) lines).
  split; [exact H|]. split; [reflexivity|]. intros Hl.
  exists (List.filter (fun ln => negb (header_text lines ln)) (firstn 15 lines)).
  split; [apply filter_sublist|].
  transitivity (List.filter (fun ln => negb (header_text lines ln))
                            (firstn 15 lines ++ skipn 15 lines));
    [rewrite firstn_skipn; reflexivity|].
  rewrite List.filter_app. f_equal.
  apply filter_all. eapply Forall_impl; [exact Hl|]. simpl. intros ln ->. reflexivity.
Qed.

Lemma extract_header_info_witness :
  exists name contact kept,
    sublist kept (firstn 15 two_names)
    /\ extract_header_info two_names = Some (name, contact, kept ++ skipn 15 two_names).
Proof.
  destruct (extract_header_info_removes_by_text two_names)
    as (name & contact & remaining & H1 & H2 & H3).
  destruct H3 as (kept & Hs & Hk).
  { apply List.Forall_forall. intros ln Hin. vm_compute in Hin.
    destruct Hin as [<-|[]]. vm_compute. reflexivity. }
  exists name, contact, kept. split; [exact Hs|]. rewrite H1, Hk. reflexivity.
Defined.

(** ** C5: where a project entry ends *)

(** C5, as stated, fails: the second line has four tokens, so it satisfies
    the project-name condition, and yet it is collected as a bullet of the
    entry the first line opens. *)
Lemma short_line_collected :
  parse_projects_section tool_project
    = Some [ProjectEntry (Some (py "Resume Parser")) None []
                         [py "parses resumes into JSON"] (Some (py "Resume Parser"))]
  /\ ~ (exists entries, parse_projects_section tool_project = Some entries
          /\ chunked_by (fun l => is_project_name (strip l)) tool_project entries).
Proof.
  split; [vm_compute; reflexivity|].
  intros (entries & Hp & chunks & Hc & He & Hg).
  vm_compute in Hp. injection Hp as <-.
  destruct chunks as [|c [|c' chunks]]; try discriminate.
  simpl in Hc. rewrite app_nil_r in Hc. subst c.
  inversion Hg as [|? ? [_ Hb] _]; subst. simpl in Hb.
  inversion Hb as [|? ? Hs _]; subst. vm_compute in Hs. discriminate.
Qed.

(** C5, amended: the parser returns, and its entries are those of
    consecutive chunks of the lines; the lines collected under the first
    line of a chunk reach to the next non-empty line of at most 10 tokens
    that is its own upper-case form: no such line is inside a chunk, and
    every chunk after the first begins with one. *)
Theorem parse_projects_section_chunks {U : Unicode} (lines : list str) :
  exists entries chunks,
    parse_projects_section lines = Some entries
    /\ concat chunks = lines
    /\ entries = List.map project_of_chunk chunks
    /\ Forall (fun c : list str =>
                 c <> [] /\ Forall (fun l => is_caps_header l = false) (tl c)) chunks
    /\ starts_at is_caps_header (tl chunks).
Proof.
  unfold parse_projects_section.
  destruct (projects_loop_chunks (S (length lines)) lines []) as (chunks & H1 & H2 & H3 & H4);
    [lia|].
  exists (List.map project_of_chunk chunks), chunks. simpl in H1. auto.
Qed.

(** ** C6: the repetition filter *)

Lemma filter_blocks_nonempty {U : Unicode} cand : forall blocks (earlier : gset str),
  Forall (fun b : list str => b <> []) (filter_blocks cand earlier blocks).
Proof.
  induction blocks as [|b bs IH]; intros earlier; simpl; [constructor|].
  destruct (keep_first cand earlier b) eqn:E; simpl; [apply IH|].
  constructor; [discriminate|apply IH].
Qed.

(** C6: on a list of Blocks (each not empty, its lines trimmed) the filter
    keeps of every short line that appears in more than one block the first
    occurrence in the document and deletes the later ones, drops the blocks
    left without lines, and keeps every other line: so a candidate occurs
    exactly once in the result, a line that is not a candidate as often as
    before, and a line that occurs once is never removed. *)
Theorem remove_repeated_header_footer_keeps_first {U : Unicode} (blocks : list (list str)) :
  well_formed_blocks blocks ->
  remove_repeated_header_footer blocks = filter_blocks (candidate blocks) ∅ blocks
  /\ (forall k, candidate blocks k = true ->
        occurrences k (concat (remove_repeated_header_footer blocks)) = 1%nat)
  /\ (forall k, candidate blocks k = false ->
        occurrences k (concat (remove_repeated_header_footer blocks))
        = occurrences k (concat blocks))
  /\ (forall ln, occurrences ln (concat blocks) = 1%nat ->
        occurrences ln (concat (remove_repeated_header_footer blocks)) = 1%nat)
  /\ Forall (fun b : list str => b <> []) (remove_repeated_header_footer blocks).
Proof.
  intros Hwf. rewrite (remove_repeated_spec blocks Hwf). split; [reflexivity|].
  rewrite filter_blocks_concat. repeat split.
  - intros k Hk. rewrite keep_first_occurrences, Hk.
    rewrite bool_decide_false by apply not_elem_of_empty.
    pose proof (blocks_with_le k blocks) as Hle. unfold candidate in Hk.
    apply andb_prop in Hk. destruct Hk as [_ Hk]. apply Nat.leb_le in Hk. lia.
  - intros k Hk. rewrite keep_first_occurrences, Hk. reflexivity.
  - intros ln Hln. rewrite keep_first_occurrences, Hln.
    rewrite bool_decide_false by apply not_elem_of_empty.
    destruct (candidate blocks ln); reflexivity.
  - apply filter_blocks_nonempty.
Qed.

Lemma remove_repeated_header_footer_witness :
  well_formed_blocks three_pages
  /\ remove_repeated_header_footer three_pages
     = [[py "John Doe"; py "Page 1"; py "Built the billing service"]; [py "Shipped it"]]
  /\ occurrences (py "John Doe") (concat (remove_repeated_header_footer three_pages)) = 1%nat.
Proof.
  assert (Hwf : well_formed_blocks three_pages).
  { unfold well_formed_blocks, three_pages.
    repeat (constructor; [split; [discriminate|repeat (constructor; [vm_compute; reflexivity|]);
                                              constructor]|]).
    constructor. }
  destruct (remove_repeated_header_footer_keeps_first three_pages Hwf) as (H1 & H2 & _).
  split; [exact Hwf|]. split.
  - rewrite H1. vm_compute. reflexivity.
  - apply H2. vm_compute. reflexivity.
Defined.

(** ** C7: a heading and two lines *)

(** C7, as stated for any two lines, fails: a following line that is itself
    a heading opens its own section. *)
Lemma heading_round_trip_fails :
  ~ heading_round_trip (py "EDUCATION") (py "Skills") (py "Python").
Proof. unfold heading_round_trip. intros [H _]. vm_compute in H. discriminate. Qed.

Lemma education_label_is_header {U : Unicode} (h : str) :
  In (_normalize_for_matching h) education_labels ->
  _is_section_header h = Some (py "education").
Proof.
  intros H. unfold _is_section_header.
  destruct H as [H|[H|[H|[]]]]; rewrite <- H; reflexivity.
Qed.

(** C7, amended: the heading matches a label of "education" exactly, and the
    two lines after it are not headings themselves. *)
Theorem education_heading_round_trip {U : Unicode} (h l1 l2 : str) :
  In (_normalize_for_matching h) education_labels ->
  _is_section_header l1 = None ->
  _is_section_header l2 = None ->
  heading_round_trip h l1 l2.
Proof.
  intros Hh H1 H2. apply education_label_is_header in Hh.
  assert (E : segment_sections [h; l1; l2] = [(py "education", [l1; l2])]).
  { unfold segment_sections. cbn [foldl]. unfold segment_step. rewrite Hh, H1, H2.
    reflexivity. }
  unfold heading_round_trip. rewrite E. split; [reflexivity|].
  constructor; [|constructor]. simpl. intros [->|[->|[]]]; congruence.
Qed.

Lemma education_heading_witness :
  heading_round_trip (py "EDUCATION") (py "B.Sc. in Physics")
                     (py "2015 - 2019").
Proof.
  apply education_heading_round_trip.
  - left. vm_compute. reflexivity.
  - vm_compute. reflexivity.
  - vm_compute. reflexivity.
Defined.

(** ** C8: the parser is total, and what it returns when it finds nothing *)

(** C8, as stated, fails: on the empty text the section map is empty, it has
    no "other" section (empty lists are removed from the map); and a text
    with no heading and no contact information can still have a name, as
    "Hello" has, whose only line is then removed from the body. *)
Lemma nothing_found_differs :
  (exists r, parse_resume_text [] = Some r /\ r_sections r = [])
  /\ ~ degrades_to_other []
  /\ (exists r, parse_resume_text (py "Hello") = Some r
        /\ r_name r = Some (py "Hello") /\ r_sections r = [])
  /\ ~ degrades_to_other (py "Hello").
Proof.
  repeat split.
  - eexists. split; [vm_compute; reflexivity|reflexivity].
  - intros (r & H & _ & _ & Hs & _). vm_compute in H. injection H as <-. discriminate.
  - eexists. split; [vm_compute; reflexivity|]. split; reflexivity.
  - intros (r & H & Hn & _). vm_compute in H. injection H as <-. discriminate.
Qed.

(** C8, amended: the parser returns a record on every text (no exception,
    every loop comes to an end); and when no working line is a heading and no
    line of the window has a contact pattern or looks like a name, the name
    is null, the contact lists and the typed entry lists are empty, and the
    section map is the single section "other" with all the working lines, or
    is empty when there is no line at all. *)
Theorem parse_resume_text_total {U : Unicode} (s : str) :
  exists r,
    parse_resume_text s = Some r
    /\ (Forall (fun ln => _is_section_header ln = None) (r_lines r) ->
        Forall quiet (firstn 15 (r_lines r)) ->
        r_name r = None /\ r_contact r = Contact [] [] []
        /\ r_sections r = match r_lines r with [] => [] | _ => [(py "other", r_lines r)] end
        /\ r_experience r = [] /\ r_projects r = [] /\ r_education r = []
        /\ r_skills r = [] /\ r_other r = []).
Proof.
  destruct (parse_resume_text_returns s) as (r & Hr & Hl).
  exists r. split; [exact Hr|]. rewrite Hl. intros Hh Hq.
  destruct (parse_resume_text_quiet s Hh Hq) as (c & b & H).
  rewrite H in Hr. injection Hr as <-. simpl. repeat split; reflexivity.
Qed.

Lemma parse_resume_text_witness :
  exists r,
    parse_resume_text plain_text = Some r
    /\ r_name r = None /\ r_contact r = Contact [] [] []
    /\ r_sections r = [(py "other", [py "hello world"; py "some more text to read"])]
    /\ r_experience r = [] /\ r_projects r = [] /\ r_education r = []
    /\ r_skills r = [] /\ r_other r = [].
Proof.
  destruct (parse_resume_text_total plain_text) as (r & Hr & H).
  exists r. split; [exact Hr|].
  assert (Hl : r_lines r = [py "hello world"; py "some more text to read"]).
  { vm_compute in Hr. injection Hr as <-. reflexivity. }
  rewrite Hl in H. apply H.
  - repeat (constructor; [vm_compute; reflexivity|]). constructor.
  - repeat (constructor; [split; vm_compute; reflexivity|]). constructor.
Defined.

(** ** C9: the skills parser *)

(** C9: the two lines give the four skills, each once, in the order of
    their first occurrence; and for every list of lines (and every table)
    the result is the list of phrases, a phrase that is its own upper-case
    form kept and any other title-cased, deduplicated up to case in
    first-seen order, so that no two results agree up to case. *)
Theorem parse_skills_section_spec :
  parse_skills_section [py "Python, SQL"; py "AWS | Docker"]
    = [py "Python"; py "SQL"; py "AWS"; py "Docker"]
  /\ forall (U : Unicode) (lines : list str),
       parse_skills_section lines
       = dedupe_ci (List.map (fun s => if str_eq (u_upper s) s then s else u_title s)
                             (skill_phrases lines))
       /\ List.NoDup (List.map u_lower (parse_skills_section lines)).
Proof.
  split; [vm_compute; reflexivity|]. intros U lines. split.
  - apply parse_skills_dedupe.
  - rewrite parse_skills_dedupe. apply dedupe_ci_nodup.
Qed.

(** ** C10: a bare year range in the window *)

(** C10: the phone pattern matches the whole of "2015-2019", eight digits,
    and the line is removed from the body; but [findall] hands the loop the
    text of the pattern's one group, the country code, empty here, and
    nothing is put in the phone list.  The group has at most five
    characters, so on no input is any phone number reported. *)
Theorem year_range_not_reported :
  option_map group0 (re_search phone_re (py "2015-2019")) = Some (py "2015-2019")
  /\ digit_count (py "2015-2019") = 8%nat
  /\ re_findall_group phone_re (py "2015-2019") = [[]]
  /\ extract_header_info [py "2015-2019"] = Some (None, Contact [] [] [], [])
  /\ forall (U : Unicode) (lines : list str),
       exists name contact remaining,
         extract_header_info lines = Some (name, contact, remaining)
         /\ phones contact = [].
Proof.
  repeat split; try (vm_compute; reflexivity).
  intros U lines. destruct (extract_header_info_filter lines) as (name & contact & H).
  do 3 eexists. split; [exact H|].
  eapply extract_header_info_no_phone. exact H.
Qed.

(** * Further properties of the parser *)

(** ** X1: line breaks after the second step of the normaliser *)

(** X1: [_normalize_newlines] leaves no carriage return and no three line
    feeds in a row, adds no character but the line feed, and changes nothing
    when it is applied to its own result. *)
Theorem normalize_newlines_result {U : Unicode} (s : str) :
  ~ In c_cr (_normalize_newlines s)
  /\ (forall a b, _normalize_newlines s <> a ++ [c_nl; c_nl; c_nl] ++ b)
  /\ (forall x, In x (_normalize_newlines s) -> In x s \/ x = c_nl)
  /\ _normalize_newlines (_normalize_newlines s) = _normalize_newlines s.
Proof.
  split; [apply normalize_newlines_no_cr|].
  split; [intros a b; apply short_runs_no_triple, normalize_newlines_short_runs|].
  split; [intros x; apply normalize_newlines_chars|apply normalize_newlines_idempotent].
Qed.

(** ** X2: texts the hyphen join leaves alone *)

(** X2: [_merge_hyphenated_words] returns its text unchanged when the text
    has no hyphen or has no line feed. *)
Theorem merge_hyphenated_words_unchanged {U : Unicode} (s : str) :
  ~ In c_hyphen s \/ ~ In c_nl s -> _merge_hyphenated_words s = s.
Proof.
  intros [H|H]; [apply merge_without_hyphen|apply merge_without_newline]; exact H.
Qed.

Lemma merge_hyphenated_words_witness :
  _merge_hyphenated_words (py "state-of-the-art design") = py "state-of-the-art design".
Proof.
  apply merge_hyphenated_words_unchanged. right.
  intros H. apply list_elem_of_In in H. revert H.
  apply (bool_decide_unpack (c_nl ∉ py "state-of-the-art design")). vm_compute. reflexivity.
Defined.

(** ** X3: the blocks of the Block Segmenter *)

(** X3: [preprocess_text_into_blocks] returns blocks none of which is empty,
    whose lines are not empty, have no white space around them and hold no
    line boundary; the flat line list is the blocks one after the other. *)
Theorem preprocess_blocks_shape {U : Unicode} (raw_text : str) :
  snd (preprocess_text_into_blocks raw_text)
  = concat (fst (preprocess_text_into_blocks raw_text))
  /\ Forall (fun b : list str => b <> [] /\ Forall proper_line b)
            (fst (preprocess_text_into_blocks raw_text)).
Proof.
  split; [reflexivity|].
  pose proof (preprocess_well_formed raw_text) as Hwf. unfold well_formed_blocks in Hwf.
  rewrite List.Forall_forall in Hwf |- *. intros b Hb. split; [apply (Hwf b Hb)|].
  apply List.Forall_forall. intros ln Hln. eapply preprocess_lines_proper; eassumption.
Qed.

(** ** X4: what the name heuristic accepts *)

(** X4: [_likely_name] raises on no line; a line it accepts has one to four
    words, its lower-case form contains none of "resume", "cv", "curriculum",
    "address", "phone", "email" as a substring, and one of its words begins
    with an upper-case character. *)
Theorem likely_name_accepts {U : Unicode} (line : str) :
  exists b, _likely_name line = Some b
    /\ (b = true ->
        (1 <= length (split_ws line) <= 4)%nat
        /\ Forall (fun x => contains (u_lower line) x = false) name_stop_words
        /\ exists w, In w (split_ws line) /\ first_isupper w = Some true).
Proof.
  unfold _likely_name.
  destruct (negb (truthy line) || (4 <? length (split_ws line))%nat) eqn:E1;
    [exists false; split; [reflexivity|discriminate]|].
  cbn zeta. destruct (existsb (contains (u_lower line)) name_stop_words) eqn:E2;
    [exists false; split; [reflexivity|discriminate]|].
  destruct (_ <? Nat.max 1 _)%nat; [exists false; split; [reflexivity|discriminate]|].
  destruct (first_isupper_total (split_ws line) (split_ws_nonempty line)) as [bs Hbs].
  rewrite Hbs. cbn [mbind option_bind]. eexists. split; [reflexivity|].
  intros Hc. apply Nat.leb_le in Hc. unfold count_true in Hc.
  destruct (List.filter id bs) as [|b0 t] eqn:Ef; [simpl in Hc; lia|].
  assert (Hin : In b0 (List.filter id bs)) by (rewrite Ef; left; reflexivity).
  apply filter_In in Hin. destruct Hin as [Hin Hb0]. unfold id in Hb0. subst b0.
  destruct (mapM_first_isupper_true _ _ Hbs Hin) as (w & Hw & Hu).
  apply orb_false_elim in E1. destruct E1 as [_ E1]. apply Nat.ltb_ge in E1.
  split; [|split; [apply existsb_false_forall, E2|exists w; auto]].
  split; [|exact E1]. destruct (split_ws line); [destruct Hw|simpl; lia].
Qed.

(** ** X5: the name, the emails and the links the header extractor reports *)

(** X5: [extract_header_info] returns on every line list.  The name is the
    stripped text of the first of the first 15 lines that [_likely_name]
    accepts, and null when it accepts none; the emails and the links are the
    texts their patterns find in those lines, each reported once. *)
Theorem extract_header_info_findings {U : Unicode} (lines : list str) :
  exists name contact remaining,
    extract_header_info lines = Some (name, contact, remaining)
    /\ name = strip <$> List.find likely (firstn 15 lines)
    /\ NoDup (emails contact) /\ NoDup (links contact)
    /\ (forall e, In e (emails contact)
                  <-> exists ln, In ln (firstn 15 lines) /\ In e (re_findall email_re ln))
    /\ (forall l, In l (links contact)
                  <-> exists ln, In ln (firstn 15 lines) /\ In l (re_findall url_re ln)).
Proof.
  destruct (extract_header_info_filter lines) as (name & contact & H).
  do 3 eexists. split; [exact H|].
  apply extract_header_info_reports in H. destruct H as (Hn & He & Hl).
  destruct (append_new_fold (findings email_re (firstn 15 lines)) [] (NoDup_nil_2 : NoDup (@nil str))) as [E1 E2].
  destruct (append_new_fold (findings url_re (firstn 15 lines)) [] (NoDup_nil_2 : NoDup (@nil str))) as [L1 L2].
  rewrite He, Hl. split; [exact Hn|]. split; [exact E1|]. split; [exact L1|]. split.
  - intros e. rewrite E2, findings_in. simpl. tauto.
  - intros l. rewrite L2, findings_in. simpl. tauto.
Qed.

(** ** X6: the form lines are compared in *)

(** X6: the text [_normalize_for_matching] returns holds only the letters a
    to z, the digits 0 to 9 and the space, and has no white space at its
    ends. *)
Theorem normalize_for_matching_alphabet {U : Unicode} (s : str) :
  Forall (fun c => in_range 97 122 c = true \/ in_range 48 57 c = true \/ c = 32)
         (_normalize_for_matching s)
  /\ strip (_normalize_for_matching s) = _normalize_for_matching s.
Proof.
  split; [|apply strip_idempotent].
  apply List.Forall_forall. intros x Hx. unfold _normalize_for_matching in Hx.
  unfold strip in Hx. apply strip_by_subset in Hx.
  apply sub_plus_chars in Hx. destruct Hx as [[<-|[]]|[Hx Hs]]; [right; right; reflexivity|].
  apply sub_cls_chars in Hx. destruct Hx as [[<-|[]]|[_ Hc]]; [right; right; reflexivity|].
  unfold cls_not_alnum_space in Hc. apply negb_false_iff in Hc.
  unfold cls_s in Hs. rewrite Hs, orb_false_r in Hc.
  apply orb_prop in Hc. tauto.
Qed.

(** ** X7: the keys the heading test returns *)

(** X7: [_is_section_header] returns null or one of the seven keys of
    [SECTION_PATTERNS]; it never returns "other". *)
Theorem is_section_header_range {U : Unicode} (line : str) :
  _is_section_header line = None
  \/ exists sect, _is_section_header line = Some sect
                  /\ In sect (List.map fst SECTION_PATTERNS) /\ sect <> py "other".
Proof.
  destruct (_is_section_header line) as [sect|] eqn:E; [right|left; reflexivity].
  exists sect. split; [reflexivity|]. apply is_section_header_key in E.
  split; [exact E|]. intros ->. revert E.
  apply (bool_decide_unpack (py "other" ∉ section_keys)). vm_compute. reflexivity.
Qed.

(** ** X8: a line that mentions experience *)

(** X8: every line whose form for matching contains "experience" is taken as
    a heading of the section "experience", whatever its length and whatever
    other labels it contains. *)
Theorem experience_mentioned_is_heading {U : Unicode} (line : str) :
  contains (_normalize_for_matching line) (py "experience") = true ->
  _is_section_header line = Some (py "experience").
Proof.
  intros H. unfold _is_section_header.
  change section_labels
    with ((py "experience", py "experience") :: List.tl section_labels).
  cbn [List.find snd]. rewrite H. reflexivity.
Qed.

Lemma experience_mentioned_witness :
  _is_section_header experience_sentence = Some (py "experience").
Proof. apply experience_mentioned_is_heading. vm_compute. reflexivity. Defined.

(** ** X9: the keys of the section map *)

(** X9: the keys of the map [segment_sections] returns are distinct, and each
    is "other" or a key of [SECTION_PATTERNS]. *)
Theorem segment_sections_keys {U : Unicode} (lines : list str) :
  NoDup (List.map fst (segment_sections lines))
  /\ Forall (fun k => In k (py "other" :: List.map fst SECTION_PATTERNS))
            (List.map fst (segment_sections lines)).
Proof.
  unfold segment_sections.
  destruct (segment_fold_keys lines (py "other", [(py "other", [])])) as (_ & Hn & Hk).
  { unfold keys_ok. cbn [fst snd List.map]. split; [left; reflexivity|]. split.
    - apply NoDup_singleton.
    - constructor; [left; reflexivity|constructor]. }
  set (d := snd (foldl segment_step (py "other", [(py "other", [])]) lines)) in *.
  clearbody d. induction d as [|[k v] d IH]; cbn [List.filter List.map snd fst];
    [split; constructor|].
  cbn [List.map fst] in Hn, Hk. apply NoDup_cons in Hn. destruct Hn as [Hk1 Hn].
  apply Forall_cons in Hk. destruct Hk as [Hk2 Hk].
  destruct (IH Hn Hk) as [IH1 IH2].
  destruct (truthy v); cbn [List.map fst]; [|split; assumption]. split.
  - apply NoDup_cons. split; [|exact IH1]. intros Hin. apply Hk1.
    apply list_elem_of_In in Hin. apply list_elem_of_In.
    apply in_map_iff in Hin. destruct Hin as (kv & <- & Hkv). apply filter_In in Hkv.
    apply in_map, Hkv.
  - constructor; assumption.
Qed.

(** ** X10: the lines of one section *)

(** X10: under a key, [segment_sections] holds exactly the lines that follow
    a heading of that key up to the next heading ("other": the lines before
    the first heading), in their order, all occurrences of the heading
    together; a key without a line is not in the map. *)
Theorem segment_sections_lookup {U : Unicode} (lines : list str) (k : str) :
  dict_get k (segment_sections lines)
  = match lines_of k (labelled (py "other") lines) with
    | [] => None
    | v => Some v
    end.
Proof.
  unfold segment_sections.
  destruct (segment_fold_keys lines (py "other", [(py "other", [])])) as (_ & Hn & _).
  { unfold keys_ok. cbn [fst snd List.map]. split; [left; reflexivity|]. split.
    - apply NoDup_singleton.
    - constructor; [left; reflexivity|constructor]. }
  rewrite dict_get_filter by exact Hn. rewrite segment_fold_get.
  cbn [dict_get]. destruct (str_eq (py "other") k); reflexivity.
Qed.

(** ** X11: the dates of a header *)

(** X11: [_extract_dates_from_line] raises on no line: the range it finds
    always has a part to take the start date from.  It returns two nulls when
    the line has no date range, and a start date when it has one. *)
Theorem extract_dates_from_line_returns {U : Unicode} (line : str) :
  exists start_date end_date,
    _extract_dates_from_line line = Some (start_date, end_date)
    /\ (re_search DATE_RE line = None -> start_date = None /\ end_date = None)
    /\ (is_Some (re_search DATE_RE line) -> is_Some start_date).
Proof. apply extract_dates_shape. Qed.

(** ** X12: the experience parser on the lines of the pipeline *)

(** X12: on lines without white space around them, as the pipeline hands
    them over, [parse_experience_section] returns: it raises nothing and its
    loops end.  It makes at most one entry for a line, and every entry has a
    header or a bullet. *)
Theorem parse_experience_section_returns {U : Unicode} (lines : list str) :
  Forall trimmed lines ->
  exists entries,
    parse_experience_section lines = Some entries
    /\ (length entries <= length lines)%nat
    /\ Forall (fun e => is_Some (e_raw_header e) \/ e_bullets e <> []) entries.
Proof.
  intros Ht. unfold parse_experience_section.
  destruct (experience_loop_entries (S (length lines)) lines [] Ht) as (es & H); [lia|].
  exists es. exact H.
Qed.

Lemma parse_experience_section_witness :
  exists entries,
    parse_experience_section job_lines = Some entries
    /\ (length entries <= length job_lines)%nat
    /\ Forall (fun e => is_Some (e_raw_header e) \/ e_bullets e <> []) entries.
Proof.
  apply parse_experience_section_returns.
  repeat (constructor; [vm_compute; reflexivity|]). constructor.
Defined.

(** ** X13: a line the experience parser does not get past *)

(** X13: when the first line is header-like as it stands but not once its
    white space is stripped, as is a line ending in " at ", the outer loop of
    [parse_experience_section] passes over no line and never ends: the
    parser does not return. *)
Theorem parse_experience_section_hangs {U : Unicode} (l : str) (rest : list str) :
  _is_header_like (strip l) = Some false ->
  _is_header_like l = Some true ->
  parse_experience_section (l :: rest) = None
  /\ forall fuel entries, experience_loop fuel (l :: rest) entries = None.
Proof.
  intros H1 H2. split; [apply experience_loop_stuck; assumption|].
  intros fuel entries. apply experience_loop_stuck; assumption.
Qed.

Lemma parse_experience_section_hangs_witness :
  parse_experience_section [py "worked at "; py "Acme"] = None
  /\ forall fuel entries, experience_loop fuel [py "worked at "; py "Acme"] entries = None.
Proof. apply parse_experience_section_hangs; vm_compute; reflexivity. Defined.

(** ** X14: the lines of the education entries *)

(** X14: [parse_education_section] returns on every line list, and loses no
    line: the headers of its entries, each followed by the bullets of the
    entry, are the stripped lines that are not empty, in their order.  Every
    entry has a header and a degree. *)
Theorem parse_education_section_keeps_lines {U : Unicode} (lines : list str) :
  exists entries,
    parse_education_section lines = Some entries
    /\ concat (List.map entry_lines entries) = stripped_lines lines
    /\ Forall (fun e => is_Some (d_degree e) /\ is_Some (d_raw_header e)) entries.
Proof.
  unfold parse_education_section.
  destruct (education_loop_spec (S (length lines)) lines []) as (es & H); [lia|].
  exists es. exact H.
Qed.

(** ** X15: the repetition filter applied twice *)

(** X15: on Blocks (none empty, the lines without white space around them)
    [remove_repeated_header_footer] is idempotent: after it no short line is
    in two blocks, and a second pass returns its input. *)
Theorem remove_repeated_header_footer_idempotent {U : Unicode} (blocks : list (list str)) :
  well_formed_blocks blocks ->
  remove_repeated_header_footer (remove_repeated_header_footer blocks)
  = remove_repeated_header_footer blocks
  /\ forall k, candidate (remove_repeated_header_footer blocks) k = false.
Proof.
  intros Hwf. rewrite (remove_repeated_spec blocks Hwf).
  pose proof (filter_blocks_well_formed (candidate blocks) blocks ∅ Hwf) as Hwf'.
  split; [|apply candidate_after].
  rewrite (remove_repeated_spec _ Hwf'). apply filter_blocks_none; [apply candidate_after|].
  unfold well_formed_blocks in Hwf'. eapply Forall_impl; [exact Hwf'|].
  cbn beta. tauto.
Qed.

Lemma remove_repeated_header_footer_idempotent_witness :
  remove_repeated_header_footer (remove_repeated_header_footer two_pages)
  = remove_repeated_header_footer two_pages
  /\ forall k, candidate (remove_repeated_header_footer two_pages) k = false.
Proof.
  apply remove_repeated_header_footer_idempotent.
  repeat (constructor; [split; [discriminate|repeat (constructor; [vm_compute; reflexivity|]);
                                            constructor]|]).
  constructor.
Defined.

(** ** X16: the record of the top-level parser *)

(** X16: on every text [parse_resume_text] returns a record in which the
    cleaned text is the normalised input, the lines are the blocks one after
    the other, every line is not empty, has no white space around it and
    holds no line boundary, and every section's lines are a subsequence of
    the lines.  A name, when there is one, is one of the first 15 lines, and
    no section holds a line with its text.  The minor sections are exactly
    those of "certifications", "awards" and "summary" that the section map
    has, with the map's lines. *)
Theorem parse_resume_text_record {U : Unicode} (raw_text : str) :
  exists r,
    parse_resume_text raw_text = Some r
    /\ r_raw_clean r = normalize raw_text
    /\ r_lines r = concat (r_blocks r)
    /\ Forall proper_line (r_lines r)
    /\ Forall (fun kv : str * list str => sublist (snd kv) (r_lines r)) (r_sections r)
    /\ (forall n, r_name r = Some n ->
          In n (firstn 15 (r_lines r)) /\ ~ In n (values (r_sections r)))
    /\ (forall k v, In (k, v) (r_other r)
          <-> In k [py "certifications"; py "awards"; py "summary"]
              /\ dict_get k (r_sections r) = Some v).
Proof.
  destruct (parse_resume_text_fields raw_text)
    as (r & remaining & Hr & _ & Hc & Hb & Hl & He & Hrem & Hs & _ & _ & _ & _ & Ho).
  exists r. split; [exact Hr|]. split; [exact Hc|].
  split; [rewrite Hl, Hb; reflexivity|].
  split; [rewrite Hl; apply working_lines_proper|].
  assert (Hsub : forall x, In x remaining -> In x (working_lines raw_text)
                           /\ header_text (working_lines raw_text) x = false).
  { intros x Hx. rewrite Hrem in Hx. apply filter_In in Hx. destruct Hx as [Hx Hh].
    split; [exact Hx|]. apply negb_true_iff, Hh. }
  split; [|split].
  - rewrite Hs, Hl. pose proof (segment_sections_sublist remaining) as H.
    eapply Forall_impl; [exact H|]. cbn beta. intros kv [Hk _].
    etransitivity; [exact Hk|]. rewrite Hrem. apply filter_sublist.
  - intros n Hn. apply extract_header_info_reports in He. destruct He as (Hname & _ & _).
    rewrite Hn in Hname.
    destruct (List.find likely (firstn 15 (working_lines raw_text))) as [ln|] eqn:Ef;
      [|discriminate].
    cbn [fmap option_fmap option_map] in Hname. apply (inj Some) in Hname.
    pose proof (find_some _ _ Ef) as [Hin _].
    assert (Hln : strip ln = ln).
    { pose proof (working_lines_trimmed raw_text) as Ht. rewrite List.Forall_forall in Ht.
      apply Ht. apply list_elem_of_In. apply (subseteq_take 15).
      apply list_elem_of_In. exact Hin. }
    rewrite Hln in Hname. subst n. rewrite Hl. split; [exact Hin|].
    intros Hv. rewrite Hs in Hv. unfold values in Hv. apply in_concat in Hv.
    destruct Hv as (v & Hv & Hx). apply in_map_iff in Hv. destruct Hv as (kv & <- & Hkv).
    pose proof (segment_sections_sublist remaining) as H. rewrite List.Forall_forall in H.
    destruct (H kv Hkv) as [Hk _]. apply sublist_subseteq in Hk.
    apply list_elem_of_In in Hx. apply Hk in Hx. apply list_elem_of_In in Hx.
    destruct (Hsub ln Hx) as [_ Hh]. rewrite (name_line_is_header _ _ Ef) in Hh. discriminate.
  - intros k v. apply collect_other_spec in Ho. rewrite Ho. cbn [app].
    rewrite <- list_elem_of_In, list_elem_of_omap. split.
    + intros (k' & Hk' & Hf). destruct (dict_get k' (r_sections r)) as [v'|] eqn:E;
        [|discriminate]. cbn in Hf. inversion Hf; subst.
      split; [apply list_elem_of_In; exact Hk'|exact E].
    + intros [Hk Hv]. exists k. split; [apply list_elem_of_In; exact Hk|].
      rewrite Hv. reflexivity.
Qed.

(** ** X17: lines a leading bullet mark does not keep from being headers *)

(** X17: [_is_header_like] holds of every line of one to eight words one of
    which begins with an upper-case character, also when the line begins
    with a bullet mark. *)
Theorem capitalised_line_is_header_like {U : Unicode} (line : str) :
  (1 <= length (split_ws line) <= 8)%nat ->
  (exists w, In w (split_ws line) /\ first_isupper w = Some true) ->
  _is_header_like line = Some true.
Proof. apply header_like_capitalised. Qed.

Lemma capitalised_line_witness : _is_header_like (py "- Built a thing") = Some true.
Proof.
  apply capitalised_line_is_header_like; [vm_compute; lia|].
  exists (py "Built"). split; [vm_compute; tauto|reflexivity].
Defined.

(** ** X18: an experience section of header-like lines *)

(** X18: when every line is header-like (and has no white space around it),
    [parse_experience_section] makes one entry for each line, in order, with
    the line as its raw header and without bullets. *)
Theorem parse_experience_section_headers {U : Unicode} (lines : list str) :
  Forall (fun l => strip l = l /\ _is_header_like l = Some true) lines ->
  exists entries,
    parse_experience_section lines = Some entries
    /\ List.map e_raw_header entries = List.map Some lines
    /\ Forall (fun e => e_bullets e = []) entries.
Proof.
  intros H. unfold parse_experience_section.
  destruct (experience_loop_headers (S (length lines)) lines [] H) as (es & He); [lia|].
  exists es. exact He.
Qed.

Lemma parse_experience_section_headers_witness :
  exists entries,
    parse_experience_section headers_only = Some entries
    /\ List.map e_raw_header entries = List.map Some headers_only
    /\ Forall (fun e => e_bullets e = []) entries.
Proof.
  apply parse_experience_section_headers.
  repeat (constructor; [split; vm_compute; reflexivity|]). constructor.
Defined.

(** ** X19: the text the callers build from the lines *)

(** X19: the callers join the lines of the record with line feeds.  No line
    holds a line feed, so that splitting the joined text at the line feeds
    gives the lines back; for a record without lines it gives one empty
    line. *)
Theorem joined_lines_split_back {U : Unicode} (raw_text : str) :
  exists r,
    parse_resume_text raw_text = Some r
    /\ split_sep [c_nl] (join [c_nl] (r_lines r))
       = match r_lines r with [] => [[]] | _ => r_lines r end.
Proof.
  destruct (parse_resume_text_returns raw_text) as (r & Hr & Hl).
  exists r. split; [exact Hr|]. apply split_join_lines. rewrite Hl.
  apply working_lines_proper.
Qed.

(** ** X26: the tech list of a project *)

(** X26: [parse_projects_section] returns on every line list.  In every
    entry the items of the tech list are not empty, have no white space
    around them and hold neither "," nor "|"; an entry without a name has no
    tech list and no raw header, and an entry with a name has a raw
    header. *)
Theorem parse_projects_section_tech {U : Unicode} (lines : list str) :
  exists entries,
    parse_projects_section lines = Some entries
    /\ Forall (fun e => Forall tech_item (p_tech e)
                        /\ (p_name e = None -> p_tech e = [] /\ p_raw_header e = None)
                        /\ (is_Some (p_name e) -> is_Some (p_raw_header e)))
              entries.
Proof.
  unfold parse_projects_section.
  destruct (projects_loop_chunks (S (length lines)) lines []) as (chunks & H & _); [lia|].
  eexists. split; [exact H|]. cbn [app].
  apply List.Forall_forall. intros e He. apply in_map_iff in He.
  destruct He as (chunk & <- & _). apply project_of_chunk_shape.
Qed.

(** ** X27: long lines as headings *)

(** X27: a line whose form for matching has more than eight words is taken
    as a heading exactly when that form contains one of the labels of
    [SECTION_PATTERNS] as a substring: the fuzzy comparison is never tried on
    it. *)
Theorem long_line_is_heading_by_substring {U : Unicode} (line : str) :
  (8 < length (split_ws (_normalize_for_matching line)))%nat ->
  is_Some (_is_section_header line)
  <-> existsb (fun sp => contains (_normalize_for_matching line) (snd sp)) section_labels
      = true.
Proof. apply long_line_header. Qed.

Lemma long_line_witness :
  is_Some (_is_section_header plain_sentence)
  <-> existsb (fun sp => contains (_normalize_for_matching plain_sentence) (snd sp))
              section_labels = true.
Proof. apply long_line_is_heading_by_substring. vm_compute. lia. Defined.

(** * Properties of the other modules *)

(** ** X20: the text cleaner of the NLP helpers *)

(** X20: [clean_text] returns a text with no carriage return, no three line
    feeds in a row and no white space at its ends, and is idempotent. *)
Theorem clean_text_result {U : Unicode} (text : str) :
  ~ In c_cr (clean_text text)
  /\ (forall a b, clean_text text <> a ++ [c_nl; c_nl; c_nl] ++ b)
  /\ strip (clean_text text) = clean_text text
  /\ clean_text (clean_text text) = clean_text text.
Proof.
  split; [apply clean_text_no_cr|].
  split; [intros a b; apply short_runs_no_triple, clean_text_short_runs|].
  split; [rewrite clean_text_strip; apply strip_idempotent|apply clean_text_fixed].
Qed.

(** ** X21: the roles the matcher detects *)

(** X21: [detect_roles_from_skills] returns exactly the roles of
    [ROLE_SKILL_MAP] with two or more of their skills in the lower-case
    text, each once, the role with more skills first, and roles with the
    same number of skills in the order of the table. *)
Theorem detect_roles_from_skills_spec {U : Unicode} (text : str) :
  Permutation (detect_roles_from_skills text)
              (List.filter (fun r => (2 <=? role_count (u_lower text) r)%nat) role_names)
  /\ NoDup (detect_roles_from_skills text)
  /\ StronglySorted
       (fun a b => (role_count (u_lower text) b <= role_count (u_lower text) a)%nat)
       (detect_roles_from_skills text)
  /\ forall n,
       List.filter (fun r => (role_count (u_lower text) r =? n)%nat)
                   (detect_roles_from_skills text)
       = List.filter (fun r => (role_count (u_lower text) r =? n)%nat && (2 <=? n)%nat)
                     role_names.
Proof.
  split; [apply detect_roles_perm|]. split; [|split].
  - rewrite (detect_roles_perm text). apply NoDup_ListNoDup, List.NoDup_filter.
    apply NoDup_ListNoDup, role_names_nodup.
  - apply detect_roles_sorted.
  - intros n. apply detect_roles_ties.
Qed.

(** ** X22: a skill inside another skill *)

(** X22: the skills are looked for as substrings, so that a text that
    mentions "javascript" in any case also counts for "java": it is detected
    as "software engineer" and as "full stack developer" whatever else it
    says. *)
Theorem javascript_counts_twice {U : Unicode} (text : str) :
  contains (u_lower text) (py "javascript") = true ->
  In (py "software engineer") (detect_roles_from_skills text)
  /\ In (py "full stack developer") (detect_roles_from_skills text).
Proof.
  intros H.
  assert (Hj : contains (u_lower text) (py "java") = true).
  { apply (contains_trans _ _ _ H). vm_compute. reflexivity. }
  assert (Hne : py "java" <> py "javascript") by (intros E; vm_compute in E; discriminate).
  split.
  - destruct (role_at 0 _ _ (u_lower text) eq_refl) as [Hr Hc].
    apply (Permutation_in _ (Permutation_sym (detect_roles_perm text))).
    apply filter_In. split; [exact Hr|]. apply Nat.leb_le. rewrite Hc. unfold match_count.
    apply (filter_two _ (py "java") (py "javascript")); try assumption;
      cbn [List.map In]; tauto.
  - destruct (role_at 3 _ _ (u_lower text) eq_refl) as [Hr Hc].
    apply (Permutation_in _ (Permutation_sym (detect_roles_perm text))).
    apply filter_In. split; [exact Hr|]. apply Nat.leb_le. rewrite Hc. unfold match_count.
    apply (filter_two _ (py "java") (py "javascript")); try assumption;
      cbn [List.map In]; tauto.
Qed.

Lemma javascript_counts_twice_witness :
  In (py "software engineer") (detect_roles_from_skills (py "Senior JavaScript developer"))
  /\ In (py "full stack developer")
        (detect_roles_from_skills (py "Senior JavaScript developer")).
Proof. apply javascript_counts_twice. vm_compute. reflexivity. Defined.

(** ** X23: what a text taken for code contains *)

(** X23: [looks_like_code] holds only of a text that contains, as
    substrings, three or more of the ten literals its signatures begin with:
    "def", "class", "import", "from", "return", "print", "for", "while",
    "try:" and "except". *)
Theorem looks_like_code_needs_keywords {U : Unicode} (text : str) :
  looks_like_code text = true ->
  (3 <= length (List.filter (contains text) code_keywords))%nat.
Proof.
  unfold looks_like_code. cbn zeta. intros H. apply Nat.leb_le in H.
  etransitivity; [exact H|]. apply count_le, code_patterns_keywords.
Qed.

Lemma looks_like_code_witness :
  (3 <= length (List.filter (contains (py "def area(r): return print(r * r)")) code_keywords))%nat.
Proof. apply looks_like_code_needs_keywords. vm_compute. reflexivity. Defined.

(** ** X24: the range of the rule-based score *)

(** X24: the score [calculate_rule_based_score] returns is the sum of the
    scores of the six checks of its breakdown, each within its maximum (the
    resume length scores 3 at least), so that it lies between 3 and 70. *)
Theorem rule_based_score_range {U : Unicode} (resume_text : str) (pd : parsed_data) :
  let score := fst (calculate_rule_based_score resume_text pd) in
  let item name := item_score name (snd (calculate_rule_based_score resume_text pd)) in
  (score == item (py "contact_info") + item (py "standard_sections")
            + item (py "skills_detection") + item (py "resume_length")
            + item (py "bullet_points") + item (py "action_verbs"))%Q
  /\ (3 <= score <= 70)%Q
  /\ (0 <= item (py "contact_info") <= 10)%Q
  /\ (0 <= item (py "standard_sections") <= 15)%Q
  /\ (0 <= item (py "skills_detection") <= 15)%Q
  /\ (3 <= item (py "resume_length") <= 10)%Q
  /\ (0 <= item (py "bullet_points") <= 10)%Q
  /\ (0 <= item (py "action_verbs") <= 10)%Q.
Proof.
  destruct (rule_score_parts resume_text pd)
    as (c & s & k & l & b & v & n1 & n2 & n3 & n4 & E & Hc & Hs & Hk & Hl & Hb & Hv & _).
  cbn zeta. rewrite E. cbn [fst snd].
  destruct (breakdown_scores c s k l b v [(py "max", 10%Q)] [(py "max", 15%Q)]
              [(py "max", 15%Q); (py "count", num n1)]
              [(py "max", 10%Q); (py "word_count", num n2)]
              [(py "max", 10%Q); (py "count", num n3)]
              [(py "max", 10%Q); (py "count", num n4)])
    as (-> & -> & -> & -> & -> & ->).
  repeat split; lra.
Qed.

(** ** X25: the score of a parsed resume *)

(** X25: the header extractor never reports a phone, so that for the dict
    the upload hands to the scorer (the record of the parser with the
    extracted skills) the 3 points for a phone are never given: the contact
    check scores 7 at most and the rule-based score 67 at most. *)
Theorem rule_based_score_of_upload {U : Unicode} (raw_text : str) :
  exists r,
    parse_resume_text raw_text = Some r
    /\ forall resume_text extracted_skills,
         let result :=
           calculate_rule_based_score resume_text (uploaded_data r extracted_skills) in
         (item_score (py "contact_info") (snd result) <= 7)%Q /\ (fst result <= 67)%Q.
Proof.
  destruct (parse_resume_text_fields raw_text)
    as (r & remaining & Hr & _ & _ & _ & _ & He & _).
  exists r. split; [exact Hr|]. intros resume_text extracted_skills.
  apply extract_header_info_no_phone in He.
  destruct (rule_score_parts resume_text (uploaded_data r extracted_skills))
    as (c & s & k & l & b & v & n1 & n2 & n3 & n4 & E & Hc & Hs & Hk & Hl & Hb & Hv & Hp).
  cbn zeta. rewrite E. cbn [fst snd]. rewrite item_score_head.
  assert (Hc7 : (c <= 7)%Q).
  { apply Hp. unfold uploaded_data. cbn [pd_contact default]. unfold get_truthy.
    rewrite He. vm_compute. reflexivity. }
  split; lra.
Qed.
